(** * Machetli: the search driver, the SAS+ reader and the evaluator shims

    A shallow embedding of [machetli/search.py], [machetli/sas/files.py] and
    the domain discovery of [machetli/pddl/files.py], with the properties the
    specification states about them.

    Python values are modelled as follows: [int] is [Z] (positions produced by
    [range] and [enumerate] are [nat]), [str] is [string] read as a sequence of
    code units, lists are lists, a raised exception is the left summand of a
    sum type, and the mutable objects the code threads through calls (the
    execution environment, the log, the file system) are passed explicitly. *)

From Stdlib Require Import ZArith Lia Ascii.
From Stdlib Require DecimalString DecimalPos.
From stdpp Require Import base option list strings gmap.

(** ** Logging *)

Inductive loglevel := INFO | WARNING | CRITICAL_LOG.

(** The log is the sequence of records [logging.<level>(<text>)] emitted so
    far, oldest first. *)
Definition log := list (loglevel * string).

Definition logging (lvl : loglevel) (text : string) (l : log) : log :=
  l ++ [(lvl, text)].

(** The line feed, as a one-character string. *)
Definition newline : string := String "010"%char EmptyString.

(** [str(x)] for a nullable string: [None] prints as the word None. *)
Definition str_opt (o : option string) : string :=
  match o with
  | Some s => s
  | None => "None"
  end.

(** ** Python's string and integer primitives *)

Module Py.

(** [s[:n]] and [s[n:]] for a position [n] that is not negative. *)
Fixpoint take (n : nat) (s : string) : string :=
  match n, s with
  | S n', String c s' => String c (take n' s')
  | _, _ => ""
  end.

Fixpoint drop (n : nat) (s : string) : string :=
  match n, s with
  | S n', String _ s' => drop n' s'
  | _, _ => s
  end.

(** [s.rfind(c)]: the last position of [c] in [s], or -1. *)
Fixpoint rfind (c : ascii) (s : string) : Z :=
  match s with
  | EmptyString => (-1)%Z
  | String a s' =>
      let r := rfind c s' in
      if (0 <=? r)%Z then (r + 1)%Z
      else if bool_decide (a = c) then 0%Z else (-1)%Z
  end.

(** [s == c * len(s)] *)
Fixpoint all_char (c : ascii) (s : string) : bool :=
  match s with
  | EmptyString => true
  | String a s' => bool_decide (a = c) && all_char c s'
  end.

(** [s.rstrip(c)] for a single character [c]. *)
Fixpoint rstrip (c : ascii) (s : string) : string :=
  match s with
  | EmptyString => ""
  | String a s' =>
      match rstrip c s' with
      | EmptyString => if bool_decide (a = c) then "" else String a ""
      | r => String a r
      end
  end.

Definition startswith (c : ascii) (s : string) : bool :=
  match s with
  | String a _ => bool_decide (a = c)
  | EmptyString => false
  end.

Fixpoint endswith (c : ascii) (s : string) : bool :=
  match s with
  | EmptyString => false
  | String a EmptyString => bool_decide (a = c)
  | String _ s' => endswith c s'
  end.

(** [s.split(c)]: cut at every occurrence of [c]; never empty. *)
Fixpoint split (c : ascii) (s : string) : list string :=
  match s with
  | EmptyString => [""]
  | String a s' =>
      if bool_decide (a = c) then "" :: split c s'
      else match split c s' with
           | x :: r => String a x :: r
           | [] => [String a ""]
           end
  end.

(** White space as [int] strips it, on code units below 128. *)
Definition isspace (c : ascii) : bool :=
  let n := nat_of_ascii c in
  ((9 <=? n) && (n <=? 13)) || ((28 <=? n) && (n <=? 32)).

Fixpoint lstrip (s : string) : string :=
  match s with
  | String a s' => if isspace a then lstrip s' else s
  | EmptyString => ""
  end.

Fixpoint rstrip_space (s : string) : string :=
  match s with
  | EmptyString => ""
  | String a s' =>
      match rstrip_space s' with
      | EmptyString => if isspace a then "" else String a ""
      | r => String a r
      end
  end.

Definition strip (s : string) : string := rstrip_space (lstrip s).

Definition digit (c : ascii) : option Z :=
  let n := nat_of_ascii c in
  if (48 <=? n) && (n <=? 57) then Some (Z.of_nat (n - 48)) else None.

(** The digits of a decimal literal: at least one digit, and single
    underscores only between two digits. [prev] tells whether the previous
    character was a digit. *)
Fixpoint digits (acc : Z) (prev : bool) (s : string) : option Z :=
  match s with
  | EmptyString => if prev then Some acc else None
  | String c s' =>
      match digit c with
      | Some d => digits (10 * acc + d) true s'
      | None =>
          if bool_decide (c = "_"%char) && prev then digits acc false s'
          else None
      end
  end.

(** [int(s)]; [None] stands for the [ValueError] it raises. *)
Definition int (s : string) : option Z :=
  match strip s with
  | String "-" r => Z.opp <$> digits 0 false r
  | String "+" r => digits 0 false r
  | r => digits 0 false r
  end.

(** [str(z)] *)
Definition str (z : Z) : string :=
  DecimalString.NilZero.string_of_int (Z.to_int z).

(** [c.upper()] on one code unit. *)
Definition upper (c : ascii) : ascii :=
  let n := nat_of_ascii c in
  if (97 <=? n) && (n <=? 122) then ascii_of_nat (n - 32) else c.

(** [sep.join(l)] *)
Fixpoint join (sep : string) (l : list string) : string :=
  match l with
  | [] => ""
  | [x] => x
  | x :: l' => x +:+ sep +:+ join sep l'
  end.

(** The characters of a string, for indexing. *)
Fixpoint chars (s : string) : list ascii :=
  match s with
  | EmptyString => []
  | String c s' => c :: chars s'
  end.

(** The characters at which [str.splitlines] cuts a text, among those with
    a code below 256: line feed, vertical tab, form feed, carriage return,
    file, group and record separator, and next line. *)
Definition line_boundary (c : ascii) : bool :=
  bool_decide (c ∈ ["010"; "011"; "012"; "013"; "028"; "029"; "030";
                    "133"]%char).

(** [str.splitlines], with the characters of the line under way in [line]:
    a carriage return followed by a line feed is one boundary, and the
    text after the last boundary is a line unless it is empty. *)
Fixpoint splitlines_from (line s : string) : list string :=
  match s with
  | EmptyString => if bool_decide (line = "") then [] else [line]
  | String c s' =>
      if line_boundary c then
        line ::
        match s' with
        | String c' s'' =>
            if bool_decide (c = "013"%char) && bool_decide (c' = "010"%char)
            then splitlines_from "" s''
            else splitlines_from "" s'
        | EmptyString => splitlines_from "" s'
        end
      else splitlines_from (line +:+ String c "") s'
  end.

Definition splitlines (s : string) : list string := splitlines_from "" s.

End Py.

(** ** The grounded task, [machetli/sas/sas_tasks.py] *)

Module SasTasks.

Local Open Scope Z_scope.

(** Modelled from the spec: the classes of [sas_tasks.py], which the reader
    constructs, with the fields of section 3 of the specification. A fact is
    a pair (variable, value). *)
Definition fact : Type := Z * Z.

(** Modelled from the spec: an effect of an operator, the tuple
    (var, pre, post, condition) the reader builds. *)
Definition effect : Type := Z * Z * Z * list fact.

(** Modelled from the spec: [SASVariables] of [sas_tasks.py], the domain
    sizes, axiom layers and value names of the variables, as the reader
    passes them to the constructor. *)
Record SASVariables := mkSASVariables {
  ranges : list Z;
  axiom_layers : list Z;
  value_names : list (list string)
}.

(** Modelled from the spec: [SASOperator] of [sas_tasks.py]. *)
Record SASOperator := mkSASOperator {
  name : string;
  prevail : list fact;
  pre_post : list effect;
  cost : Z
}.

(** Modelled from the spec: [SASAxiom] of [sas_tasks.py]; the head effect is
    the pair of the variable and its new value. *)
Record SASAxiom := mkSASAxiom {
  condition : list fact;
  axiom_effect : fact
}.

(** Modelled from the spec: [SASTask] of [sas_tasks.py]; [metric] is the
    flag [use_action_costs]. *)
Record SASTask := mkSASTask {
  variables : SASVariables;
  mutexes : list (list fact);
  init : list Z;
  goal : list fact;
  operators : list SASOperator;
  axioms : list SASAxiom;
  metric : bool
}.

(** Modelled from the spec: invariant 1 of section 3 for one fact, [var]
    indexes a variable and [val] lies inside its domain. *)
Definition legal_fact (vs : SASVariables) (f : fact) : bool :=
  let '(var, val) := f in
  (0 <=? var) &&
  match ranges vs !! Z.to_nat var with
  | Some size => (0 <=? val) && (val <? size)
  | None => false
  end.

(** Modelled from the spec: invariant 4 of section 3 for one effect. *)
Definition legal_effect (vs : SASVariables) (e : effect) : bool :=
  let '(var, pre, post, cond) := e in
  (0 <=? var) &&
  match ranges vs !! Z.to_nat var with
  | Some size =>
      (-1 <=? pre) && (pre <? size) && (0 <=? post) && (post <? size)
  | None => false
  end &&
  forallb (legal_fact vs) cond.

(** Modelled from the spec: invariant 3 of section 3 for one axiom head. *)
Definition legal_axiom_head (vs : SASVariables) (f : fact) : bool :=
  let '(var, val) := f in
  legal_fact vs f &&
  match axiom_layers vs !! Z.to_nat var, ranges vs !! Z.to_nat var with
  | Some layer, Some size => (0 <=? layer) && (size =? 2)
  | _, _ => false
  end.

(** Modelled from the spec: [SASTask.validate], the four invariants of
    section 3. *)
Definition validate (t : SASTask) : bool :=
  let vs := variables t in
  (* 1 *)
  forallb (forallb (legal_fact vs)) (mutexes t) &&
  forallb (legal_fact vs)
    (imap (fun i val => (Z.of_nat i, val)) (init t)) &&
  forallb (legal_fact vs) (goal t) &&
  forallb (fun o => forallb (legal_fact vs) (prevail o)) (operators t) &&
  forallb (fun a => forallb (legal_fact vs) (condition a)) (axioms t) &&
  (* 2 *)
  bool_decide (length (init t) = length (ranges vs)) &&
  (* 3 *)
  forallb (fun a => legal_axiom_head vs (axiom_effect a)) (axioms t) &&
  (* 4 *)
  forallb (fun o => forallb (legal_effect vs) (pre_post o)) (operators t).

(** Modelled from the spec: the writer [SASTask.output] of [sas_tasks.py],
    as the lines it prints in the grounded-task file format of section 6 of
    the specification. First a line [<var> <val>]. *)
Definition fact_line (f : fact) : string :=
  Py.str f.1 +:+ " " +:+ Py.str f.2.

(** Modelled from the spec: the section of variable [i]; the format leaves
    the variable name open, and the reader skips it. *)
Definition output_variable (i : nat) (size layer : Z) (names : list string)
    : list string :=
  ["begin_variable"; "var" +:+ Py.str (Z.of_nat i); Py.str layer;
   Py.str size] ++ names ++ ["end_variable"].

(** Modelled from the spec: the variable sections from variable [i] on. *)
Fixpoint output_variables_from (i : nat) (rs ls : list Z)
    (ns : list (list string)) : list string :=
  match rs, ls, ns with
  | size :: rs', layer :: ls', names :: ns' =>
      output_variable i size layer names ++
      output_variables_from (S i) rs' ls' ns'
  | _, _, _ => []
  end.

(** Modelled from the spec: the count of variables and their sections. *)
Definition output_variables (vs : SASVariables) : list string :=
  Py.str (Z.of_nat (length (ranges vs))) ::
  output_variables_from 0 (ranges vs) (axiom_layers vs) (value_names vs).

(** Modelled from the spec: the section of one mutex group. *)
Definition output_mutex (facts : list fact) : list string :=
  ["begin_mutex_group"; Py.str (Z.of_nat (length facts))] ++
  (fact_line <$> facts) ++ ["end_mutex_group"].

(** Modelled from the spec: the line of one effect,
    [<ncond> (<cv> <cval>)* <var> <pre> <post>]. *)
Definition effect_line (e : effect) : string :=
  let '(var, pre, post, cond) := e in
  Py.join " "
    (Py.str (Z.of_nat (length cond)) ::
     flat_map (fun f => [Py.str f.1; Py.str f.2]) cond ++
     [Py.str var; Py.str pre; Py.str post]).

(** Modelled from the spec: the operator name is written without its outer
    parentheses, [name[1:-1]]. *)
Definition unwrap (s : string) : string :=
  Py.take (String.length s - 2) (Py.drop 1 s).

(** Modelled from the spec: the section of one operator. *)
Definition output_operator (o : SASOperator) : list string :=
  ["begin_operator"; unwrap (name o);
   Py.str (Z.of_nat (length (prevail o)))] ++
  (fact_line <$> prevail o) ++
  [Py.str (Z.of_nat (length (pre_post o)))] ++
  (effect_line <$> pre_post o) ++
  [Py.str (cost o); "end_operator"].

(** Modelled from the spec: the section of one axiom; the effect line
    carries the variable, the old value [1 - val] and the new value. *)
Definition output_axiom (a : SASAxiom) : list string :=
  let '(var, val) := axiom_effect a in
  ["begin_rule"; Py.str (Z.of_nat (length (condition a)))] ++
  (fact_line <$> condition a) ++
  [Py.join " " [Py.str var; Py.str (1 - val); Py.str val]; "end_rule"].

(** Modelled from the spec: [SASTask.output], all sections in the order of
    the file format; the metric line is 0 or 1. *)
Definition output (t : SASTask) : list string :=
  ["begin_metric"; if metric t then "1" else "0"; "end_metric"] ++
  output_variables (variables t) ++
  [Py.str (Z.of_nat (length (mutexes t)))] ++
  flat_map output_mutex (mutexes t) ++
  ["begin_state"] ++ (Py.str <$> init t) ++ ["end_state"] ++
  ["begin_goal"; Py.str (Z.of_nat (length (goal t)))] ++
  (fact_line <$> goal t) ++ ["end_goal"] ++
  [Py.str (Z.of_nat (length (operators t)))] ++
  flat_map output_operator (operators t) ++
  [Py.str (Z.of_nat (length (axioms t)))] ++
  flat_map output_axiom (axioms t).

End SasTasks.

(** ** machetli/sas/files.py: the reader and the renaming *)

Module SasFiles.

Import SasTasks.
Local Open Scope Z_scope.

(** Exceptions of the reader and of [renamed_sas]. [ValidationError] is what
    the specification names for a failed [validate]; [ParseError] and
    [TooLarge] are the error values the specification describes for the
    reader and for the renaming; no statement of the code raises them. *)
Inductive exn :=
  | StopIteration
  | AssertionError
  | ValueError
  | IndexError
  | ValidationError
  | ParseError (line : nat) (expected found : string)
  | TooLarge.

(** A computation that consumes the iterator [lines]: it raises, or returns
    a value and the lines not yet consumed. *)
Definition reader (A : Type) : Type :=
  list string -> exn + (A * list string).

Global Instance reader_ret : MRet reader :=
  fun A x lines => inr (x, lines).

Global Instance reader_bind : MBind reader :=
  fun A B f m lines =>
    match m lines with
    | inl e => inl e
    | inr (x, lines') => f x lines'
    end.

Definition raise {A} (e : exn) : reader A := fun _ => inl e.

(** [next(lines)] *)
Definition next : reader string :=
  fun lines =>
    match lines with
    | [] => inl StopIteration
    | line :: lines' => inr (line, lines')
    end.

(** [assert next(lines) == delimiter] *)
Definition expect (delimiter : string) : reader unit :=
  line ← next;
  if bool_decide (line = delimiter) then mret () else raise AssertionError.

(** [int(next(lines))] *)
Definition next_int : reader Z :=
  line ← next;
  match Py.int line with
  | Some z => mret z
  | None => raise ValueError
  end.

(** [list(map(int, line.split(" ")))] *)
Fixpoint ints (parts : list string) : option (list Z) :=
  match parts with
  | [] => Some []
  | p :: parts' =>
      z ← Py.int p; zs ← ints parts'; Some (z :: zs)
  end.

Definition int_list (line : string) : reader (list Z) :=
  match ints (Py.split " " line) with
  | Some zs => mret zs
  | None => raise ValueError
  end.

(** [var, val = map(int, next(lines).split(" "))] *)
Definition next_fact : reader fact :=
  line ← next;
  zs ← int_list line;
  match zs with
  | [var; val] => mret (var, val)
  | _ => raise ValueError
  end.

(** [for _ in range(n): acc.append(<body>)] *)
Fixpoint repeat {A} (n : nat) (body : reader A) (acc : list A)
    : reader (list A) :=
  match n with
  | O => mret acc
  | S n' => x ← body; repeat n' body (acc ++ [x])
  end.

(** [range(z)] runs [Z.to_nat z] times: not at all for a negative [z]. *)
Definition times (z : Z) : nat := Z.to_nat z.

Fixpoint _read_variables_loop (n : nat) (axiom_layers ranges : list Z)
    (value_name_lists : list (list string)) : reader SASVariables :=
  match n with
  | O => mret (mkSASVariables ranges axiom_layers value_name_lists)
  | S n' =>
      _ ← expect "begin_variable";
      _ ← next;
      layer ← next_int;
      num_values ← next_int;
      value_names ← repeat (times num_values) next [];
      _ ← expect "end_variable";
      _read_variables_loop n' (axiom_layers ++ [layer])
        (ranges ++ [num_values]) (value_name_lists ++ [value_names])
  end.

Definition _read_variables (num_vars : Z) : reader SASVariables :=
  _read_variables_loop (times num_vars) [] [] [].

Definition _read_mutex : reader (list fact) :=
  _ ← expect "begin_mutex_group";
  num_facts ← next_int;
  facts ← repeat (times num_facts) next_fact [];
  _ ← expect "end_mutex_group";
  mret facts.

Definition _read_mutexes (num_mutexes : Z) : reader (list (list fact)) :=
  repeat (times num_mutexes) _read_mutex [].

Definition _read_init_state (num_vars : Z) : reader (list Z) :=
  _ ← expect "begin_state";
  init ← repeat (times num_vars) next_int [];
  _ ← expect "end_state";
  mret init.

Definition _read_goal : reader (list fact) :=
  _ ← expect "begin_goal";
  num_pairs ← next_int;
  pairs ← repeat (times num_pairs) next_fact [];
  _ ← expect "end_goal";
  mret pairs.

(** [for cond_num in range(1, 2 * n, 2)]: the positions 1, 3, ... below
    [2 * n]; [count] is the number of them. *)
Fixpoint effect_conditions (effect_line : list Z) (cond_num count : nat)
    (cond : list fact) : exn + list fact :=
  match count with
  | O => inr cond
  | S count' =>
      match effect_line !! cond_num, effect_line !! S cond_num with
      | Some var, Some val =>
          effect_conditions effect_line (S (S cond_num)) count'
            (cond ++ [(var, val)])
      | _, _ => inl IndexError
      end
  end.

(** [effect_line[-3:]] *)
Definition last3 (l : list Z) : list Z := drop (length l - 3)%nat l.

Definition _read_effect : reader effect :=
  line ← next;
  effect_line ← int_list line;
  match effect_line with
  | [] => raise IndexError
  | num_effect_conditions :: _ =>
      match effect_conditions effect_line 1
              (times num_effect_conditions) [] with
      | inl e => raise e
      | inr cond =>
          match last3 effect_line with
          | [var; pre; post] => mret (var, pre, post, cond)
          | _ => raise ValueError
          end
      end
  end.

Definition _read_operator : reader SASOperator :=
  _ ← expect "begin_operator";
  line ← next;
  let name := "(" +:+ line +:+ ")" in
  num_prevail_conditions ← next_int;
  prevail_conditions ← repeat (times num_prevail_conditions) next_fact [];
  num_effects ← next_int;
  pre_post ← repeat (times num_effects) _read_effect [];
  cost ← next_int;
  _ ← expect "end_operator";
  mret (mkSASOperator name prevail_conditions pre_post cost).

Definition _read_operators (num_operators : Z) : reader (list SASOperator) :=
  repeat (times num_operators) _read_operator [].

Definition _read_axiom : reader SASAxiom :=
  _ ← expect "begin_rule";
  length_body ← next_int;
  condition ← repeat (times length_body) next_fact [];
  line ← next;
  effect_line ← int_list line;
  match effect_line !! 0%nat, effect_line !! 2%nat, effect_line !! 1%nat with
  | Some var, Some val, Some old =>
      if bool_decide (1 - val = old)
      then _ ← expect "end_rule"; mret (mkSASAxiom condition (var, val))
      else raise AssertionError
  | _, _, _ => raise IndexError
  end.

Definition _read_axioms (num_axioms : Z) : reader (list SASAxiom) :=
  repeat (times num_axioms) _read_axiom [].

(** [while True: line = next(lines); if line == "begin_metric": break] *)
Fixpoint skip_to_begin_metric (lines : list string)
    : exn + (unit * list string) :=
  match lines with
  | [] => inl StopIteration
  | line :: lines' =>
      if bool_decide (line = "begin_metric") then inr ((), lines')
      else skip_to_begin_metric lines'
  end.

(** [bool(s)] of a string: true unless the string is empty. *)
Definition bool_of_str (s : string) : bool := negb (bool_decide (s = "")).

Definition _read_task_lines : reader SASTask :=
  _ ← skip_to_begin_metric;
  line ← next;
  let metric := bool_of_str line in
  _ ← expect "end_metric";
  num_vars ← next_int;
  variables ← _read_variables num_vars;
  num_mutexes ← next_int;
  mutexes ← _read_mutexes num_mutexes;
  init ← _read_init_state num_vars;
  goal ← _read_goal;
  num_operators ← next_int;
  operators ← _read_operators num_operators;
  num_axioms ← next_int;
  axioms ← _read_axioms num_axioms;
  let sas_task :=
    mkSASTask variables mutexes init goal operators axioms metric in
  if validate sas_task then mret sas_task else raise ValidationError.

(** [_read_task] on the lines [sas_file.read_text().splitlines()]; the text
    of a file is cut into them by [Py.splitlines]. *)
Definition _read_task (lines : list string) : exn + SASTask :=
  match _read_task_lines lines with
  | inl e => inl e
  | inr (sas_task, _) => inr sas_task
  end.

Definition alphabet : string := "abcdefghijklmnopqrstuvwxyz".

(** [alphabet[j]] *)
Definition alphabet_at (j : nat) : exn + ascii :=
  match Py.chars alphabet !! j with
  | Some c => inr c
  | None => inl IndexError
  end.

(** [for j in range(size): value_names[i][j] = f"{alphabet[j].upper()}{i}"];
    [js] holds the values of [j] still to come. *)
Fixpoint rename_values (i : nat) (js : list nat)
    (value_names : list (list string)) : exn + list (list string) :=
  match js with
  | [] => inr value_names
  | j :: js' =>
      match alphabet_at j with
      | inl e => inl e
      | inr c =>
          let new_name :=
            String (Py.upper c) (Py.str (Z.of_nat i)) in
          match value_names !! i with
          | None => inl IndexError
          | Some names =>
              if bool_decide (j < length names)%nat
              then rename_values i js'
                     (<[i := <[j := new_name]> names]> value_names)
              else inl IndexError
          end
      end
  end.

(** [for i, size in enumerate(ranges)] *)
Fixpoint rename_variables (i : nat) (ranges : list Z)
    (value_names : list (list string)) : exn + list (list string) :=
  match ranges with
  | [] => inr value_names
  | size :: ranges' =>
      match rename_values i (seq 0 (times size)) value_names with
      | inl e => inl e
      | inr value_names' => rename_variables (S i) ranges' value_names'
      end
  end.

Definition set_name (o : SASOperator) (new_name : string) : SASOperator :=
  mkSASOperator new_name (prevail o) (pre_post o) (cost o).

(** [for i in range(len(operators)): operators[i].name = f"({alphabet[i]})"];
    [is_] holds the values of [i] still to come. *)
Fixpoint rename_operators (is_ : list nat) (operators : list SASOperator)
    : exn + list SASOperator :=
  match is_ with
  | [] => inr operators
  | i :: is' =>
      match operators !! i with
      | None => inl IndexError
      | Some o =>
          match alphabet_at i with
          | inl e => inl e
          | inr c =>
              rename_operators is'
                (<[i := set_name o ("(" +:+ String c ")")]> operators)
          end
      end
  end.

(** [renamed_sas]: works on a deep copy, so the argument is untouched. *)
Definition renamed_sas (sas_task : SASTask) : exn + SASTask :=
  let vs := variables sas_task in
  match rename_variables 0 (ranges vs) (value_names vs) with
  | inl e => inl e
  | inr value_names' =>
      match rename_operators (seq 0 (length (operators sas_task)))
              (operators sas_task) with
      | inl e => inl e
      | inr operators' =>
          inr (mkSASTask
                 (mkSASVariables (ranges vs) (axiom_layers vs) value_names')
                 (mutexes sas_task) (init sas_task) (goal sas_task)
                 operators' (axioms sas_task) (metric sas_task))
      end
  end.

End SasFiles.

(** ** machetli/search.py *)

Module Search.

(** Exceptions that travel through [search] and [_get_improving_successor]. *)
Inductive exn :=
| ValueError (msg : string)
| AssertionError
| TypeError
| UnboundLocalError (var : string)
| SubmissionError (msg : string)
| PollingError (msg : string)
| SystemExit (msg : string).

(** Modelled from the spec: [configure_logging] of [machetli/tools.py],
  which [search] calls with the log level of the environment before it does
  anything else, installs the log handler of the search process; with it the
  search process terminates with a critical log line: a record of level
  critical is written and then ends the process, by [sys.exit("aborting")].
  [logging.critical] in [search] is therefore a statement that writes its
  record and raises; the statements after it are not reached. *)
Definition logging_critical (text : string) (l : log) : exn * log :=
(SystemExit "aborting", logging CRITICAL_LOG text l).

(** Modelled from the spec: the candidate status of [EvaluationTask], whose
  class lives in [machetli/environments.py]; the specification lists five
  terminal values.  With this type the final [else] branches of the status
  dispatches (unexpected status) have no inhabitant to reach them. *)
Inductive status :=
| DONE_AND_BEHAVIOR_PRESENT
| DONE_AND_BEHAVIOR_NOT_PRESENT
| OUT_OF_RESOURCES
| CRITICAL
| CANCELED.

Global Instance status_eq_dec : EqDecision status.
Proof. solve_decision. Defined.

Section Driver.

(** State envelopes are opaque to the search. [truthy] is Python's truth
  value of the envelope (a mapping is false exactly when it is empty). *)
Context {State : Type}.
Variable truthy : State -> bool.

(** Modelled from the spec: [machetli.successors.Successor], a pair of a
  state and a change message. *)
Record Successor := mkSuccessor {
state : State;
change_msg : string
}.

(** Modelled from the spec: [machetli.environments.EvaluationTask]. *)
Record EvaluationTask := mkTask {
successor : Successor;
successor_id : nat;
task_status : status;
run_dir : string;
error_msg : option string
}.

(** What iterating over [environment.run(...)] produces: tasks one at a
  time, possibly ending in an exception of the environment. *)
Inductive task_stream :=
| Done
| Yield (t : EvaluationTask) (rest : task_stream)
| Fail (e : exn).

Fixpoint stream_of_list (ts : list EvaluationTask) : task_stream :=
match ts with
| [] => Done
| t :: ts' => Yield t (stream_of_list ts')
end.

(** The stream that yields the tasks of [ts] and goes on as [s]. *)
Fixpoint prepend (ts : list EvaluationTask) (s : task_stream)
  : task_stream :=
match ts with
| [] => s
| t :: ts' => Yield t (prepend ts' s)
end.

(** The closure [on_task_completed] of [_get_improving_successor]; it
  captures [deterministic] and [task_ids]. *)
Definition on_task_completed (deterministic : bool) (task_ids : list nat)
  (task : EvaluationTask) : option (list nat) :=
if deterministic
   && negb (bool_decide (task_status task = DONE_AND_BEHAVIOR_NOT_PRESENT))
then Some (List.filter (fun i => successor_id task <? i) task_ids)
else if negb deterministic
        && bool_decide (task_status task = DONE_AND_BEHAVIOR_PRESENT)
then Some task_ids
else None.

(** How the loop [for task in tasks] over one batch ends. *)
Inductive verdict :=
| Return (improving_state : option State) (message : string)
| Raise (e : exn)
| NextBatch (tasks_out_of_resources : list EvaluationTask).

(** [task.error_msg + suffix]: concatenation with [None] is a type error. *)
Definition error_msg_plus (task : EvaluationTask) (suffix : string)
  : verdict :=
match error_msg task with
| Some m => Return None (m +:+ suffix)
| None => Raise TypeError
end.

Definition oor_suffix : string :=
newline +:+ "An evaluator ran out of resources. With the option " +:+
"'deterministic' an improving successor found later " +:+
"would not count.".

Definition critical_suffix : string :=
newline +:+ "A critical error occurred in an evaluator. With the " +:+
"option 'deterministic' an improving successor found " +:+
"later would not count.".

(** The body of [for task in tasks] in [_get_improving_successor]. The set
  [tasks_out_of_resources] holds task objects, each added at most once; it
  is kept as the list of its members in insertion order. *)
Fixpoint verdict_loop (deterministic : bool) (tasks : task_stream)
  (oor : list EvaluationTask) (l : log) : verdict * log :=
match tasks with
| Done => (NextBatch oor, l)
| Fail e => (Raise e, l)
| Yield task rest =>
    match task_status task with
    | DONE_AND_BEHAVIOR_NOT_PRESENT =>
        verdict_loop deterministic rest oor l
    | DONE_AND_BEHAVIOR_PRESENT =>
        (Return (Some (state (successor task)))
                (change_msg (successor task)), l)
    | OUT_OF_RESOURCES =>
        if deterministic then (error_msg_plus task oor_suffix, l)
        else verdict_loop deterministic rest (oor ++ [task]) l
    | CRITICAL =>
        if deterministic then (error_msg_plus task critical_suffix, l)
        else verdict_loop deterministic rest oor
               (logging WARNING
                  (str_opt (error_msg task) +:+ newline +:+
                     "Critical error in " +:+ "'" +:+ run_dir task +:+ "'")
                  l)
    | CANCELED =>
        (* assert not deterministic *)
        if deterministic then (Raise AssertionError, l)
        else verdict_loop deterministic rest oor l
    end
end.

(** Modelled from the spec: [machetli.tools.batched] cuts the successor
  sequence into consecutive batches of at most [n] candidates. [fuel]
  bounds the number of batches; the length of the sequence is enough. *)
Fixpoint batched_fuel (fuel n : nat) (l : list Successor)
  : list (list Successor) :=
match fuel, l with
| _, [] => []
| 0, _ => []
| S fuel', _ => take n l :: batched_fuel fuel' n (drop n l)
end.

Definition batched (l : list Successor) (n : nat) : list (list Successor) :=
batched_fuel (length l) n l.

(** The execution environment: an object with internal state of type [Env].
  [run] receives the batch and the completion callback; the evaluator path
  is fixed for one search and is part of the environment here. *)
Variable Env : Type.
Variable batch_size : Env -> nat.
Variable start_new_iteration : Env -> Env.
Variable run : Env -> list Successor ->
             (EvaluationTask -> option (list nat)) -> Env * task_stream.

(** Insertion sort of the run directories, as [sorted(run_dirs)]. *)
Fixpoint insert_sorted (s : string) (l : list string) : list string :=
match l with
| [] => [s]
| x :: l' => if String.leb s x then s :: l else x :: insert_sorted s l'
end.

Definition sorted (l : list string) : list string :=
foldr insert_sorted [] l.

Definition no_improving_message (oor : list EvaluationTask) : string :=
let message := "No improving successor was found." in
match oor with
| [] => message
| _ =>
    message +:+
    " Note that the following tasks ran out of resources and thus" +:+
    " could not successfully be checked:" +:+
    newline +:+ Py.join newline (sorted (run_dir <$> oor))
end.

(** The loop [for batch in batched(...)] of [_get_improving_successor]. *)
Fixpoint batches_loop (deterministic : bool) (env : Env)
  (batches : list (list Successor)) (oor : list EvaluationTask) (l : log)
  : Env * (exn + option State * string) * log :=
match batches with
| [] => (env, inr (None, no_improving_message oor), l)
| batch :: batches' =>
    let task_ids := seq 0 (length batch) in
    let '(env', tasks) :=
      run env batch (on_task_completed deterministic task_ids) in
    match verdict_loop deterministic tasks oor l with
    | (NextBatch oor', l') =>
        batches_loop deterministic env' batches' oor' l'
    | (Return improving_state message, l') =>
        (env', inr (improving_state, message), l')
    | (Raise e, l') => (env', inl e, l')
    end
end.

Definition _get_improving_successor (successors : list Successor)
  (env : Env) (deterministic : bool) (l : log)
  : Env * (exn + option State * string) * log :=
batches_loop deterministic env (batched successors (batch_size env)) [] l.

(** The loop of [search] that verifies the initial state: [inl e] when the
  loop raises [e], [inr tt] when it runs to its end. *)
Fixpoint verify_initial (deterministic : bool) (tasks : task_stream)
  (l : log) : (exn + unit) * log :=
match tasks with
| Done => (inr (), l)
| Fail e => (inl e, l)
| Yield task rest =>
    match task_status task with
    | DONE_AND_BEHAVIOR_PRESENT =>
        verify_initial deterministic rest
          (logging INFO "Initial has property." l)
    | DONE_AND_BEHAVIOR_NOT_PRESENT =>
        (* [raise ValueError(...)] comes after the critical record *)
        let '(e, l') :=
          logging_critical "Initial state does not have property!" l in
        (inl e, l')
    | OUT_OF_RESOURCES =>
        let l' := logging WARNING
          ("Initial state evaluation ran out of resources! " +:+
           "Cannot verify if it has the property.") l in
        if deterministic
        then (inl (ValueError
                ("Initial state evaluation ran out of resources! " +:+
                 "Cannot verify if it has the evaluated property.")), l')
        else verify_initial deterministic rest l'
    | CRITICAL =>
        (* [if deterministic: raise ValueError(...)] comes after the
           critical record *)
        let '(e, l') :=
          logging_critical
            ("Initial state evaluation failed with a critical error! " +:+
             "Cannot verify if it has the property.") l in
        (inl e, l')
    | CANCELED =>
        verify_initial deterministic rest
          (logging WARNING
             ("Initial state evaluation was canceled. " +:+
              "Cannot verify if it has the property.") l)
    end
end.

(** The composite successor generator, [get_successors] of the result of
  [make_single_successor_generator]; its stream is finite. *)
Variable get_successors : State -> list Successor.

(** How a call of [search] ends. [OutOfFuel] stands for a loop that has not
  ended within the given number of iterations. *)
Inductive outcome :=
| Returned (result : State)
| Raised (e : exn)
| OutOfFuel.

(** The loop [while True] of [search]. The local variables
  [improving_state] and [message] are assigned only by a call of
  [_get_improving_successor] that returns; [None] is an unbound variable,
  and a binding survives from one iteration to the next. When the call
  raises [SubmissionError] or [PollingError], the handler logs a critical
  record, at which the process ends, so that the statements after the
  [try] statement are reached only with both variables assigned. *)
Fixpoint search_loop (fuel : nat) (deterministic : bool) (env : Env)
  (current_state : State) (improving_state : option (option State))
  (message : option string) (l : log) : Env * outcome * log :=
match fuel with
| 0 => (env, OutOfFuel, l)
| S fuel' =>
    let env := start_new_iteration env in
    let successors := get_successors current_state in
    let '(env, v, l) :=
      _get_improving_successor successors env deterministic l in
    let after_try :=
      match v with
      | inr (st, msg) => (inr (Some st, Some msg), l)
      | inl (SubmissionError e) =>
          let '(e', l') :=
            logging_critical
              ("Terminating search because job submission for " +:+
               "successor evaluation failed:" +:+ newline +:+ e) l in
          (inl e', l')
      | inl (PollingError e) =>
          let '(e', l') :=
            logging_critical
              ("Terminating search because querying the status of " +:+
               "a submitted successor evaluation failed:" +:+
               newline +:+ e) l in
          (inl e', l')
      | inl e => (inl e, l)
      end in
    match after_try with
    | (inl e, l) => (env, Raised e, l)
    | (inr (improving_state, message), l) =>
        match message with
        | None => (env, Raised (UnboundLocalError "message"), l)
        | Some m =>
            let l := if bool_decide (m = "") then l
                     else logging INFO m l in
            match improving_state with
            | None =>
                (env, Raised (UnboundLocalError "improving_state"), l)
            | Some (Some s) =>
                if truthy s
                then search_loop fuel' deterministic env s
                       improving_state message l
                else (env, Returned current_state, l)
            | Some None => (env, Returned current_state, l)
            end
        end
    end
end.

(** [search], from the check of the initial state on. Before it,
  [configure_logging(environment.loglevel)] has installed the handler that
  makes every [logging.critical] below end the process, see
  [logging_critical]. *)
Definition search (fuel : nat) (initial_state : State) (env : Env)
  (deterministic : bool) (l : log) : Env * outcome * log :=
let env := start_new_iteration env in
let '(env, tasks) :=
  run env [mkSuccessor initial_state "Initial state"] (fun _ => None) in
match verify_initial deterministic tasks l with
| (inl e, l) => (env, Raised e, l)
| (inr _, l) =>
    let l := logging INFO "Starting search ..." l in
    search_loop fuel deterministic env initial_state None None l
end.

End Driver.

End Search.

(** ** The evaluator runtime shims *)

Module Shim.

(** How the evaluator process can leave a function: [sys.exit(code)], the
    two exceptions [run_evaluator] catches, a missing key of the state
    mapping, or any other exception, identified by its class name. *)
Inductive exn :=
  | SystemExit (code : Z)
  | FileNotFoundError
  | PickleError
  | KeyError
  | OtherError (class : string).

(** Modelled from the spec: the exit codes of [machetli.evaluator]. *)
Definition EXIT_CODE_BEHAVIOR_PRESENT : Z := 30.
Definition EXIT_CODE_BEHAVIOR_NOT_PRESENT : Z := 31.
Definition EXIT_CODE_CRITICAL : Z := 32.
Definition EXIT_CODE_IMPROVING : Z := EXIT_CODE_BEHAVIOR_PRESENT.
Definition EXIT_CODE_NOT_IMPROVING : Z := EXIT_CODE_BEHAVIOR_NOT_PRESENT.

(** The file system: the text of every existing file, by path. *)
Definition FS : Type := gmap string string.

(** [os.path.exists] *)
Definition os_path_exists (fs : FS) (path : string) : bool :=
  bool_decide (is_Some (fs !! path)).

(** [os.remove] *)
Definition os_remove (path : string) (fs : FS) : FS * (exn + unit) :=
  match fs !! path with
  | Some _ => (delete path fs, inr ())
  | None => (fs, inl FileNotFoundError)
  end.

(** [open(path, "w")], [write] and close: the file holds [text]. *)
Definition write_text (path text : string) (fs : FS) : FS :=
  <[path := text]> fs.

(** A function decorated with [contextlib.contextmanager] whose single
    [yield] stands outside any [try] statement: [before_yield] runs up to
    the [yield] and produces the yielded value, [after_yield] is the rest of
    the function. *)
Record contextmanager (A : Type) := mkContextManager {
  before_yield : FS -> FS * (exn + A);
  after_yield : A -> FS -> FS * (exn + unit)
}.
Arguments mkContextManager {A}.
Arguments before_yield {A}.
Arguments after_yield {A}.

(** [with cm as x: body]. When the body raises, the exception is thrown
    into the generator at its [yield]; no handler encloses the [yield], so
    the generator ends there and the exception goes on: the statements after
    the [yield] run only when the body ends without an exception. *)
Definition with_ {A R} (cm : contextmanager A)
    (body : A -> FS -> FS * (exn + R)) (fs : FS) : FS * (exn + R) :=
  match before_yield cm fs with
  | (fs, inl e) => (fs, inl e)
  | (fs, inr x) =>
      match body x fs with
      | (fs, inl e) => (fs, inl e)
      | (fs, inr r) =>
          match after_yield cm x fs with
          | (fs, inl e) => (fs, inl e)
          | (fs, inr _) => (fs, inr r)
          end
      end
  end.

(** [tempfile.NamedTemporaryFile(mode="w+t", suffix=..., delete=False)]
    creates an empty file; [tmp_name] is the name it picks, given the file
    system and the suffix. *)
Definition NamedTemporaryFile (tmp_name : FS -> string -> string)
    (suffix : string) (fs : FS) : FS * string :=
  let name := tmp_name fs suffix in
  (<[name := ""]> fs, name).

End Shim.

(** ** machetli/sas/files.py: the evaluator shim *)

Module SasShim.

Import Shim SasTasks.

Section Shim.

(** The key of the task in the state mapping,
    [machetli.sas.constants.KEY_IN_STATE]. *)
Variable KEY_IN_STATE : string.
Variable tmp_name : FS -> string -> string.

(** [tools.read_state]: the state pickled in a file, or an exception. *)
Variable read_state : FS -> string -> exn + gmap string SASTask.

(** The user's predicate: it may change files, return a truth value or
    leave by an exception or [sys.exit]. *)
Variable evaluate : string -> FS -> FS * (exn + bool).

(** The text that [SASTask.output] prints to a stream. *)
Definition output_text (t : SASTask) : string :=
  foldr (fun line text => line +:+ newline +:+ text) "" (output t).

Definition temporary_file (state : gmap string SASTask)
    : contextmanager string :=
  mkContextManager
    (fun fs =>
       let '(fs, f_name) := NamedTemporaryFile tmp_name ".sas" fs in
       match state !! KEY_IN_STATE with
       | None => (fs, inl KeyError)
       | Some task => (write_text f_name (output_text task) fs, inr f_name)
       end)
    (fun f_name fs => os_remove f_name fs).

Definition _run_evaluator_on_sas_file (sas_filename : string) (fs : FS)
    : FS * (exn + unit) :=
  match evaluate sas_filename fs with
  | (fs, inl e) => (fs, inl e)
  | (fs, inr true) => (fs, inl (SystemExit EXIT_CODE_BEHAVIOR_PRESENT))
  | (fs, inr false) =>
      (fs, inl (SystemExit EXIT_CODE_BEHAVIOR_NOT_PRESENT))
  end.

(** [run_evaluator]; [args] is [sys.argv[1:]]. *)
Definition run_evaluator (args : list string) (fs : FS) (l : log)
    : FS * (exn + unit) * log :=
  match args with
  | [filename] =>
      let tried :=
        match read_state fs filename with
        | inl e => (fs, inl e)
        | inr state =>
            with_ (temporary_file state)
              (fun sas_filename =>
                 _run_evaluator_on_sas_file sas_filename) fs
        end in
      match tried with
      | (fs, inl FileNotFoundError) | (fs, inl PickleError) =>
          (_run_evaluator_on_sas_file filename fs, l)
      | r => (r, l)
      end
  | _ =>
      (fs, inl (SystemExit EXIT_CODE_CRITICAL),
       logging CRITICAL_LOG
         ("Error: evaluator has to be called with either a path to a " +:+
          "pickled state, or a path to a SAS^+ file.") l)
  end.

End Shim.

End SasShim.

(** ** machetli/pddl/files.py: domain discovery and the evaluator shim *)

Module PddlFiles.

Import Shim.

(** [os.path.split] of [posixpath]. *)
Definition os_path_split (p : string) : string * string :=
  let i := Z.to_nat (Py.rfind "/" p + 1) in
  let head := Py.take i p in
  let tail := Py.drop i p in
  if negb (bool_decide (head = "")) && negb (Py.all_char "/" head)
  then (Py.rstrip "/" head, tail)
  else (head, tail).

(** The loop of [splitext] that skips the leading dots of the file name:
    true when some character of [s] is not a dot. *)
Fixpoint has_non_dot (s : string) : bool :=
  match s with
  | EmptyString => false
  | String c s' => if bool_decide (c = "."%char) then has_non_dot s' else true
  end.

(** [os.path.splitext] of [posixpath]. *)
Definition os_path_splitext (p : string) : string * string :=
  let sepIndex := Py.rfind "/" p in
  let dotIndex := Py.rfind "." p in
  if (sepIndex <? dotIndex)%Z
     && has_non_dot
          (Py.take (Z.to_nat (dotIndex - (sepIndex + 1)))
             (Py.drop (Z.to_nat (sepIndex + 1)) p))
  then (Py.take (Z.to_nat dotIndex) p, Py.drop (Z.to_nat dotIndex) p)
  else (p, "").

(** [os.path.join] of [posixpath], for two components. *)
Definition os_path_join (a b : string) : string :=
  if Py.startswith "/" b then b
  else if bool_decide (a = "") || Py.endswith "/" a then a +:+ b
  else a +:+ "/" +:+ b.

(** The list [domain_basenames] of [_find_domain_filename]. *)
Definition domain_basenames (basename : string) : list string :=
  let '(basename_root, ext) := os_path_splitext basename in
  [ "domain.pddl";
    basename_root +:+ "-domain" +:+ ext;
    Py.take 3 basename +:+ "-domain.pddl";
    "domain_" +:+ basename;
    "domain-" +:+ basename ].

(** [for domain_basename in domain_basenames: ...]: the first candidate
    that exists, if any. *)
Fixpoint first_existing (fs : FS) (dirname : string)
    (domain_basenames : list string) : option string :=
  match domain_basenames with
  | [] => None
  | domain_basename :: rest =>
      let domain_filename := os_path_join dirname domain_basename in
      if os_path_exists fs domain_filename then Some domain_filename
      else first_existing fs dirname rest
  end.

(** [_find_domain_filename]: when no candidate exists, it logs and reaches
    the end of its body, returning [None]. *)
Definition _find_domain_filename (fs : FS) (task_filename : string)
    (l : log) : option string * log :=
  let '(dirname, basename) := os_path_split task_filename in
  match first_existing fs dirname (domain_basenames basename) with
  | Some domain_filename => (Some domain_filename, l)
  | None =>
      (None,
       logging CRITICAL_LOG
         "Error: Could not find domain file using automatic naming rules." l)
  end.

Section Shim.

(** The lifted task, its key in the state mapping
    ([machetli.pddl.constants.KEY_IN_STATE]) and the text that
    [_write_domain] and [_write_problem] print for it. *)
Context {PddlTask : Type}.
Variable KEY_IN_STATE : string.
Variable domain_text problem_text : PddlTask -> string.
Variable tmp_name : FS -> string -> string.
Variable read_state : FS -> string -> exn + gmap string PddlTask.

(** The user's predicate; the domain file name is [None] when
    [_find_domain_filename] found none. *)
Variable evaluate : option string -> string -> FS -> FS * (exn + bool).

(** [write_files]; both lookups of the key happen before either file is
    opened only in so far as the first one fails first. *)
Definition write_files (state : gmap string PddlTask)
    (domain_filename problem_filename : string) (fs : FS)
    : FS * (exn + unit) :=
  match state !! KEY_IN_STATE with
  | None => (fs, inl KeyError)
  | Some task =>
      (write_text problem_filename (problem_text task)
         (write_text domain_filename (domain_text task) fs), inr ())
  end.

Definition temporary_files (state : gmap string PddlTask)
    : contextmanager (string * string) :=
  mkContextManager
    (fun fs =>
       let '(fs, domain_file) := NamedTemporaryFile tmp_name ".pddl" fs in
       let '(fs, problem_file) := NamedTemporaryFile tmp_name ".pddl" fs in
       match write_files state domain_file problem_file fs with
       | (fs, inl e) => (fs, inl e)
       | (fs, inr _) => (fs, inr (domain_file, problem_file))
       end)
    (fun names fs =>
       match os_remove names.1 fs with
       | (fs, inl e) => (fs, inl e)
       | (fs, inr _) => os_remove names.2 fs
       end).

Definition _run_evaluator_on_pddl_files (domain_filename : option string)
    (task_filename : string) (fs : FS) : FS * (exn + unit) :=
  match evaluate domain_filename task_filename fs with
  | (fs, inl e) => (fs, inl e)
  | (fs, inr true) => (fs, inl (SystemExit EXIT_CODE_IMPROVING))
  | (fs, inr false) => (fs, inl (SystemExit EXIT_CODE_NOT_IMPROVING))
  end.

(** [run_evaluator]; [filenames] is [sys.argv[1:]]. *)
Definition run_evaluator (filenames : list string) (fs : FS) (l : log)
    : FS * (exn + unit) * log :=
  match filenames with
  | [filename] =>
      let tried :=
        match read_state fs filename with
        | inl e => (fs, inl e)
        | inr state =>
            with_ (temporary_files state)
              (fun names =>
                 _run_evaluator_on_pddl_files (Some names.1) names.2) fs
        end in
      match tried with
      | (fs, inl FileNotFoundError) | (fs, inl PickleError) =>
          let task_filename := filename in
          let '(domain_filename, l) :=
            _find_domain_filename fs task_filename l in
          (_run_evaluator_on_pddl_files domain_filename task_filename fs,
           l)
      | r => (r, l)
      end
  | [domain_filename; task_filename] =>
      (_run_evaluator_on_pddl_files (Some domain_filename) task_filename
         fs, l)
  | _ =>
      (fs, inl (SystemExit EXIT_CODE_CRITICAL),
       logging CRITICAL_LOG
         ("Error: evaluator has to be called with either a path to a " +:+
          "pickled state, a task filename, or a domain filename " +:+
          "followed by a task filename.") l)
  end.

End Shim.

End PddlFiles.

(** ** machetli/pddl/files.py: the writers of the typed declarations *)

Module PddlWriters.

(** Single and double indentation. *)
Definition SIN : string := " ".
Definition DIN : string := "  ".

(** What the writers read of the lifted task: a typed object or parameter
    has a [name] and a [type_name]; a type has a [name], here [tp_name],
    and a [basetype_name], which is [None] for a type without base type; a
    predicate has a [name], here [pred_name], and [arguments]. *)
Record TypedObject := mkTypedObject {
  name : string;
  type_name : string
}.

Record PddlType := mkPddlType {
  tp_name : string;
  basetype_name : option string
}.

Record Predicate := mkPredicate {
  pred_name : string;
  arguments : list TypedObject
}.

(** A dictionary from strings to lists of strings; it keeps its keys in
    the order of their insertion. *)
Definition dict : Type := list (string * list string).

(** [if key not in d: d[key] = [value] else: d[key].append(value)] *)
Fixpoint dict_append (d : dict) (key value : string) : dict :=
  match d with
  | [] => [(key, [value])]
  | (k, values) :: d' =>
      if bool_decide (key = k) then (k, values ++ [value]) :: d'
      else (k, values) :: dict_append d' key value
  end.

(** The dictionary [types_dict] of [_write_domain_types]: the names of the
    types that have a base type, by base type. *)
Definition types_dict (types : list PddlType) : dict :=
  foldl (fun d tp =>
           match basetype_name tp with
           | Some basetype => dict_append d basetype (tp_name tp)
           | None => d
           end) [] types.

(** The dictionary [objects_dict] of [_write_domain_objects], and
    [types_dict] of [_write_domain_predicates] for the arguments of one
    predicate: the names by type name. *)
Definition objects_dict (objects : list TypedObject) : dict :=
  foldl (fun d obj => dict_append d (type_name obj) (name obj)) [] objects.

(** The writers return the strings they pass to [file.write], in order. *)
Definition typed_lines (d : dict) : list string :=
  flat_map (fun '(key, names) =>
              [SIN +:+ DIN] ++ ((fun n => n +:+ " ") <$> names)
              ++ ["- " +:+ key +:+ newline]) d.

Definition _write_domain_types (types : list PddlType) : list string :=
  match types with
  | [] => []
  | _ =>
      [SIN +:+ "(:types" +:+ newline] ++ typed_lines (types_dict types)
      ++ [SIN +:+ ")" +:+ newline]
  end.

Definition _write_domain_objects (objects : list TypedObject)
    : list string :=
  match objects with
  | [] => []
  | _ =>
      [SIN +:+ "(:constants" +:+ newline]
      ++ typed_lines (objects_dict objects)
      ++ [SIN +:+ ")" +:+ newline]
  end.

Definition write_predicate (pred : Predicate) : list string :=
  if bool_decide (pred_name pred = "=") then []
  else
    [SIN +:+ SIN +:+ "(" +:+ pred_name pred]
    ++ flat_map (fun '(obj, names) =>
                   ((fun n => " " +:+ n) <$> names) ++ [" - " +:+ obj])
         (objects_dict (arguments pred))
    ++ [")" +:+ newline].

Definition _write_domain_predicates (predicates : list Predicate)
    : list string :=
  match predicates with
  | [] => []
  | _ =>
      [SIN +:+ "(:predicates" +:+ newline]
      ++ flat_map write_predicate predicates
      ++ [SIN +:+ ")" +:+ newline]
  end.

End PddlWriters.

(** ** Vocabulary of the statements about the driver *)

Module DriverSpec.

Import Search.

Section Vocabulary.

Context {State : Type}.
Implicit Types (t : @EvaluationTask State).
Implicit Types (pre : list (@EvaluationTask State)).

(** The tasks of a batch that ran out of resources, and the warnings the
    eager driver logs for those that failed critically. *)
Definition out_of_resources_of pre : list EvaluationTask :=
  List.filter (fun t => bool_decide (task_status t = OUT_OF_RESOURCES)) pre.

Definition critical_warning t : loglevel * string :=
  (WARNING,
   str_opt (error_msg t) +:+ newline +:+
   "Critical error in " +:+ "'" +:+ run_dir t +:+ "'").

Definition critical_warnings pre : log :=
  critical_warning <$>
  List.filter (fun t => bool_decide (task_status t = CRITICAL)) pre.

(** The note the deterministic driver appends to the error message of a
    task that ended in an error. *)
Definition error_suffix (st : status) : string :=
  match st with
  | OUT_OF_RESOURCES => oor_suffix
  | _ => critical_suffix
  end.

Definition is_error (st : status) : Prop :=
  st = OUT_OF_RESOURCES \/ st = CRITICAL.

(** A list of tasks is guarded when each of its canceled tasks comes
    after a task that ended [BehaviorPresent], [OutOfResources] or
    [Critical]. *)
Definition guarded pre : Prop :=
  forall k t, pre !! k = Some t -> task_status t = CANCELED ->
  exists k' u, k' < k /\ pre !! k' = Some u /\
               task_status u <> DONE_AND_BEHAVIOR_NOT_PRESENT /\
               task_status u <> CANCELED.

(** The tasks a stream yields, whether it then ends or fails. *)
Fixpoint stream_tasks (s : @task_stream State) : list EvaluationTask :=
  match s with
  | Done | Fail _ => []
  | Yield t rest => t :: stream_tasks rest
  end.

(** A stream that ends after yielding only [BehaviorNotPresent] tasks. *)
Definition all_rejected (s : @task_stream State) : Prop :=
  exists tasks, s = stream_of_list tasks /\
    Forall (fun t => task_status t = DONE_AND_BEHAVIOR_NOT_PRESENT) tasks.

(** The environment answers a batch with the predicate [has_property]: the
    stream yields tasks for candidates of the batch that lack the property,
    reported as [BehaviorNotPresent], and then either ends, every candidate
    of the batch having been reported, or yields a task for a candidate that
    has the property, reported as [BehaviorPresent], and goes on in any
    way. *)
Definition evaluates (has_property : State -> bool)
    (batch : list (@Successor State)) (s : @task_stream State) : Prop :=
  exists tasks rest,
    s = prepend tasks rest
    /\ Forall (fun t => successor t ∈ batch
                 /\ task_status t = DONE_AND_BEHAVIOR_NOT_PRESENT
                 /\ has_property (state (successor t)) = false) tasks
    /\ ((rest = Done /\ batch ⊆ successor <$> tasks)
        \/ exists t rest',
             rest = Yield t rest'
             /\ successor t ∈ batch
             /\ task_status t = DONE_AND_BEHAVIOR_PRESENT
             /\ has_property (state (successor t)) = true).

(** One step of the successor generator. *)
Definition successor_step (get_successors : State -> list Successor)
    (a b : State) : Prop :=
  exists succ, succ ∈ get_successors a /\ state succ = b.

End Vocabulary.

(** The errors of the execution environment. *)
Definition environment_error (e : exn) : Prop :=
  exists msg, e = SubmissionError msg \/ e = PollingError msg.

(** The critical record that states the cause of such an error. *)
Definition termination_record (e : exn) : string :=
  match e with
  | SubmissionError msg =>
      "Terminating search because job submission for " +:+
      "successor evaluation failed:" +:+ newline +:+ msg
  | PollingError msg =>
      "Terminating search because querying the status of " +:+
      "a submitted successor evaluation failed:" +:+ newline +:+ msg
  | _ => ""
  end.

(** A scripted execution environment for concrete runs: its state counts
    the calls of [run], and the n-th call yields the n-th stream of the
    script, whatever the batch. States are numbers. *)
Definition scripted (script : list (@task_stream nat)) (calls : nat)
    (batch : list (@Successor nat))
    (on_task_completed : @EvaluationTask nat -> option (list nat))
    : nat * @task_stream nat :=
  (S calls, default Done (script !! calls)).

(** A task for the candidate [st] at position [id] with status [s]. *)
Definition task (id : nat) (st : nat) (msg : string) (s : status)
    : @EvaluationTask nat :=
  mkTask (mkSuccessor st msg) id s ("run_" +:+ msg)
    (match s with
     | OUT_OF_RESOURCES => Some "out of memory"
     | CRITICAL => Some "exit code 1"
     | _ => None
     end).

(** An environment that evaluates the candidates of a batch one after the
    other with the predicate [has_property] and yields a task for each, in
    order; its state counts the calls of [run]. *)
Fixpoint local_tasks {State} (has_property : State -> bool) (i : nat)
    (batch : list (@Successor State)) : list (@EvaluationTask State) :=
  match batch with
  | [] => []
  | succ :: rest =>
      mkTask succ i
        (if has_property (state succ) then DONE_AND_BEHAVIOR_PRESENT
         else DONE_AND_BEHAVIOR_NOT_PRESENT) "" None
      :: local_tasks has_property (S i) rest
  end.

Definition local_run {State} (has_property : State -> bool) (calls : nat)
    (batch : list (@Successor State))
    (on_task_completed : @EvaluationTask State -> option (list nat))
    : nat * @task_stream State :=
  (S calls, stream_of_list (local_tasks has_property 0 batch)).

(** The successor generator that takes one away from a positive number. *)
Definition decrement (st : nat) : list (@Successor nat) :=
  match st with
  | O => []
  | S st' => [mkSuccessor st' "decremented"]
  end.

End DriverSpec.

(** ** Vocabulary of the statements about the reader *)

Module ReaderSpec.

Import SasFiles.



(** A reader that does not look beyond the lines it consumes: with more
    lines after its input it returns the same value and leaves them too. *)
Definition ignores_rest {A} (r : reader A) : Prop :=
  forall lines x rest extra,
    r lines = inr (x, rest) -> r (lines ++ extra) = inr (x, rest ++ extra).

(** A reader whose values all satisfy [P]. *)
Definition ensures {A} (r : reader A) (P : A -> Prop) : Prop :=
  forall lines x rest, r lines = inr (x, rest) -> P x.

(** A line that [body] reads as one item, whatever follows it. *)
Definition reads {A} (body : reader A) (line : string) : Prop :=
  exists x, forall rest, body (line :: rest) = inr (x, rest).

End ReaderSpec.

(** ** Vocabulary of the statements about the renaming *)

Module RenameSpec.

Import SasTasks SasFiles.

(** The letter of the alphabet at position [j], counted from 0. *)
Definition letter (j : nat) : ascii :=
  default "a"%char (Py.chars alphabet !! j).

(** The upper-case letter [j] followed by the variable index [i]. *)
Definition value_name (i j : nat) : string :=
  String (Py.upper (letter j)) (Py.str (Z.of_nat i)).

(** The lower-case letter [i] in parentheses. *)
Definition operator_name (i : nat) : string :=
  "(" +:+ String (letter i) ")".

(** Each variable has as many value names as its domain size says. *)
Definition names_match_ranges (vs : SASVariables) : Prop :=
  Forall2 (fun size names => Z.of_nat (length names) = size)
    (ranges vs) (value_names vs).

(** The task with every value name and operator name rewritten. *)
Definition renamed (t : SASTask) : SASTask :=
  let vs := variables t in
  mkSASTask
    (mkSASVariables (ranges vs) (axiom_layers vs)
       (imap (fun i names => imap (fun j _ => value_name i j) names)
          (value_names vs)))
    (mutexes t) (init t) (goal t)
    (imap (fun i o => set_name o (operator_name i)) (operators t))
    (axioms t) (metric t).

(** A task with one operator and one variable of [n] values. *)
Definition wide_task (n : nat) : SASTask :=
  mkSASTask
    (mkSASVariables [Z.of_nat n] [(-1)%Z] [replicate n "v"]) [] [0%Z]
    [(0, 1)%Z] [mkSASOperator "(op)" [] [(0, 0, 1, [])%Z] 1%Z] [] true.

(** Two operators that differ in their names at most. *)
Definition same_but_name (o o' : SASOperator) : Prop :=
  prevail o = prevail o' /\ pre_post o = pre_post o' /\ cost o = cost o'.

(** What [rename.py] does with the lines of its input file: the lines it
    writes, or the exception of the reader or of the renaming. The output
    file is opened only after the renaming has returned. *)
Definition rename_script (lines : list string) : exn + list string :=
  match _read_task lines with
  | inl e => inl e
  | inr sas_task =>
      match renamed_sas sas_task with
      | inl e => inl e
      | inr new_task => inr (output new_task)
      end
  end.

End RenameSpec.

(** ** Vocabulary of the statements about the domain discovery *)

Module DiscoverySpec.

Import Shim PddlFiles.

(** The file [name] in the directory [dir]. *)
Definition in_dir (dir name : string) : string := dir +:+ "/" +:+ name.

(** The candidates of the code for the task file [dir/base ext], in order;
    the third one starts with the first three characters of the file name
    [base ext]. *)
Definition candidates (dir base ext : string) : list string :=
  [ in_dir dir "domain.pddl";
    in_dir dir (base +:+ "-domain" +:+ ext);
    in_dir dir (Py.take 3 (base +:+ ext) +:+ "-domain.pddl");
    in_dir dir ("domain_" +:+ base +:+ ext);
    in_dir dir ("domain-" +:+ base +:+ ext) ].

(** The candidates as the specification lists them; the third one starts
    with the first three characters of [base]. *)
Definition documented_candidates (dir base ext : string) : list string :=
  [ in_dir dir "domain.pddl";
    in_dir dir (base +:+ "-domain" +:+ ext);
    in_dir dir (Py.take 3 base +:+ "-domain.pddl");
    in_dir dir ("domain_" +:+ base +:+ ext);
    in_dir dir ("domain-" +:+ base +:+ ext) ].

(** A directory name that is not empty and does not end in a slash, a base
    name without slash that has a character other than a dot, and an
    extension made of a dot and characters that are neither dot nor
    slash. *)
Definition plain_task_name (dir base ext : string) : Prop :=
  dir <> "" /\ Py.endswith "/" dir = false /\
  ("/"%char ∉ Py.chars base) /\ has_non_dot base = true /\
  exists e, ext = String "."%char e /\
            ("."%char ∉ Py.chars e) /\ ("/"%char ∉ Py.chars e).

(** A file system that holds exactly the files named. *)
Definition files (names : list string) : FS :=
  list_to_map ((fun name => (name, "")) <$> names).

End DiscoverySpec.

(** ** Vocabulary of the statements about the round trip *)

Module RoundTripSpec.

Import SasTasks.

(** The number a decimal numeral denotes, most significant digit first,
    continuing from [acc]. *)
Fixpoint uint_value (acc : Z) (d : Decimal.uint) : Z :=
  match d with
  | Decimal.Nil => acc
  | Decimal.D0 d' => uint_value (10 * acc + 0) d'
  | Decimal.D1 d' => uint_value (10 * acc + 1) d'
  | Decimal.D2 d' => uint_value (10 * acc + 2) d'
  | Decimal.D3 d' => uint_value (10 * acc + 3) d'
  | Decimal.D4 d' => uint_value (10 * acc + 4) d'
  | Decimal.D5 d' => uint_value (10 * acc + 5) d'
  | Decimal.D6 d' => uint_value (10 * acc + 6) d'
  | Decimal.D7 d' => uint_value (10 * acc + 7) d'
  | Decimal.D8 d' => uint_value (10 * acc + 8) d'
  | Decimal.D9 d' => uint_value (10 * acc + 9) d'
  end.

(** A character of a printed integer: a digit or the minus sign. *)
Definition numeral_char (c : ascii) : Prop :=
  is_Some (Py.digit c) \/ c = "-"%char.

(** The three lists of the variables have one length, and each variable has
    as many value names as its domain size says. *)
Definition variables_consistent (vs : SASVariables) : Prop :=
  length (axiom_layers vs) = length (ranges vs) /\
  Forall2 (fun size names => Z.of_nat (length names) = size)
    (ranges vs) (value_names vs).

(** The operator names are wrapped in parentheses, as the reader builds
    them. *)
Definition names_wrapped (operators : list SASOperator) : Prop :=
  Forall (fun o => exists inner, name o = "(" +:+ inner +:+ ")") operators.

(** The task with its metric flag set. *)
Definition with_metric_on (t : SASTask) : SASTask :=
  mkSASTask (variables t) (mutexes t) (init t) (goal t) (operators t)
    (axioms t) true.

(** A string without a character at which [str.splitlines] cuts. *)
Definition one_line (s : string) : Prop :=
  Forall (fun c => Py.line_boundary c = false) (Py.chars s).

(** No value name and no operator name of the task holds such a
    character. *)
Definition names_on_one_line (t : SASTask) : Prop :=
  Forall (Forall one_line) (value_names (variables t))
  /\ Forall (fun o => one_line (name o)) (operators t).

End RoundTripSpec.

(** ** A concrete evaluator process *)

Module ShimSpec.

Import Shim SasTasks.

(** The temporary names: /tmp/tmp0 with the suffix, or /tmp/tmp1 with the
    suffix when the former exists. *)
Definition tmp_name (fs : FS) (suffix : string) : string :=
  if os_path_exists fs ("/tmp/tmp0" +:+ suffix)
  then "/tmp/tmp1" +:+ suffix
  else "/tmp/tmp0" +:+ suffix.

(** A file system with the pickled state and nothing else. *)
Definition pickled : FS := {[ "state.pickle" := "pickle" ]}.

(** Every file is taken to hold the pickled state [state]. *)
Definition read_state {T} (state : gmap string T) (fs : FS)
    (filename : string) : exn + gmap string T :=
  inr state.

(** An evaluator that touches no file and ends as [answer] says. *)
Definition evaluate_sas (answer : exn + bool) (sas_filename : string)
    (fs : FS) : FS * (exn + bool) :=
  (fs, answer).

Definition evaluate_pddl (answer : exn + bool)
    (domain_filename : option string) (task_filename : string) (fs : FS)
    : FS * (exn + bool) :=
  (fs, answer).

End ShimSpec.

(** ** Vocabulary of the statements about the writers *)

Module WriterSpec.

Import PddlWriters.

(** The elements of a list in the order of their first occurrence. *)
Fixpoint first_occurrences (l : list string) : list string :=
  match l with
  | [] => []
  | x :: l' => x :: filter (fun y => y <> x) (first_occurrences l')
  end.

(** The values under a key of a dictionary. *)
Fixpoint dict_get (d : dict) (key : string) : list string :=
  match d with
  | [] => []
  | (k, values) :: d' =>
      if bool_decide (key = k) then values else dict_get d' key
  end.

(** Key and value pairs grouped by key: the keys in the order of their
    first occurrence, each with its values in their order. *)
Definition grouped (pairs : list (string * string)) : dict :=
  (fun key => (key, (filter (fun p => p.1 = key) pairs).*2))
  <$> first_occurrences pairs.*1.

(** The declaration of a typed object or parameter. *)
Definition declaration (obj : TypedObject) : string * string :=
  (type_name obj, name obj).

(** The declaration of a type under its base type, if it has one. *)
Definition base_declaration (tp : PddlType) : option (string * string) :=
  (fun basetype => (basetype, tp_name tp)) <$> basetype_name tp.


End WriterSpec.

(** ** The minimal task of the specification *)

Module Fixtures.

Import SasTasks.

(** One variable with the values a and b, no mutex group, one operator and
    no axiom; [m] is the metric flag. *)
Definition minimal_task (m : bool) : SASTask :=
  mkSASTask (mkSASVariables [2%Z] [(-1)%Z] [["a"; "b"]]) [] [0%Z]
    [(0, 1)%Z] [mkSASOperator "(op)" [] [(0, 0, 1, [])%Z] 1%Z] [] m.

(** The file of the minimal task with metric [m]. *)
Definition minimal_file (m : string) : list string :=
  ["begin_metric"; m; "end_metric"; "1"; "begin_variable"; "var0"; "-1";
   "2"; "a"; "b"; "end_variable"; "0"; "begin_state"; "0"; "end_state";
   "begin_goal"; "1"; "0 1"; "end_goal"; "1"; "begin_operator"; "op"; "0";
   "1"; "0 0 0 1"; "1"; "end_operator"; "0"].


End Fixtures.

(** * Properties *)

(** ** The evaluator driver *)

Section DriverProperties.

Import Search DriverSpec.
Context {State Env : Type}.
Variable run : Env -> list (@Successor State) ->
               (@EvaluationTask State -> option (list nat)) ->
               Env * @task_stream State.
Implicit Types (t u : @EvaluationTask State).
Implicit Types (pre tasks oor : list (@EvaluationTask State)).
Implicit Types (s : @task_stream State) (l : log) (env : Env).

Lemma stream_of_list_prepend tasks : stream_of_list tasks = prepend tasks Done.
Proof. induction tasks as [|t tasks IH]; simpl; congruence. Qed.

(** In eager mode the loop walks over every task that is not
    [BehaviorPresent], remembering the ones out of resources and logging
    the critical ones. *)
Lemma eager_loop_skips pre s oor l :
  Forall (fun t => task_status t <> DONE_AND_BEHAVIOR_PRESENT) pre ->
  verdict_loop false (prepend pre s) oor l =
  verdict_loop false s (oor ++ out_of_resources_of pre)
    (l ++ critical_warnings pre).
Proof.
  intros Hpre. revert oor l.
  induction Hpre as [|t pre Ht _ IH]; intros oor l; simpl.
  - by rewrite !app_nil_r.
  - unfold out_of_resources_of, critical_warnings in *. simpl.
    destruct (task_status t) eqn:E; simpl; rewrite ?IH; try done.
    + by rewrite <- app_assoc.
    + unfold logging. by rewrite <- app_assoc.
Qed.

(** The batch loop hands on what the loop over the tasks of the first
    batch returns. *)
Lemma batches_loop_return det env env' batch batches s oor l st msg l' :
  run env batch (on_task_completed det (seq 0 (length batch)))
    = (env', s) ->
  verdict_loop det s oor l = (Return st msg, l') ->
  batches_loop Env run det env (batch :: batches) oor l
    = (env', inr (st, msg), l').
Proof. intros Hrun Hloop. simpl. by rewrite Hrun, Hloop. Qed.

(** C3. In eager mode the first task of a batch reported with status
    [BehaviorPresent] is returned as the improving successor, with its state
    and its change message; on that task the completion callback asks to
    cancel every task id of the batch; peers before it that ran out of
    resources or failed critically do not stop the loop: the former are
    added to [tasks_out_of_resources], the latter are logged. *)
Theorem eager_first_present_wins env env' batch batches pre t rest oor l :
  run env batch (on_task_completed false (seq 0 (length batch)))
    = (env', prepend pre (Yield t rest)) ->
  task_status t = DONE_AND_BEHAVIOR_PRESENT ->
  Forall (fun u => task_status u <> DONE_AND_BEHAVIOR_PRESENT) pre ->
  batches_loop Env run false env (batch :: batches) oor l
    = (env', inr (Some (state (successor t)), change_msg (successor t)),
       l ++ critical_warnings pre)
  /\ on_task_completed false (seq 0 (length batch)) t
     = Some (seq 0 (length batch))
  /\ verdict_loop false (stream_of_list pre) oor l
     = (NextBatch (oor ++ out_of_resources_of pre),
        l ++ critical_warnings pre).
Proof.
  intros Hrun Ht Hpre. split; [|split].
  - eapply batches_loop_return; [exact Hrun|].
    rewrite eager_loop_skips by done. simpl. by rewrite Ht.
  - unfold on_task_completed. by rewrite Ht.
  - rewrite stream_of_list_prepend. by rewrite eager_loop_skips.
Qed.

(** *** Deterministic mode *)

(** In deterministic mode the loop walks over the tasks that are
    [BehaviorNotPresent] and changes nothing. *)
Lemma deterministic_loop_skips pre s oor l :
  Forall (fun t => task_status t = DONE_AND_BEHAVIOR_NOT_PRESENT) pre ->
  verdict_loop true (prepend pre s) oor l = verdict_loop true s oor l.
Proof.
  induction 1 as [|t pre Ht _ IH]; simpl; [done|]. by rewrite Ht.
Qed.

(** A list of tasks none of which is [BehaviorPresent] or [Canceled]
    consists of tasks that are [BehaviorNotPresent] up to its first error,
    if it has one. *)
Lemma first_error pre :
  Forall (fun t => task_status t <> DONE_AND_BEHAVIOR_PRESENT /\
                   task_status t <> CANCELED) pre ->
  Forall (fun t => task_status t = DONE_AND_BEHAVIOR_NOT_PRESENT) pre \/
  exists pre1 t pre2,
    pre = pre1 ++ t :: pre2 /\
    Forall (fun t => task_status t = DONE_AND_BEHAVIOR_NOT_PRESENT) pre1 /\
    is_error (task_status t).
Proof.
  induction 1 as [|t pre [Hp Hc] _ IH]; [by left|].
  destruct (task_status t) eqn:E; try done.
  - destruct IH as [IH|(pre1 & u & pre2 & -> & H1 & H2)].
    + left. by constructor.
    + right. exists (t :: pre1), u, pre2. split; [done|]. split; [|done].
      by constructor.
  - right. exists [], t, pre. repeat split; [constructor|]. rewrite E. by left.
  - right. exists [], t, pre. repeat split; [constructor|]. rewrite E. by right.
Qed.

Lemma prepend_app pre1 pre2 s :
  prepend (pre1 ++ pre2) s = prepend pre1 (prepend pre2 s).
Proof. induction pre1 as [|t pre1 IH]; simpl; congruence. Qed.

Lemma deterministic_loop_error t rest oor l m :
  is_error (task_status t) ->
  error_msg t = Some m ->
  verdict_loop true (Yield t rest) oor l
  = (Return None (m +:+ error_suffix (task_status t)), l).
Proof.
  intros [E|E] Hm; simpl; rewrite E; simpl;
    unfold error_msg_plus; by rewrite Hm.
Qed.

(** What the deterministic loop returns as improving successor is a task
    of the stream that comes before every task that is not
    [BehaviorNotPresent]. *)
Lemma deterministic_loop_accepts pre t rest oor l st msg l' :
  task_status t <> DONE_AND_BEHAVIOR_NOT_PRESENT ->
  task_status t <> DONE_AND_BEHAVIOR_PRESENT ->
  verdict_loop true (prepend pre (Yield t rest)) oor l
    = (Return (Some st) msg, l') ->
  exists u, u ∈ pre /\ task_status u = DONE_AND_BEHAVIOR_PRESENT /\
            st = state (successor u) /\ msg = change_msg (successor u).
Proof.
  intros Hn Hp. induction pre as [|u pre IH]; simpl.
  - destruct (task_status t) eqn:E; try done; unfold error_msg_plus;
      destruct (error_msg t); intros; simplify_eq.
  - destruct (task_status u) eqn:E.
    + intros; simplify_eq. exists u. split; [left|done].
    + intros H. destruct (IH H) as (v & Hv & ?). exists v.
      split; [by right|done].
    + unfold error_msg_plus. destruct (error_msg u); intros; simplify_eq.
    + unfold error_msg_plus. destruct (error_msg u); intros; simplify_eq.
    + intros; simplify_eq.
Qed.

(** C2, as amended. In deterministic mode, let the environment yield the
    tasks of a batch in the order of their successor ids, and let the task
    [ti] have ended [OutOfResources] or [Critical]. Then a task accepted as
    improving successor is a [BehaviorPresent] task with a smaller successor
    id than [ti], never one with a larger id. When moreover no task before
    [ti] is [BehaviorPresent] or [Canceled] and the tasks that ended in an
    error carry an error message, the function returns no improving state,
    with the error message of the first such task followed by the note on
    the option 'deterministic'. *)
Theorem deterministic_error_blocks_later_present
    env env' batch batches pre ti rest oor l :
  run env batch (on_task_completed true (seq 0 (length batch)))
    = (env', prepend pre (Yield ti rest)) ->
  (forall k t, (pre ++ [ti]) !! k = Some t -> successor_id t = k) ->
  is_error (task_status ti) ->
  (forall st msg,
     (batches_loop Env run true env (batch :: batches) oor l).1.2
       = inr (Some st, msg) ->
     exists u, u ∈ pre /\ successor_id u < successor_id ti /\
               task_status u = DONE_AND_BEHAVIOR_PRESENT /\
               st = state (successor u) /\ msg = change_msg (successor u))
  /\ (Forall (fun t => task_status t <> DONE_AND_BEHAVIOR_PRESENT /\
                       task_status t <> CANCELED) pre ->
      Forall (fun t => is_error (task_status t) -> is_Some (error_msg t))
        (pre ++ [ti]) ->
      exists t m, t ∈ pre ++ [ti] /\ is_error (task_status t) /\
                  error_msg t = Some m /\
        batches_loop Env run true env (batch :: batches) oor l
        = (env', inr (None, m +:+ error_suffix (task_status t)), l)).
Proof.
  intros Hrun Hids Hti. split.
  - intros st msg. simpl. rewrite Hrun.
    destruct (verdict_loop true (prepend pre (Yield ti rest)) oor l)
      as [[st' msg'|e|oor'] l'] eqn:Hloop; simpl.
    + intros; simplify_eq.
      destruct (deterministic_loop_accepts pre ti rest oor l st msg l')
        as (u & Hu & Hst & ? & ?); [destruct Hti as [->| ->]; done..|done|].
      exists u. repeat split; try done.
      apply list_elem_of_lookup in Hu as [k Hk].
      rewrite (Hids k u) by (by apply lookup_app_l_Some).
      rewrite (Hids (length pre) ti)
        by (by rewrite lookup_app_r, Nat.sub_diag).
      by apply lookup_lt_Some in Hk.
    + done.
    + (* the loop has gone to the next batch: impossible *)
      exfalso. clear Hrun Hids. revert oor l Hloop.
      induction pre as [|u pre IH]; intros oor l; simpl.
      * destruct Hti as [-> | ->]; unfold error_msg_plus;
          destruct (error_msg ti); intros; simplify_eq.
      * destruct (task_status u); unfold error_msg_plus;
          try destruct (error_msg u); intros; simplify_eq; eauto.
  - intros Hpre Hmsg.
    destruct (first_error pre Hpre) as [Hall|(pre1 & t & pre2 & -> & H1 & H2)].
    + apply Forall_app in Hmsg as [_ Hmsg].
      rewrite Forall_singleton in Hmsg. destruct (Hmsg Hti) as [m Hm].
      exists ti, m. repeat split; try done.
      { apply elem_of_app. right. by left. }
      eapply batches_loop_return; [exact Hrun|].
      rewrite deterministic_loop_skips by done.
      by apply deterministic_loop_error.
    + assert (is_Some (error_msg t)) as [m Hm].
      { rewrite Forall_forall in Hmsg. apply Hmsg; [|done].
        rewrite <- app_assoc. apply elem_of_app. right. by left. }
      exists t, m. repeat split; try done.
      { rewrite <- app_assoc. apply elem_of_app. right. by left. }
      eapply batches_loop_return; [exact Hrun|].
      rewrite prepend_app. rewrite deterministic_loop_skips by done.
      simpl prepend. by apply deterministic_loop_error.
Qed.

(** In deterministic mode the callback asks to cancel only ids larger than
    that of a completed task that is not [BehaviorNotPresent]. *)
Lemma deterministic_cancel_larger task_ids u ids k :
  on_task_completed true task_ids u = Some ids ->
  k ∈ ids ->
  successor_id u < k /\ task_status u <> DONE_AND_BEHAVIOR_NOT_PRESENT.
Proof.
  unfold on_task_completed. simpl. case_bool_decide as Hst; simpl; [done|].
  intros [= <-] Hk. apply list_elem_of_In, filter_In in Hk as [_ Hk].
  apply Nat.ltb_lt in Hk. done.
Qed.

Lemma guarded_no_assertion tasks oor l :
  guarded tasks ->
  (verdict_loop true (stream_of_list tasks) oor l).1 <> Raise AssertionError.
Proof.
  induction tasks as [|t tasks IH]; intros Hg; simpl; [done|].
  destruct (task_status t) eqn:E; simpl; try done.
  - apply IH. intros k u Hk Hu.
    destruct (Hg (S k) u Hk Hu) as (k' & v & Hlt & Hv & Hn & Hc).
    destruct k' as [|k']; simpl in Hv.
    + simplify_eq; congruence.
    + exists k', v. repeat split; try done. lia.
  - unfold error_msg_plus. by destruct (error_msg t).
  - unfold error_msg_plus. by destruct (error_msg t).
  - destruct (Hg 0 t eq_refl E) as (k' & _ & Hlt & _). lia.
Qed.

Lemma ordered_cancellations_guarded tasks task_ids :
  (forall k t, tasks !! k = Some t -> successor_id t = k) ->
  (forall t, t ∈ tasks -> task_status t = CANCELED ->
     exists u ids, u ∈ tasks /\
       on_task_completed true task_ids u = Some ids /\
       successor_id t ∈ ids) ->
  guarded tasks.
Proof.
  intros Hids Hcancel k. induction (lt_wf k) as [k _ IH].
  intros t Hk Ht.
  destruct (Hcancel t) as (u & ids & Hu & Hcb & Hin); [|done|].
  { apply list_elem_of_lookup. eauto. }
  destruct (deterministic_cancel_larger _ _ _ _ Hcb Hin) as [Hlt Hn].
  apply list_elem_of_lookup in Hu as [ku Hku].
  rewrite (Hids _ _ Hk), (Hids _ _ Hku) in Hlt.
  destruct (decide (task_status u = CANCELED)) as [Hc|Hc].
  - destruct (IH ku Hlt u Hku Hc) as (k' & v & ? & ? & ? & ?).
    exists k', v. repeat split; try done. lia.
  - exists ku, u. done.
Qed.

(** C10. In deterministic mode, when the environment yields the tasks of
    a batch in the order of their successor ids and a task is [Canceled]
    only if its id is among those the completion callback returned for some
    task of the batch, the loop over the tasks never fails the assertion of
    its [Canceled] branch: every canceled task comes after a task that is
    [BehaviorPresent], [OutOfResources] or [Critical], where the loop
    returns. *)
Theorem canceled_branch_unreachable tasks task_ids oor l :
  (forall k t, tasks !! k = Some t -> successor_id t = k) ->
  (forall t, t ∈ tasks -> task_status t = CANCELED ->
     exists u ids, u ∈ tasks /\
       on_task_completed true task_ids u = Some ids /\
       successor_id t ∈ ids) ->
  (verdict_loop true (stream_of_list tasks) oor l).1 <> Raise AssertionError
  /\ forall t, t ∈ tasks -> task_status t = CANCELED ->
     exists u, u ∈ tasks /\ successor_id u < successor_id t /\
       (task_status u = DONE_AND_BEHAVIOR_PRESENT \/
        is_error (task_status u)).
Proof.
  intros Hids Hcancel.
  pose proof (ordered_cancellations_guarded _ _ Hids Hcancel) as Hg.
  split; [by apply guarded_no_assertion|].
  intros t Ht Hc. apply list_elem_of_lookup in Ht as [k Hk].
  destruct (Hg k t Hk Hc) as (k' & u & Hlt & Hu & Hn & Hnc).
  exists u. split; [apply list_elem_of_lookup; eauto|].
  rewrite (Hids _ _ Hk), (Hids _ _ Hu). split; [done|].
  unfold is_error. destruct (task_status u); auto; done.
Qed.

End DriverProperties.

(** ** The search engine *)

Section SearchProperties.

Import Search DriverSpec.
Context {State Env : Type}.
Variable truthy : State -> bool.
Variable batch_size : Env -> nat.
Variable start_new_iteration : Env -> Env.
Variable run : Env -> list (@Successor State) ->
               (@EvaluationTask State -> option (list nat)) ->
               Env * @task_stream State.
Variable get_successors : State -> list (@Successor State).

Local Abbreviation search := (search truthy Env batch_size start_new_iteration
                            run get_successors).
Local Abbreviation search_loop := (search_loop truthy Env batch_size
                                 start_new_iteration run get_successors).


(** C9, as amended. Whenever the evaluation of a batch of successors raises
    [SubmissionError] or [PollingError], the search logs the cause at level
    critical and ends there: the record ends the process, by
    [SystemExit] with the text aborting. The search returns no state, runs
    no further iteration, whatever the number of iterations allowed, and
    fails in no other way. *)
Theorem environment_error_ends_search
    fuel deterministic env current improving_state message l env' e l' :
  _get_improving_successor Env batch_size run (get_successors current)
    (start_new_iteration env) deterministic l = (env', inl e, l') ->
  environment_error e ->
  search_loop (S fuel) deterministic env current improving_state message l
  = (env', Raised (SystemExit "aborting"),
     l' ++ [(CRITICAL_LOG, termination_record e)]).
Proof.
  intros Hcall (msg & [->| ->]); simpl; by rewrite Hcall.
Qed.

End SearchProperties.

(** ** Concrete runs of the driver and of the search *)

Section Runs.

Import Search DriverSpec.

Local Abbreviation PRESENT := DONE_AND_BEHAVIOR_PRESENT.
Local Abbreviation NOT_PRESENT := DONE_AND_BEHAVIOR_NOT_PRESENT.

(** C3 at a batch of four: a task out of resources and a critical one
    precede the first [BehaviorPresent]. *)
Lemma eager_first_present_wins_witness :
  let pre := [task 0 10 "a" OUT_OF_RESOURCES; task 1 11 "b" CRITICAL] in
  let t := task 2 12 "c" PRESENT in
  let rest := Yield (task 3 13 "d" PRESENT) Done in
  let run := scripted [prepend pre (Yield t rest)] in
  let batch := [mkSuccessor 10 "a"; mkSuccessor 11 "b";
                mkSuccessor 12 "c"; mkSuccessor 13 "d"] in
  (run 0 batch (on_task_completed false (seq 0 (length batch)))
     = (1, prepend pre (Yield t rest))
   /\ task_status t = PRESENT
   /\ Forall (fun u => task_status u <> PRESENT) pre)
  /\ batches_loop nat run false 0 [batch] [] []
     = (1, inr (Some 12, "c"), critical_warnings pre)
  /\ on_task_completed false [0; 1; 2; 3] t = Some [0; 1; 2; 3]
  /\ verdict_loop false (stream_of_list pre) [] []
     = (NextBatch (out_of_resources_of pre), critical_warnings pre).
Proof.
  intros pre t rest run batch.
  assert (Forall (fun u => task_status u <> PRESENT) pre) as Hpre
    by (repeat constructor; discriminate).
  split; [repeat split; exact Hpre|].
  exact (eager_first_present_wins run 0 1 batch [] pre t rest [] []
           eq_refl eq_refl Hpre).
Defined.

(** C2 as stated fails on the batch Present, OutOfResources, Present: the
    task with id 1 ran out of resources, and yet the deterministic driver
    returns an improving state, that of task 0, not the verdict of no
    improving state. *)
Lemma deterministic_error_after_present_counterexample :
  let tasks := [task 0 10 "a" PRESENT; task 1 11 "b" OUT_OF_RESOURCES;
                task 2 12 "c" PRESENT] in
  let run := scripted [stream_of_list tasks] in
  let batch := [mkSuccessor 10 "a"; mkSuccessor 11 "b";
                mkSuccessor 12 "c"] in
  let result := _get_improving_successor nat (fun _ => 3) run batch 0 true []
  in
  (exists t, t ∈ tasks /\ successor_id t = 1
             /\ task_status t = OUT_OF_RESOURCES)
  /\ result.1.2 = inr (Some 10, "a")
  /\ ~ (exists message, result.1.2 = inr (None, message)).
Proof.
  intros tasks run batch result. split; [|split].
  - exists (task 1 11 "b" OUT_OF_RESOURCES).
    split; [|done]. right. left.
  - reflexivity.
  - intros [message H]. vm_compute in H. discriminate.
Qed.

(** C2, as amended, at the batch OutOfResources, NotPresent, Present. *)
Lemma deterministic_error_blocks_later_present_witness :
  let ti := task 0 10 "a" OUT_OF_RESOURCES in
  let rest := Yield (task 1 11 "b" NOT_PRESENT)
                (Yield (task 2 12 "c" PRESENT) Done) in
  let run := scripted [Yield ti rest] in
  let batch := [mkSuccessor 10 "a"; mkSuccessor 11 "b";
                mkSuccessor 12 "c"] in
  (run 0 batch (on_task_completed true (seq 0 (length batch)))
     = (1, prepend [] (Yield ti rest))
   /\ (forall k t, ([] ++ [ti]) !! k = Some t -> successor_id t = k)
   /\ is_error (task_status ti))
  /\ batches_loop nat run true 0 [batch] [] []
     = (1, inr (None, "out of memory" +:+ oor_suffix), []).
Proof.
  intros ti rest run batch.
  assert (forall k t, ([] ++ [ti]) !! k = Some t -> successor_id t = k)
    as Hids.
  { intros [|k] t H; simpl in H; [|destruct k; discriminate].
    injection H as <-. reflexivity. }
  assert (is_error (task_status ti)) as Hti by (left; reflexivity).
  split; [repeat split; assumption|].
  destruct (deterministic_error_blocks_later_present run 0 1 batch [] []
              ti rest [] [] eq_refl Hids Hti) as [_ H].
  destruct H as (t & m & Ht & Herr & Hm & ->).
  - constructor.
  - repeat constructor. intros _. eexists. reflexivity.
  - apply elem_of_app in Ht as [Ht|Ht]; [inversion Ht|].
    apply list_elem_of_singleton in Ht. subst t.
    injection Hm as <-. reflexivity.
Defined.

(** C10 at the batch NotPresent, OutOfResources, Canceled. *)
Lemma canceled_branch_unreachable_witness :
  let tasks := [task 0 10 "a" NOT_PRESENT; task 1 11 "b" OUT_OF_RESOURCES;
                task 2 12 "c" CANCELED] in
  ((forall k t, tasks !! k = Some t -> successor_id t = k)
   /\ (forall t, t ∈ tasks -> task_status t = CANCELED ->
         exists u ids, u ∈ tasks /\
           on_task_completed true [0; 1; 2] u = Some ids /\
           successor_id t ∈ ids))
  /\ (verdict_loop true (stream_of_list tasks) [] []).1
     <> Raise AssertionError.
Proof.
  intros tasks.
  assert (forall k t, tasks !! k = Some t -> successor_id t = k) as Hids.
  { intros [|[|[|k]]] t H; simpl in H; try discriminate;
      injection H as <-; reflexivity. }
  assert (forall t, t ∈ tasks -> task_status t = CANCELED ->
            exists u ids, u ∈ tasks /\
              on_task_completed true [0; 1; 2] u = Some ids /\
              successor_id t ∈ ids) as Hcancel.
  { intros t Ht Hc. exists (task 1 11 "b" OUT_OF_RESOURCES), [2].
    split; [right; left|]. split; [reflexivity|].
    apply list_elem_of_lookup in Ht as [k Hk].
    rewrite (Hids k t Hk).
    destruct k as [|[|[|k]]]; simpl in Hk; try discriminate;
      injection Hk as <-; try discriminate Hc. left. }
  split; [split; assumption|].
  exact (proj1 (canceled_branch_unreachable tasks [0; 1; 2] [] []
                  Hids Hcancel)).
Defined.



(** C9 as stated fails when the first evaluation of successors is refused:
    the search logs the cause and ends, but it does not return: the
    critical record ends the process with [SystemExit]. *)
Lemma environment_error_exits_counterexample :
  let initial := Yield (task 0 7 "Initial state" PRESENT) Done in
  let successors (st : nat) := [mkSuccessor (st - 1) "removed an operator"]
  in
  let result :=
    search (fun _ => true) nat (fun _ => 1) id
      (scripted [initial; Fail (SubmissionError "refused")]) successors
      5 7 0 false [] in
  result
  = (2, Raised (SystemExit "aborting"),
     [(INFO, "Initial has property."); (INFO, "Starting search ...");
      (CRITICAL_LOG,
       "Terminating search because job submission for " +:+
       "successor evaluation failed:" +:+ newline +:+ "refused")])
  /\ ~ (exists state, result.1.2 = Returned state).
Proof.
  intros initial successors result. split; [reflexivity|].
  intros [state H]. vm_compute in H. discriminate.
Qed.

(** C9, as amended, at a polling that fails in the second iteration: the
    search has moved from 7 to 6 and ends at the critical record. *)
Lemma environment_error_ends_search_witness :
  let successors (st : nat) := [mkSuccessor (st - 1) "removed an operator"]
  in
  let run :=
    scripted [Yield (task 0 6 "removed an operator" PRESENT) Done;
              Fail (PollingError "lost")] in
  (_get_improving_successor nat (fun _ => 1) run (successors 6) (id 1)
     false [(INFO, "removed an operator")]
   = (2, inl (PollingError "lost"), [(INFO, "removed an operator")])
   /\ environment_error (PollingError "lost"))
  /\ search_loop (fun _ => true) nat (fun _ => 1) id run successors
       4 false 1 6 (Some (Some 6)) (Some "removed an operator")
       [(INFO, "removed an operator")]
     = (2, Raised (SystemExit "aborting"),
        [(INFO, "removed an operator");
         (CRITICAL_LOG,
          "Terminating search because querying the status of " +:+
          "a submitted successor evaluation failed:" +:+ newline +:+
          "lost")]).
Proof.
  intros successors run.
  assert (environment_error (PollingError "lost")) as He
    by (exists "lost"; by right).
  split; [split; [reflexivity|exact He]|].
  exact (environment_error_ends_search (fun _ => true) (fun _ => 1) id run
           successors 3 false 1 6 (Some (Some 6))
           (Some "removed an operator") [(INFO, "removed an operator")]
           2 (PollingError "lost") [(INFO, "removed an operator")]
           eq_refl He).
Defined.

End Runs.

(** ** The reader of grounded tasks *)

Section ReaderProperties.

Import SasTasks SasFiles ReaderSpec Fixtures.

Lemma bind_inr {A B} (m : reader A) (f : A -> reader B) lines b rest :
  (m ≫= f) lines = inr (b, rest) ->
  exists a lines', m lines = inr (a, lines') /\ f a lines' = inr (b, rest).
Proof.
  unfold mbind, reader_bind. destruct (m lines) as [e|[a lines']]; [done|].
  eauto.
Qed.


(** The lines up to and including the first begin_metric are skipped. *)
Lemma skip_to_begin_metric_app pre lines :
  "begin_metric" ∉ pre ->
  skip_to_begin_metric (pre ++ "begin_metric" :: lines) = inr ((), lines).
Proof.
  induction pre as [|x pre IH]; intros Hpre; simpl.
  - done.
  - apply not_elem_of_cons in Hpre as [Hx Hpre].
    case_bool_decide; [congruence|]. by apply IH.
Qed.


(** The metric flag the reader returns is true whenever the metric line is
    not empty: [bool] of a string does not look at its digits. *)
Lemma read_metric_line pre m rest t :
  "begin_metric" ∉ pre ->
  _read_task (pre ++ "begin_metric" :: m :: rest) = inr t ->
  metric t = negb (bool_decide (m = "")).
Proof.
  intros Hpre. unfold _read_task.
  destruct (_read_task_lines _) as [e|[t' rest']] eqn:H; [done|].
  intros [= ->]. unfold _read_task_lines in H.
  repeat (apply bind_inr in H as (? & ? & ? & H)).
  rewrite skip_to_begin_metric_app in * by done.
  simplify_eq/=. unfold mret, reader_ret, raise in H.
  destruct (validate _); [|discriminate H]. by injection H as <- _.
Qed.

(** Whatever task is written, the task read back has its metric flag set. *)
Lemma read_output_metric T t :
  _read_task (output T) = inr t -> metric t = true.
Proof.
  intros H. apply (read_metric_line [] _ _ t) in H; [|apply not_elem_of_nil].
  rewrite H. by destruct (metric T).
Qed.

(** C1 fails on the code: the minimal task with the metric flag off is
    written with the metric line 0 and read back with the flag on, while
    with the flag on it is read back as it was. *)
Theorem metric_flag_lost_on_round_trip :
  output (minimal_task false) = minimal_file "0"
  /\ _read_task (output (minimal_task false)) = inr (minimal_task true)
  /\ _read_task (output (minimal_task false)) <> inr (minimal_task false)
  /\ _read_task (output (minimal_task true)) = inr (minimal_task true).
Proof.
  repeat split; try reflexivity. intros H. vm_compute in H. discriminate.
Qed.

(** *** Failures of the reader *)















Lemma bind_fails {A B} (m : reader A) (f : A -> reader B) lines e :
  m lines = inl e -> (m ≫= f) lines = inl e.
Proof. intros H. unfold mbind, reader_bind. by rewrite H. Qed.

Lemma bind_returns {A B} (m : reader A) (f : A -> reader B) lines a lines' :
  m lines = inr (a, lines') -> (m ≫= f) lines = f a lines'.
Proof. intros H. unfold mbind, reader_bind. by rewrite H. Qed.


Lemma expect_match delimiter rest :
  expect delimiter (delimiter :: rest) = inr ((), rest).
Proof. unfold expect, mbind, reader_bind. simpl. by case_bool_decide. Qed.











End ReaderProperties.

(** ** The renaming of a grounded task *)

Section RenameProperties.

Import SasTasks SasFiles RenameSpec Fixtures.

Lemma alphabet_at_lt j : j < 26 -> alphabet_at j = inr (letter j).
Proof.
  intros Hj. do 26 (destruct j as [|j]; [reflexivity|]). lia.
Qed.

Lemma alphabet_at_ge j : 26 <= j -> alphabet_at j = inl IndexError.
Proof.
  intros Hj. unfold alphabet_at. by rewrite lookup_ge_None_2.
Qed.

Lemma insert_middle {A} (l1 l2 : list A) x y :
  <[length l1 := y]> (l1 ++ x :: l2) = (l1 ++ [y]) ++ l2.
Proof.
  rewrite insert_app_r_alt by lia. rewrite Nat.sub_diag. simpl.
  by rewrite <- app_assoc.
Qed.

(** The inner loop, from position [length seen] on. *)
Lemma rename_values_ok i todo : forall seen vn,
  vn !! i = Some (seen ++ todo) ->
  length seen + length todo <= 26 ->
  rename_values i (seq (length seen) (length todo)) vn
  = inr (<[i := seen ++
                 imap (fun j _ => value_name i (length seen + j)) todo]> vn).
Proof.
  induction todo as [|x todo IH]; intros seen vn Hvn Hle; simpl in *.
  - rewrite app_nil_r in *. by rewrite list_insert_id.
  - rewrite alphabet_at_lt by lia. rewrite Hvn.
    rewrite bool_decide_eq_true_2 by (rewrite length_app; simpl; lia).
    assert (i < length vn) as Hi by (by eapply lookup_lt_Some).
    rewrite insert_middle.
    replace (S (length seen))
      with (length (seen ++ [value_name i (length seen)]))
      by (rewrite length_app; simpl; lia).
    rewrite IH.
    + rewrite list_insert_insert_eq. do 2 f_equal.
      rewrite <- app_assoc. simpl. f_equal.
      rewrite Nat.add_0_r. f_equal. apply imap_ext. intros j y _. simpl.
      rewrite length_app. simpl. f_equal. lia.
    + by rewrite list_lookup_insert_eq.
    + rewrite length_app. simpl in *. lia.
Qed.

(** The outer loop, from variable [length seen] on. *)
Lemma rename_variables_ok ranges : forall seen todo,
  Forall2 (fun size names => Z.of_nat (length names) = size) ranges todo ->
  Forall (fun size => (size <= 26)%Z) ranges ->
  rename_variables (length seen) ranges (seen ++ todo)
  = inr (seen ++
         imap (fun i names =>
                 imap (fun j _ => value_name (length seen + i) j) names)
           todo).
Proof.
  induction ranges as [|size ranges IH]; intros seen todo Hnames Hsizes.
  - inversion Hnames; subst. done.
  - inversion Hnames as [|? names ? todo' Hlen Hrest]; subst.
    inversion Hsizes as [|? ? Hsize Hsizes']; subst. simpl.
    unfold times. rewrite Nat2Z.id.
    pose proof (rename_values_ok (length seen) names []
                  (seen ++ names :: todo')) as Hinner.
    simpl in Hinner. rewrite Hinner; [|by rewrite list_lookup_middle|lia].
    rewrite insert_middle.
    replace (S (length seen))
      with (length (seen ++
              [imap (fun j _ => value_name (length seen) j) names]))
      by (rewrite length_app; simpl; lia).
    rewrite IH by done. f_equal. rewrite <- app_assoc. simpl.
    rewrite Nat.add_0_r. do 2 f_equal. apply imap_ext. intros k y _. simpl.
    rewrite length_app. simpl. apply imap_ext. intros j z _. f_equal. lia.
Qed.

Lemma rename_operators_ok todo : forall seen,
  length seen + length todo <= 26 ->
  rename_operators (seq (length seen) (length todo)) (seen ++ todo)
  = inr (seen ++
         imap (fun i o => set_name o (operator_name (length seen + i)))
           todo).
Proof.
  induction todo as [|o todo IH]; intros seen Hle; simpl in *; [done|].
  rewrite list_lookup_middle by done. rewrite alphabet_at_lt by lia.
  rewrite insert_middle.
  replace (S (length seen))
    with (length (seen ++ [set_name o (operator_name (length seen))]))
    by (rewrite length_app; simpl; lia).
  rewrite IH by (rewrite length_app; simpl in *; lia).
  f_equal. rewrite <- app_assoc. simpl. rewrite Nat.add_0_r. do 2 f_equal.
  apply imap_ext. intros j y _. simpl. rewrite length_app. simpl.
  do 2 f_equal. lia.
Qed.


(** The renaming fails in one way only. *)
Lemma rename_values_failure i js : forall vn e,
  rename_values i js vn = inl e -> e = IndexError.
Proof.
  induction js as [|j js IH]; intros vn e; simpl; [done|].
  destruct (alphabet_at j) as [e'|c] eqn:Hc.
  { unfold alphabet_at in Hc.
    destruct (Py.chars alphabet !! j); intros; simplify_eq. done. }
  destruct (vn !! i); [|by intros [= <-]].
  case_bool_decide; [apply IH|by intros [= <-]].
Qed.

Lemma rename_variables_failure ranges : forall i vn e,
  rename_variables i ranges vn = inl e -> e = IndexError.
Proof.
  induction ranges as [|size ranges IH]; intros i vn e; simpl; [done|].
  destruct (rename_values _ _ _) eqn:H; [|by eauto].
  intros [= <-]. by eapply rename_values_failure.
Qed.

Lemma rename_operators_failure is_ : forall ops e,
  rename_operators is_ ops = inl e -> e = IndexError.
Proof.
  induction is_ as [|i is_ IH]; intros ops e; simpl; [done|].
  destruct (ops !! i); [|by intros [= <-]].
  destruct (alphabet_at i) as [e'|c] eqn:Hc; [|apply IH].
  unfold alphabet_at in Hc.
  destruct (Py.chars alphabet !! i); intros; simplify_eq. done.
Qed.

(** No loop gets past position 26 of the alphabet. *)
Lemma rename_values_too_many i k : forall a vn,
  a <= 26 < a + k -> exists e, rename_values i (seq a k) vn = inl e.
Proof.
  induction k as [|k IH]; intros a vn Ha; simpl; [lia|].
  destruct (decide (a = 26)) as [->|Hne].
  - rewrite alphabet_at_ge by lia. eauto.
  - rewrite alphabet_at_lt by lia. repeat case_match; eauto.
    apply IH. lia.
Qed.

Lemma rename_variables_too_large ranges : forall i vn,
  Exists (fun size => (26 < size)%Z) ranges ->
  exists e, rename_variables i ranges vn = inl e.
Proof.
  induction ranges as [|size ranges IH]; intros i vn Hex;
    inversion Hex as [? ? Hsize|? ? Hrest]; subst; simpl.
  - destruct (rename_values_too_many i (times size) 0 vn) as [e ->];
      [unfold times; lia|eauto].
  - destruct (rename_values _ _ _); eauto.
Qed.

Lemma rename_operators_too_many k : forall a ops,
  a <= 26 < a + k -> exists e, rename_operators (seq a k) ops = inl e.
Proof.
  induction k as [|k IH]; intros a ops Ha; simpl; [lia|].
  destruct (ops !! a); [|eauto].
  destruct (decide (a = 26)) as [->|Hne].
  - rewrite alphabet_at_ge by lia. eauto.
  - rewrite alphabet_at_lt by lia. apply IH. lia.
Qed.

(** C6, as amended. For a task whose variables have as many value names as
    their domain size says, with domain sizes and operator count at most
    26, the renaming succeeds and rewrites the name of value [j] of
    variable [i] to the upper-case letter [j] followed by [i], and the name
    of operator [i] to the lower-case letter [i] in parentheses, leaving
    every other field as it was. When a domain size or the operator count
    exceeds 26, the renaming fails, with Python's [IndexError]. *)
Theorem renamed_sas_names sas_task :
  (names_match_ranges (variables sas_task) ->
   Forall (fun size => (size <= 26)%Z) (ranges (variables sas_task)) ->
   length (operators sas_task) <= 26 ->
   renamed_sas sas_task = inr (renamed sas_task))
  /\ (Exists (fun size => (26 < size)%Z) (ranges (variables sas_task))
      \/ 26 < length (operators sas_task) ->
      renamed_sas sas_task = inl IndexError).
Proof.
  unfold renamed_sas, renamed. split.
  - intros Hnames Hsizes Hops.
    pose proof (rename_variables_ok _ [] _ Hnames Hsizes) as Hv.
    simpl in Hv. rewrite Hv.
    pose proof (rename_operators_ok (operators sas_task) []) as Ho.
    simpl in Ho. by rewrite Ho.
  - intros Hlarge.
    destruct (rename_variables _ _ _) as [e|vn] eqn:Hv.
    { by apply rename_variables_failure in Hv as ->. }
    destruct (rename_operators _ _) as [e|ops] eqn:Ho.
    { by apply rename_operators_failure in Ho as ->. }
    exfalso. destruct Hlarge as [Hsize|Hcount].
    + destruct (rename_variables_too_large _ 0 (value_names
                  (variables sas_task)) Hsize) as [e He]. congruence.
    + destruct (rename_operators_too_many (length (operators sas_task)) 0
                  (operators sas_task)) as [e He]; [lia|congruence].
Qed.

(** C6 as stated fails on a task with a variable of 27 values: the
    renaming raises Python's [IndexError], not an error [TooLarge]. *)
Lemma rename_too_large_counterexample :
  ranges (variables (wide_task 27)) = [27%Z]
  /\ renamed_sas (wide_task 27) = inl IndexError
  /\ renamed_sas (wide_task 27) <> inl TooLarge.
Proof. repeat split. intros H. vm_compute in H. discriminate. Qed.

(** C6, as amended, at the minimal task: the value names become A0 and B0
    and the operator name (a). *)
Lemma renamed_sas_names_witness :
  (names_match_ranges (variables (minimal_task true))
   /\ Forall (fun size => (size <= 26)%Z)
        (ranges (variables (minimal_task true)))
   /\ length (operators (minimal_task true)) <= 26)
  /\ renamed_sas (minimal_task true) = inr (renamed (minimal_task true))
  /\ value_names (variables (renamed (minimal_task true))) = [["A0"; "B0"]]
  /\ name <$> operators (renamed (minimal_task true)) = ["(a)"].
Proof.
  assert (names_match_ranges (variables (minimal_task true))) as Hnames
    by (repeat constructor).
  assert (Forall (fun size => (size <= 26)%Z)
            (ranges (variables (minimal_task true)))) as Hsizes
    by (repeat constructor; discriminate).
  assert (length (operators (minimal_task true)) <= 26) as Hops
    by (simpl; lia).
  split; [repeat split; assumption|].
  split; [|split; reflexivity].
  exact (proj1 (renamed_sas_names (minimal_task true)) Hnames Hsizes Hops).
Defined.

End RenameProperties.

(** ** Domain discovery *)

Section DiscoveryProperties.

Import Shim PddlFiles DiscoverySpec.
Local Arguments String.append : simpl nomatch.

Lemma append_assoc (s1 s2 s3 : string) :
  (s1 +:+ s2) +:+ s3 = s1 +:+ (s2 +:+ s3).
Proof. induction s1 as [|a s1 IH]; simpl; congruence. Qed.

Lemma chars_append (s1 s2 : string) :
  Py.chars (s1 +:+ s2) = Py.chars s1 ++ Py.chars s2.
Proof. induction s1 as [|a s1 IH]; simpl; congruence. Qed.

Lemma take_append (s1 s2 : string) :
  Py.take (String.length s1) (s1 +:+ s2) = s1.
Proof. induction s1 as [|a s1 IH]; simpl; [by destruct s2|congruence]. Qed.

Lemma drop_append (s1 s2 : string) :
  Py.drop (String.length s1) (s1 +:+ s2) = s2.
Proof. induction s1 as [|a s1 IH]; simpl; [by destruct s2|congruence]. Qed.

Lemma rfind_absent c s : c ∉ Py.chars s -> Py.rfind c s = (-1)%Z.
Proof.
  induction s as [|a s IH]; simpl; [done|].
  intros [Ha Hs]%not_elem_of_cons. rewrite IH by done. simpl.
  by rewrite bool_decide_eq_false_2.
Qed.

Lemma rfind_last c s1 s2 :
  c ∉ Py.chars s2 ->
  Py.rfind c (s1 +:+ String c s2) = Z.of_nat (String.length s1).
Proof.
  intros Hs2. induction s1 as [|a s1 IH].
  - simpl. rewrite rfind_absent by done. simpl.
    by rewrite bool_decide_eq_true_2.
  - simpl String.append. simpl Py.rfind. rewrite IH.
    rewrite (proj2 (Z.leb_le _ _)) by lia. simpl String.length. lia.
Qed.

Lemma rstrip_cons c a s :
  Py.rstrip c (String a s)
  = match Py.rstrip c s with
    | EmptyString => if bool_decide (a = c) then "" else String a ""
    | r => String a r
    end.
Proof. reflexivity. Qed.

Lemma endswith_cons c a b s :
  Py.endswith c (String a (String b s)) = Py.endswith c (String b s).
Proof. reflexivity. Qed.

Lemma rstrip_separator dir :
  dir <> "" -> Py.endswith "/" dir = false ->
  Py.rstrip "/" (dir +:+ "/") = dir.
Proof.
  induction dir as [|a dir IH]; [done|]. intros _ Hend.
  destruct dir as [|b dir].
  - simpl in *. apply bool_decide_eq_false in Hend.
    by rewrite bool_decide_eq_false_2.
  - rewrite endswith_cons in Hend.
    change (String a (String b dir) +:+ "/")
      with (String a (String b dir +:+ "/")).
    rewrite rstrip_cons, IH; done.
Qed.

Lemma not_all_separators dir s :
  dir <> "" -> Py.endswith "/" dir = false ->
  Py.all_char "/" (dir +:+ s) = false.
Proof.
  induction dir as [|a dir IH]; [done|]. intros _ Hend.
  destruct dir as [|b dir].
  - simpl in *. apply bool_decide_eq_false in Hend.
    by rewrite bool_decide_eq_false_2.
  - rewrite endswith_cons in Hend.
    change (String a (String b dir) +:+ s)
      with (String a (String b dir +:+ s)).
    change (Py.all_char "/" (String a (String b dir +:+ s)))
      with (bool_decide (a = "/"%char)
            && Py.all_char "/" (String b dir +:+ s)).
    rewrite IH by done. by rewrite andb_false_r.
Qed.

Lemma os_path_split_in_dir dir name :
  dir <> "" -> Py.endswith "/" dir = false -> "/"%char ∉ Py.chars name ->
  os_path_split (in_dir dir name) = (dir, name).
Proof.
  intros Hdir Hend Hname. unfold os_path_split, in_dir.
  change ("/" +:+ name) with (String "/"%char name).
  rewrite rfind_last by done.
  replace (Z.to_nat (Z.of_nat (String.length dir) + 1))
    with (String.length (dir +:+ "/")).
  2:{ clear. induction dir as [|a dir IH]; simpl; [done|].
      rewrite IH. lia. }
  change (String "/"%char name) with ("/" +:+ name).
  rewrite <- append_assoc, take_append, drop_append.
  rewrite not_all_separators by done.
  rewrite bool_decide_eq_false_2 by (by destruct dir).
  simpl. by rewrite rstrip_separator.
Qed.

Lemma os_path_splitext_plain base e :
  "/"%char ∉ Py.chars base -> has_non_dot base = true ->
  "."%char ∉ Py.chars e -> "/"%char ∉ Py.chars e ->
  os_path_splitext (base +:+ String "."%char e) = (base, String "."%char e).
Proof.
  intros Hbase Hdot He Hes. unfold os_path_splitext.
  rewrite (rfind_absent "/").
  2:{ rewrite chars_append. simpl. rewrite elem_of_app, elem_of_cons.
      intros [?|[?|?]]; done. }
  rewrite rfind_last by done. simpl Z.add.
  rewrite (proj2 (Z.ltb_lt _ _)) by lia.
  rewrite Z.sub_0_r, Nat2Z.id. simpl Py.drop.
  rewrite take_append, drop_append, Hdot. done.
Qed.

Lemma os_path_join_in_dir dir name :
  dir <> "" -> Py.endswith "/" dir = false ->
  Py.startswith "/" name = false ->
  os_path_join dir name = in_dir dir name.
Proof.
  intros Hdir Hend Hname. unfold os_path_join. rewrite Hname, Hend.
  by rewrite bool_decide_eq_false_2.
Qed.

Lemma first_existing_find fs dirname names :
  first_existing fs dirname names
  = List.find (os_path_exists fs) (os_path_join dirname <$> names).
Proof.
  induction names as [|name names IH]; simpl; [done|].
  by destruct (os_path_exists fs _).
Qed.

Lemma startswith_plain base s :
  "/"%char ∉ Py.chars base -> has_non_dot base = true ->
  Py.startswith "/" (base +:+ s) = false.
Proof.
  destruct base as [|a base]; [done|]. simpl.
  intros [Ha _]%not_elem_of_cons _. by apply bool_decide_eq_false_2.
Qed.

Lemma startswith_take3_plain base s t :
  "/"%char ∉ Py.chars base -> has_non_dot base = true ->
  Py.startswith "/" (Py.take 3 (base +:+ s) +:+ t) = false.
Proof.
  destruct base as [|a base]; [done|]. simpl.
  intros [Ha _]%not_elem_of_cons _. by apply bool_decide_eq_false_2.
Qed.

(** C7, as amended. For a task file [dir/base ext] the domain candidates
    are tried in the order dir/domain.pddl, dir/<base>-domain<ext>,
    dir/<first three characters of the file name base ext>-domain.pddl,
    dir/domain_<base><ext>, dir/domain-<base><ext>, and the first one that
    exists is returned. *)
Theorem domain_discovery_order fs dir base ext l :
  plain_task_name dir base ext ->
  (_find_domain_filename fs (in_dir dir (base +:+ ext)) l).1
  = List.find (os_path_exists fs) (candidates dir base ext).
Proof.
  intros (Hdir & Hend & Hbase & Hdot & e & -> & He & Hes).
  unfold _find_domain_filename.
  rewrite os_path_split_in_dir; try done.
  2:{ rewrite chars_append. simpl. rewrite elem_of_app, elem_of_cons.
      intros [?|[?|?]]; done. }
  rewrite first_existing_find. unfold domain_basenames.
  rewrite os_path_splitext_plain by done.
  assert (os_path_join dir <$>
            ["domain.pddl"; base +:+ "-domain" +:+ String "."%char e;
             Py.take 3 (base +:+ String "."%char e) +:+ "-domain.pddl";
             "domain_" +:+ base +:+ String "."%char e;
             "domain-" +:+ base +:+ String "."%char e]
          = candidates dir base (String "."%char e)) as ->.
  { unfold candidates. simpl fmap.
    rewrite !os_path_join_in_dir; try done.
    - by apply startswith_take3_plain.
    - by apply startswith_plain. }
  by destruct (List.find _ _).
Qed.

(** C7 as stated fails on the task file d/p1.txt next to the single file
    d/p1-domain.pddl: the third candidate of the specification names that
    file, while the third candidate of the code is d/p1.-domain.pddl, so
    that the code finds no domain file. *)
Lemma short_base_counterexample :
  let fs := files ["d/p1.txt"; "d/p1-domain.pddl"] in
  List.find (os_path_exists fs) (documented_candidates "d" "p1" ".txt")
  = Some "d/p1-domain.pddl"
  /\ (_find_domain_filename fs "d/p1.txt" []).1 = None
  /\ candidates "d" "p1" ".txt"
     = ["d/domain.pddl"; "d/p1-domain.txt"; "d/p1.-domain.pddl";
        "d/domain_p1.txt"; "d/domain-p1.txt"].
Proof. repeat split. Qed.

(** C7, as amended, at the task file d/p01.pddl with the siblings
    domain.pddl and p01-domain.pddl: domain.pddl is chosen. *)
Lemma domain_discovery_order_witness :
  let fs := files ["d/p01.pddl"; "d/domain.pddl"; "d/p01-domain.pddl"] in
  plain_task_name "d" "p01" ".pddl"
  /\ (_find_domain_filename fs "d/p01.pddl" []).1 = Some "d/domain.pddl".
Proof.
  intros fs.
  assert (plain_task_name "d" "p01" ".pddl") as Hplain.
  { repeat split; try discriminate.
    - intros H. repeat (apply elem_of_cons in H as [H|H]; [discriminate|]).
      by apply elem_of_nil in H.
    - exists "pddl". repeat split.
      + intros H. repeat (apply elem_of_cons in H as [H|H]; [discriminate|]).
        by apply elem_of_nil in H.
      + intros H. repeat (apply elem_of_cons in H as [H|H]; [discriminate|]).
        by apply elem_of_nil in H. }
  split; [exact Hplain|].
  exact (domain_discovery_order fs "d" "p01" ".pddl" [] Hplain).
Defined.

(** When no candidate exists, [_find_domain_filename] logs and returns
    [None], and [run_evaluator] goes on to call the evaluator with no
    domain file name: the exit code is the answer of the evaluator, not the
    critical one. *)
Lemma missing_domain_reaches_evaluator :
  let fs := files ["d/p01.pddl"] in
  run_evaluator (PddlTask := unit) "pddl_task" (fun _ => "") (fun _ => "")
    (fun _ _ => "tmp")
    (fun _ _ => inl PickleError)
    (fun domain _ fs => (fs, inr (bool_decide (domain = None))))
    ["d/p01.pddl"] fs []
  = (fs, inl (SystemExit EXIT_CODE_IMPROVING),
     [(CRITICAL_LOG,
       "Error: Could not find domain file using automatic naming rules.")]).
Proof. reflexivity. Qed.

End DiscoveryProperties.

(** ** Temporary files of the evaluator shims *)

Section TemporaryFiles.

Import Shim SasTasks ShimSpec Fixtures.

(** The statements after the [yield] of a context manager run when the
    body of the [with] statement ends without an exception, and only
    then. *)
Lemma with_body_raises {A R} (cm : contextmanager A)
    (body : A -> FS -> FS * (exn + R)) fs fs1 x fs2 e :
  before_yield cm fs = (fs1, inr x) ->
  body x fs1 = (fs2, inl e) ->
  with_ cm body fs = (fs2, inl e).
Proof. intros H1 H2. unfold with_. by rewrite H1, H2. Qed.

Lemma with_body_returns {A R} (cm : contextmanager A)
    (body : A -> FS -> FS * (exn + R)) fs fs1 x fs2 r fs3 :
  before_yield cm fs = (fs1, inr x) ->
  body x fs1 = (fs2, inr r) ->
  after_yield cm x fs2 = (fs3, inr ()) ->
  with_ cm body fs = (fs3, inr r).
Proof. intros H1 H2 H3. unfold with_. by rewrite H1, H2, H3. Qed.

(** The body of the [with] statement of [run_evaluator] never ends without
    an exception: it leaves by [sys.exit] or by an exception of the
    evaluator. *)
Lemma run_evaluator_on_sas_file_raises evaluate sas_filename fs :
  exists e, (SasShim._run_evaluator_on_sas_file evaluate sas_filename fs).2
            = inl e.
Proof.
  unfold SasShim._run_evaluator_on_sas_file.
  destruct (evaluate sas_filename fs) as [fs' [e|[]]]; eauto.
Qed.

(** C8 fails on the code. Run on a pickled state, the SAS+ shim leaves by
    [sys.exit] inside the [with] statement, whatever the evaluator answers,
    and the temporary file is still there afterwards, as it is when the
    evaluator raises; likewise the two temporary files of the PDDL shim.
    Only a body that ends without an exception has its file removed. *)
Theorem temporary_files_left_behind :
  let state : gmap string SASTask := {[ "sas_task" := minimal_task true ]} in
  let sas answer :=
    SasShim.run_evaluator "sas_task" tmp_name (read_state state)
      (evaluate_sas answer) ["state.pickle"] pickled [] in
  let pddl answer :=
    PddlFiles.run_evaluator (PddlTask := unit) "pddl_task"
      (fun _ => "(define (domain d))") (fun _ => "(define (problem p))")
      tmp_name (read_state {[ "pddl_task" := () ]})
      (evaluate_pddl answer) ["state.pickle"] pickled [] in
  ((sas (inr true)).1.2 = inl (SystemExit 30)
   /\ os_path_exists (sas (inr true)).1.1 "/tmp/tmp0.sas" = true)
  /\ ((sas (inr false)).1.2 = inl (SystemExit 31)
      /\ os_path_exists (sas (inr false)).1.1 "/tmp/tmp0.sas" = true)
  /\ ((sas (inl (OtherError "RuntimeError"))).1.2
        = inl (OtherError "RuntimeError")
      /\ os_path_exists (sas (inl (OtherError "RuntimeError"))).1.1
           "/tmp/tmp0.sas" = true)
  /\ ((pddl (inr true)).1.2 = inl (SystemExit 30)
      /\ os_path_exists (pddl (inr true)).1.1 "/tmp/tmp0.pddl" = true
      /\ os_path_exists (pddl (inr true)).1.1 "/tmp/tmp1.pddl" = true)
  /\ with_ (SasShim.temporary_file "sas_task" tmp_name state)
       (fun _ fs => (fs, inr ())) pickled
     = (pickled, inr ()).
Proof. vm_compute. repeat split. Qed.

(** Run on a pickled state, the SAS+ shim ends with the file system as the
    evaluator left it, the temporary file included if the evaluator did not
    remove it: the statement after the [yield] never runs. *)
Lemma sas_shim_keeps_temporary_file KEY tmp_name read_state evaluate
    filename fs l state task :
  read_state fs filename = inr state ->
  state !! KEY = Some task ->
  let name := tmp_name fs ".sas" in
  let fs1 := write_text name (SasShim.output_text task) (<[name := ""]> fs) in
  (evaluate name fs1).2 <> inl FileNotFoundError ->
  (evaluate name fs1).2 <> inl PickleError ->
  (SasShim.run_evaluator KEY tmp_name read_state evaluate [filename] fs l).1.1
  = (evaluate name fs1).1.
Proof.
  intros Hread Hkey name fs1 Hnf Hnp.
  unfold SasShim.run_evaluator. rewrite Hread.
  unfold with_, SasShim.temporary_file, NamedTemporaryFile. simpl.
  rewrite Hkey. fold name. fold fs1.
  unfold SasShim._run_evaluator_on_sas_file.
  destruct (evaluate name fs1) as [fs2 [e|[]]]; simpl in *; try done.
  destruct e; done.
Qed.

End TemporaryFiles.

(** ** Reading back what was written *)

Section RoundTrip.

Import SasTasks SasFiles RoundTripSpec.
Local Arguments String.append : simpl nomatch.
Local Open Scope Z_scope.

(** *** Integers *)

Lemma digits_string_of_uint d : forall acc prev,
  Py.digits acc prev (DecimalString.NilEmpty.string_of_uint d)
  = match d with
    | Decimal.Nil => if prev then Some acc else None
    | _ => Some (uint_value acc d)
    end.
Proof.
  induction d as [|d IH|d IH|d IH|d IH|d IH|d IH|d IH|d IH|d IH|d IH];
    intros acc prev; [done|..];
    (simpl DecimalString.NilEmpty.string_of_uint;
     simpl Py.digits; rewrite IH; by destruct d).
Qed.

Lemma uint_value_pos d : forall acc,
  uint_value (Z.pos acc) d = Z.pos (Pos.of_uint_acc d acc).
Proof.
  induction d as [|d IH|d IH|d IH|d IH|d IH|d IH|d IH|d IH|d IH|d IH];
    intros acc; simpl; [done|..]; rewrite <- IH; f_equal; lia.
Qed.

Lemma uint_value_0 d : uint_value 0 d = Z.of_N (Pos.of_uint d).
Proof.
  induction d as [|d IH|d IH|d IH|d IH|d IH|d IH|d IH|d IH|d IH|d IH];
    simpl; [done|exact IH|..]; by rewrite <- uint_value_pos.
Qed.

Lemma string_of_uint_chars d :
  Forall (fun c => is_Some (Py.digit c))
    (Py.chars (DecimalString.NilEmpty.string_of_uint d)).
Proof.
  induction d; simpl; constructor; try done; by eexists.
Qed.

Lemma str_chars z : Forall numeral_char (Py.chars (Py.str z)).
Proof.
  assert (forall d, Forall numeral_char
            (Py.chars (DecimalString.NilZero.string_of_uint d))) as Hd.
  { intros d. eapply Forall_impl with (P := fun c => is_Some (Py.digit c));
      [|by left].
    destruct d; try apply (string_of_uint_chars (_ _)).
    repeat constructor. by eexists. }
  unfold Py.str. destruct z as [|p|p]; simpl.
  - apply (Hd (Decimal.D0 Decimal.Nil)).
  - apply Hd.
  - constructor; [by right|apply Hd].
Qed.

Lemma numeral_char_no_space c :
  numeral_char c -> Py.isspace c = false /\ c <> " "%char.
Proof.
  intros [[z Hz]| ->]; [|done].
  destruct c as [[] [] [] [] [] [] [] []]; by vm_compute in Hz |- *.
Qed.

Lemma rstrip_space_id s :
  Forall (fun c => Py.isspace c = false) (Py.chars s) ->
  Py.rstrip_space s = s.
Proof.
  induction s as [|a s IH]; simpl; [done|].
  intros [Ha Hs]%Forall_cons. rewrite IH by done. rewrite Ha. by destruct s.
Qed.

Lemma strip_id s :
  Forall (fun c => Py.isspace c = false) (Py.chars s) -> Py.strip s = s.
Proof.
  intros Hs. unfold Py.strip.
  assert (Py.lstrip s = s) as ->; [|by apply rstrip_space_id].
  destruct s as [|a s]; simpl in *; [done|].
  apply Forall_cons in Hs as [-> _]. done.
Qed.

(** A literal that starts with a digit has no sign to take off. *)
Lemma int_unsigned c r :
  is_Some (Py.digit c) ->
  Py.strip (String c r) = String c r ->
  Py.int (String c r) = Py.digits 0 false (String c r).
Proof.
  intros [z Hz] Hstrip. unfold Py.int. rewrite Hstrip.
  destruct c as [[] [] [] [] [] [] [] []];
    try (vm_compute in Hz; discriminate Hz); reflexivity.
Qed.

Lemma int_numeral d :
  d <> Decimal.Nil ->
  Py.int (DecimalString.NilEmpty.string_of_uint d) = Some (uint_value 0 d).
Proof.
  intros Hd.
  pose proof (string_of_uint_chars d) as Hc.
  pose proof (digits_string_of_uint d 0 false) as Hdigits.
  assert (Py.strip (DecimalString.NilEmpty.string_of_uint d)
          = DecimalString.NilEmpty.string_of_uint d) as Hstrip.
  { apply strip_id. eapply Forall_impl; [exact Hc|].
    intros c Hdigit. apply numeral_char_no_space. by left. }
  destruct (DecimalString.NilEmpty.string_of_uint d) as [|c r] eqn:E.
  { by destruct d. }
  simpl in Hc. apply Forall_cons in Hc as [Hc _].
  rewrite int_unsigned, Hdigits by done. by destruct d.
Qed.

(** [int(str(z)) == z] *)
Lemma int_str z : Py.int (Py.str z) = Some z.
Proof.
  destruct z as [|p|p]; [done|..]; unfold Py.str; simpl.
  - pose proof (DecimalPos.Unsigned.to_uint_nonnil p) as Hnil.
    assert (DecimalString.NilZero.string_of_uint (Pos.to_uint p)
            = DecimalString.NilEmpty.string_of_uint (Pos.to_uint p)) as ->
      by (by destruct (Pos.to_uint p)).
    rewrite int_numeral by done.
    by rewrite uint_value_0, DecimalPos.Unsigned.of_to.
  - pose proof (DecimalPos.Unsigned.to_uint_nonnil p) as Hnil.
    assert (DecimalString.NilZero.string_of_uint (Pos.to_uint p)
            = DecimalString.NilEmpty.string_of_uint (Pos.to_uint p)) as ->
      by (by destruct (Pos.to_uint p)).
    unfold Py.int. rewrite strip_id.
    2:{ constructor; [done|]. eapply Forall_impl;
          [apply string_of_uint_chars|].
        intros c Hdigit. apply numeral_char_no_space. by left. }
    rewrite digits_string_of_uint.
    destruct (Pos.to_uint p) eqn:E; try done;
      rewrite <- E, uint_value_0, DecimalPos.Unsigned.of_to; done.
Qed.

(** *** Lines of integers *)

Lemma split_whole s : " "%char ∉ Py.chars s -> Py.split " " s = [s].
Proof.
  induction s as [|a s IH]; simpl; [done|].
  intros [Ha Hs]%not_elem_of_cons. rewrite bool_decide_eq_false_2 by done.
  by rewrite IH.
Qed.

Lemma split_first s1 s2 :
  " "%char ∉ Py.chars s1 ->
  Py.split " " (s1 +:+ String " "%char s2) = s1 :: Py.split " " s2.
Proof.
  induction s1 as [|a s1 IH]; simpl; [done|].
  intros [Ha Hs]%not_elem_of_cons. rewrite bool_decide_eq_false_2 by done.
  by rewrite IH.
Qed.

Lemma split_join parts :
  parts <> [] ->
  Forall (fun part => " "%char ∉ Py.chars part) parts ->
  Py.split " " (Py.join " " parts) = parts.
Proof.
  induction parts as [|x parts IH]; [done|]. intros _ Hparts.
  apply Forall_cons in Hparts as [Hx Hparts].
  destruct parts as [|y parts].
  - simpl. by apply split_whole.
  - change (Py.join " " (x :: y :: parts))
      with (x +:+ String " "%char (Py.join " " (y :: parts))).
    rewrite split_first by done. by rewrite IH.
Qed.

Lemma str_no_space z : " "%char ∉ Py.chars (Py.str z).
Proof.
  intros Hin. pose proof (str_chars z) as Hc.
  rewrite Forall_forall in Hc. apply Hc in Hin.
  by apply numeral_char_no_space in Hin as [_ ?].
Qed.

Lemma ints_strs zs : ints (Py.str <$> zs) = Some zs.
Proof.
  induction zs as [|z zs IH]; simpl; [done|].
  rewrite int_str. simpl. change (list_fmap Z string Py.str zs)
    with (Py.str <$> zs). by rewrite IH.
Qed.

Lemma int_list_join zs rest :
  zs <> [] ->
  int_list (Py.join " " (Py.str <$> zs)) rest = inr (zs, rest).
Proof.
  intros Hzs. unfold int_list. rewrite split_join.
  - by rewrite ints_strs.
  - by destruct zs.
  - apply Forall_fmap, Forall_forall. intros z _. apply str_no_space.
Qed.

(** *** Single lines *)

Lemma next_int_str z rest : next_int (Py.str z :: rest) = inr (z, rest).
Proof.
  unfold next_int, mbind, reader_bind. simpl. by rewrite int_str.
Qed.

Lemma next_fact_line f rest :
  next_fact (fact_line f :: rest) = inr (f, rest).
Proof.
  unfold next_fact. erewrite bind_returns by reflexivity.
  destruct f as [var val]. unfold fact_line. simpl fst. simpl snd.
  erewrite bind_returns by (by apply (int_list_join [var; val])).
  done.
Qed.

(** *** Repeated items *)

Lemma repeat_reads {A} (enc : A -> list string) (body : reader A) xs :
  (forall x rest, x ∈ xs -> body (enc x ++ rest) = inr (x, rest)) ->
  forall acc rest,
    repeat (length xs) body acc (flat_map enc xs ++ rest)
    = inr (acc ++ xs, rest).
Proof.
  induction xs as [|x xs IH]; intros Hbody acc rest; simpl.
  - by rewrite app_nil_r.
  - rewrite <- app_assoc.
    erewrite bind_returns by (apply Hbody; left).
    rewrite IH by (intros; apply Hbody; by right).
    by rewrite <- app_assoc.
Qed.

Lemma repeat_reads_lines {A} (enc : A -> string) (body : reader A) xs :
  (forall x rest, x ∈ xs -> body (enc x :: rest) = inr (x, rest)) ->
  forall acc rest,
    repeat (length xs) body acc ((enc <$> xs) ++ rest)
    = inr (acc ++ xs, rest).
Proof.
  intros Hbody acc rest.
  assert (enc <$> xs = flat_map (fun x => [enc x]) xs) as ->.
  { clear. induction xs as [|x xs IH]; [done|]. simpl. by f_equal. }
  by apply repeat_reads.
Qed.

Lemma times_length {A} (l : list A) : times (Z.of_nat (length l)) = length l.
Proof. unfold times. lia. Qed.

(** *** Sections *)

Local Ltac reads lemma := erewrite bind_returns by (by apply lemma).
Local Ltac reads_all lemma item :=
  erewrite bind_returns by (apply lemma; intros; apply item).

Lemma next_line line rest : next (line :: rest) = inr (line, rest).
Proof. reflexivity. Qed.

Lemma read_variables_loop_output rs : forall ls ns i al0 r0 v0 rest,
  length ls = length rs ->
  Forall2 (fun size names => Z.of_nat (length names) = size) rs ns ->
  _read_variables_loop (length rs) al0 r0 v0
    (output_variables_from i rs ls ns ++ rest)
  = inr (mkSASVariables (r0 ++ rs) (al0 ++ ls) (v0 ++ ns), rest).
Proof.
  induction rs as [|size rs IH]; intros ls ns i al0 r0 v0 rest Hlen Hnames.
  - destruct ls; [|done]. inversion Hnames; subst. simpl.
    by rewrite !app_nil_r.
  - destruct ls as [|layer ls]; [done|].
    inversion Hnames as [|? names ? ns' Hsize Hrest]; subst.
    simpl length. simpl _read_variables_loop.
    simpl output_variables_from. unfold output_variable.
    rewrite <- !app_assoc. simpl app.
    reads expect_match. reads next_line. reads next_int_str.
    reads next_int_str. rewrite times_length.
    rewrite <- (list_fmap_id names) at 2.
    reads (repeat_reads_lines (@id string) next names).
    simpl app. reads expect_match.
    rewrite IH by (simpl in Hlen; auto with lia).
    by rewrite <- !app_assoc.
Qed.

Lemma read_variables_output vs rest :
  variables_consistent vs ->
  _read_variables (Z.of_nat (length (ranges vs)))
    (output_variables_from 0 (ranges vs) (axiom_layers vs) (value_names vs)
       ++ rest)
  = inr (vs, rest).
Proof.
  intros [Hlen Hnames]. unfold _read_variables. rewrite times_length.
  rewrite (read_variables_loop_output _ _ _ 0 [] [] []) by done.
  by destruct vs.
Qed.

Lemma read_mutex_output facts rest :
  _read_mutex (output_mutex facts ++ rest) = inr (facts, rest).
Proof.
  unfold _read_mutex, output_mutex. rewrite <- !app_assoc. simpl app.
  reads expect_match. reads next_int_str. rewrite times_length.
  reads_all (repeat_reads_lines fact_line next_fact facts) next_fact_line.
  simpl app. reads expect_match. done.
Qed.

Lemma read_mutexes_output mutexes rest :
  _read_mutexes (Z.of_nat (length mutexes))
    (flat_map output_mutex mutexes ++ rest)
  = inr (mutexes, rest).
Proof.
  unfold _read_mutexes. rewrite times_length.
  apply (repeat_reads output_mutex _read_mutex mutexes).
  intros. apply read_mutex_output.
Qed.

Lemma read_init_state_output n init rest :
  times n = length init ->
  _read_init_state n ("begin_state" :: (Py.str <$> init) ++ "end_state" :: rest)
  = inr (init, rest).
Proof.
  intros Hn. unfold _read_init_state. reads expect_match. rewrite Hn.
  reads_all (repeat_reads_lines Py.str next_int init) next_int_str.
  simpl app.
  reads expect_match. done.
Qed.

Lemma read_goal_output goal rest :
  _read_goal ("begin_goal" :: Py.str (Z.of_nat (length goal)) ::
              (fact_line <$> goal) ++ "end_goal" :: rest)
  = inr (goal, rest).
Proof.
  unfold _read_goal. reads expect_match. reads next_int_str.
  rewrite times_length.
  reads_all (repeat_reads_lines fact_line next_fact goal) next_fact_line.
  simpl app.
  reads expect_match. done.
Qed.

Lemma effect_conditions_reads cond : forall front acc tail,
  effect_conditions
    (front ++ flat_map (fun f : fact => [f.1; f.2]) cond ++ tail)
    (length front) (length cond) acc
  = inr (acc ++ cond).
Proof.
  induction cond as [|[var val] cond IH]; intros front acc tail; simpl.
  - by rewrite app_nil_r.
  - set (L := flat_map (fun f : fact => [f.1; f.2]) cond ++ tail).
    rewrite list_lookup_middle by done.
    replace (front ++ var :: val :: L) with ((front ++ [var]) ++ val :: L)
      by (by rewrite <- app_assoc).
    rewrite list_lookup_middle by (rewrite length_app; simpl; lia).
    replace ((front ++ [var]) ++ val :: L) with ((front ++ [var; val]) ++ L)
      by (by rewrite <- !app_assoc).
    replace (S (S (length front))) with (length (front ++ [var; val]))
      by (rewrite length_app; simpl; lia).
    subst L. rewrite IH. by rewrite <- app_assoc.
Qed.

Lemma last3_app l a b c : last3 (l ++ [a; b; c]) = [a; b; c].
Proof.
  unfold last3. rewrite length_app. simpl.
  replace (length l + 3 - 3)%nat with (length l) by lia.
  apply drop_app_length.
Qed.

Lemma effect_line_strs var pre post cond :
  effect_line (var, pre, post, cond)
  = Py.join " "
      (Py.str <$> Z.of_nat (length cond) ::
         flat_map (fun f : fact => [f.1; f.2]) cond ++ [var; pre; post]).
Proof.
  unfold effect_line. f_equal. simpl. f_equal. rewrite fmap_app. f_equal.
  induction cond as [|f cond IH]; simpl; [done|]. by rewrite IH.
Qed.

Lemma read_effect_line e rest :
  _read_effect (effect_line e :: rest) = inr (e, rest).
Proof.
  destruct e as [[[var pre] post] cond]. unfold _read_effect.
  reads next_line. rewrite effect_line_strs.
  reads int_list_join. lazy beta iota. rewrite times_length.
  pose proof (effect_conditions_reads cond [Z.of_nat (length cond)] []
                [var; pre; post]) as Hcond.
  simpl in Hcond. rewrite Hcond.
  change (Z.of_nat (length cond)
          :: flat_map (fun f : fact => [f.1; f.2]) cond ++ [var; pre; post])
    with ((Z.of_nat (length cond)
           :: flat_map (fun f : fact => [f.1; f.2]) cond) ++ [var; pre; post]).
  by rewrite last3_app.
Qed.

Lemma length_append (s1 s2 : string) :
  String.length (s1 +:+ s2) = (String.length s1 + String.length s2)%nat.
Proof. induction s1 as [|a s1 IH]; simpl; congruence. Qed.

Lemma unwrap_wrapped inner : unwrap ("(" +:+ inner +:+ ")") = inner.
Proof.
  unfold unwrap. change ("(" +:+ inner +:+ ")")
    with (String "("%char (inner +:+ ")")).
  simpl String.length. simpl Py.drop. rewrite length_append. simpl.
  replace (String.length inner + 1 - 1)%nat with (String.length inner)
    by lia.
  apply take_append.
Qed.

Lemma read_operator_output o rest :
  (exists inner, name o = "(" +:+ inner +:+ ")") ->
  _read_operator (output_operator o ++ rest) = inr (o, rest).
Proof.
  intros [inner Hname]. destruct o as [name prevail pre_post cost].
  simpl in Hname. subst name.
  unfold _read_operator, output_operator. simpl SasTasks.name.
  simpl SasTasks.prevail. simpl SasTasks.pre_post. simpl SasTasks.cost.
  change (String "("%char (inner +:+ ")")) with ("(" +:+ inner +:+ ")").
  rewrite unwrap_wrapped. rewrite <- !app_assoc. simpl app.
  reads expect_match. reads next_line. reads next_int_str.
  rewrite times_length.
  reads_all (repeat_reads_lines fact_line next_fact prevail) next_fact_line.
  simpl app. reads next_int_str. rewrite times_length.
  reads_all (repeat_reads_lines effect_line _read_effect pre_post)
    read_effect_line.
  simpl app. reads next_int_str. reads expect_match. done.
Qed.

Lemma read_operators_output operators rest :
  names_wrapped operators ->
  _read_operators (Z.of_nat (length operators))
    (flat_map output_operator operators ++ rest)
  = inr (operators, rest).
Proof.
  intros Hnames. unfold _read_operators. rewrite times_length.
  apply (repeat_reads output_operator _read_operator operators).
  intros o rest' Ho. apply read_operator_output.
  unfold names_wrapped in Hnames. rewrite Forall_forall in Hnames. auto.
Qed.

Lemma read_axiom_output a rest :
  _read_axiom (output_axiom a ++ rest) = inr (a, rest).
Proof.
  destruct a as [condition [var val]].
  assert (output_axiom (mkSASAxiom condition (var, val)) ++ rest
          = "begin_rule" :: Py.str (Z.of_nat (length condition)) ::
            (fact_line <$> condition) ++
            Py.join " " (Py.str <$> [var; 1 - val; val]) :: "end_rule" :: rest)
    as ->.
  { unfold output_axiom. simpl. by rewrite <- app_assoc. }
  unfold _read_axiom.
  reads expect_match. reads next_int_str. rewrite times_length.
  reads_all (repeat_reads_lines fact_line next_fact condition) next_fact_line.
  simpl app. reads next_line.
  reads (int_list_join [var; 1 - val; val]). simpl.
  rewrite bool_decide_eq_true_2 by done. reads expect_match. done.
Qed.

Lemma read_axioms_output axioms rest :
  _read_axioms (Z.of_nat (length axioms))
    (flat_map output_axiom axioms ++ rest)
  = inr (axioms, rest).
Proof.
  unfold _read_axioms. rewrite times_length.
  apply (repeat_reads output_axiom _read_axiom axioms).
  intros. apply read_axiom_output.
Qed.

(** Apart from the metric flag, a task is read back as it was written: the
    round trip holds for every valid task whose flag is on, whose variables
    are consistent, whose initial state has one value per variable and whose
    operator names are wrapped in parentheses. *)
Lemma read_output_with_metric_on T :
  metric T = true ->
  variables_consistent (variables T) ->
  length (init T) = length (ranges (variables T)) ->
  names_wrapped (operators T) ->
  validate T = true ->
  _read_task (output T) = inr T.
Proof.
  intros Hmetric Hvars Hinit Hnames Hvalid.
  unfold _read_task, _read_task_lines, output, output_variables.
  rewrite Hmetric. simpl app.
  erewrite bind_returns by reflexivity. reads next_line.
  reads expect_match. reads next_int_str.
  reads read_variables_output. simpl app. reads next_int_str.
  reads read_mutexes_output.
  erewrite bind_returns
    by (apply read_init_state_output; rewrite times_length; by symmetry).
  reads read_goal_output.
  reads next_int_str. reads read_operators_output. simpl app.
  reads next_int_str.
  rewrite <- (app_nil_r (flat_map output_axiom (axioms T))).
  reads read_axioms_output.
  change (bool_of_str "1") with true. rewrite <- Hmetric.
  assert (mkSASTask (variables T) (mutexes T) (init T) (goal T)
            (operators T) (axioms T) (metric T) = T) as -> by (by destruct T).
  by rewrite Hvalid.
Qed.

End RoundTrip.

(** ** More on the driver and the search *)

Section SearchBehaviour.

Import Search DriverSpec.
Context {State Env : Type}.
Variable truthy : State -> bool.
Variable batch_size : Env -> nat.
Variable start_new_iteration : Env -> Env.
Variable run : Env -> list (@Successor State) ->
               (@EvaluationTask State -> option (list nat)) ->
               Env * @task_stream State.
Variable get_successors : State -> list (@Successor State).
Implicit Types (t u : @EvaluationTask State) (s : @task_stream State).
Implicit Types (tasks oor : list (@EvaluationTask State)) (l : log).

Local Abbreviation search := (search truthy Env batch_size
                                start_new_iteration run get_successors).
Local Abbreviation search_loop := (search_loop truthy Env batch_size
                                     start_new_iteration run get_successors).
Local Abbreviation _get_improving_successor :=
  (_get_improving_successor Env batch_size run).

(** In either mode the loop over a batch walks over tasks that are
    [BehaviorNotPresent] without a trace. *)
Lemma loop_skips_rejected deterministic tasks s oor l :
  Forall (fun t => task_status t = DONE_AND_BEHAVIOR_NOT_PRESENT) tasks ->
  verdict_loop deterministic (prepend tasks s) oor l
  = verdict_loop deterministic s oor l.
Proof. induction 1 as [|t tasks Ht _ IH]; simpl; [done|]. by rewrite Ht. Qed.

Lemma batches_all_rejected deterministic batches : forall env oor l,
  (forall env batch callback, all_rejected (run env batch callback).2) ->
  exists env',
    batches_loop Env run deterministic env batches oor l
    = (env', inr (None, no_improving_message oor), l).
Proof.
  induction batches as [|batch batches IH]; intros env oor l Hrun; simpl.
  - eauto.
  - specialize (Hrun env batch
      (on_task_completed deterministic (seq 0 (length batch)))) as Hb.
    destruct (run env batch _) as [env1 s]. simpl in Hb.
    destruct Hb as (tasks & -> & Htasks).
    rewrite stream_of_list_prepend, loop_skips_rejected by done. simpl.
    by apply IH.
Qed.

(** X3. When the environment reports every candidate of every batch as
    [BehaviorNotPresent], [_get_improving_successor] returns no state with
    the plain message, and the search returns its current state after this
    one iteration, in either mode. *)
Theorem search_returns_current_when_all_rejected
    fuel deterministic env current improving_state message l :
  (forall env batch callback, all_rejected (run env batch callback).2) ->
  (exists env',
     _get_improving_successor (get_successors current) env deterministic l
     = (env', inr (None, "No improving successor was found."), l))
  /\ exists env',
       search_loop (S fuel) deterministic env current improving_state
         message l
       = (env', Returned current,
          l ++ [(INFO, "No improving successor was found.")]).
Proof.
  intros Hrun. split.
  - unfold Search._get_improving_successor.
    destruct (batches_all_rejected deterministic
                (batched (get_successors current) (batch_size env))
                env [] l Hrun) as [env' H].
    by exists env'.
  - simpl. unfold Search._get_improving_successor.
    destruct (batches_all_rejected deterministic
                (batched (get_successors current)
                   (batch_size (start_new_iteration env)))
                (start_new_iteration env) [] l Hrun) as [env' ->].
    by exists env'.
Qed.

(** X4. A search whose initial state has the property and has no successor
    returns the initial state, without asking the environment again. *)
Theorem search_without_successors
    fuel initial_state env env' deterministic l t :
  run (start_new_iteration env) [mkSuccessor initial_state "Initial state"]
    (fun _ => None) = (env', Yield t Done) ->
  task_status t = DONE_AND_BEHAVIOR_PRESENT ->
  get_successors initial_state = [] ->
  search (S fuel) initial_state env deterministic l
  = (start_new_iteration env', Returned initial_state,
     l ++ [(INFO, "Initial has property."); (INFO, "Starting search ...");
           (INFO, "No improving successor was found.")]).
Proof.
  intros Hrun Ht Hsucc. unfold Search.search. rewrite Hrun. simpl.
  rewrite Ht. simpl. unfold Search._get_improving_successor.
  rewrite Hsucc. simpl. unfold logging. by rewrite <- !app_assoc.
Qed.

(** X5. In deterministic mode the verdict of a batch is that of its first task
    that is not [BehaviorNotPresent]; the tasks after it, whatever their
    status, and a later failure of the environment do not change it. *)
Theorem deterministic_verdict_is_first_decisive tasks t rest oor l :
  Forall (fun u => task_status u = DONE_AND_BEHAVIOR_NOT_PRESENT) tasks ->
  task_status t <> DONE_AND_BEHAVIOR_NOT_PRESENT ->
  verdict_loop true (prepend tasks (Yield t rest)) oor l
  = verdict_loop true (Yield t Done) oor l.
Proof.
  intros Htasks Ht. rewrite loop_skips_rejected by done. simpl.
  by destruct (task_status t).
Qed.

(** Every candidate of a batch is one of the successors handed over. *)
Lemma batched_fuel_elem fuel n :
  forall (successors : list (@Successor State)) batch x,
  batch ∈ batched_fuel fuel n successors -> x ∈ batch -> x ∈ successors.
Proof.
  induction fuel as [|fuel IH]; intros successors batch x Hb Hx.
  - destruct successors; simpl in Hb; by apply elem_of_nil in Hb.
  - destruct successors as [|y successors]; simpl in Hb.
    { by apply elem_of_nil in Hb. }
    apply elem_of_cons in Hb as [->|Hb].
    + by eapply (subseteq_take n (y :: successors)).
    + eapply (subseteq_drop n (y :: successors)). by eapply IH.
Qed.

(** The state a batch loop returns is that of a task the stream yielded. *)
Lemma verdict_loop_returns_task deterministic s : forall oor l st message l',
  verdict_loop deterministic s oor l = (Return (Some st) message, l') ->
  exists t, t ∈ stream_tasks s /\ st = state (successor t).
Proof.
  induction s as [|t rest IH|e]; intros oor l st message l'; simpl;
    [done| |done].
  intros H.
  assert (forall oor l,
            verdict_loop deterministic rest oor l
              = (Return (Some st) message, l') ->
            exists u, u ∈ t :: stream_tasks rest /\ st = state (successor u))
    as Hrest.
  { intros oor0 l0 H0. destruct (IH _ _ _ _ _ H0) as (u & Hu & ->).
    exists u. split; [by right|done]. }
  destruct (task_status t), deterministic; unfold error_msg_plus in H;
    try destruct (error_msg t); simplify_eq; eauto.
  all: exists t; split; [left|done].
Qed.

Section Reachable.

(** The tasks the environment yields for a batch evaluate candidates of
    that batch. *)
Hypothesis run_evaluates_batch : forall env batch callback t,
  t ∈ stream_tasks (run env batch callback).2 -> successor t ∈ batch.

Lemma batches_loop_returns_candidate deterministic batches :
  forall env oor l env' st message l',
  batches_loop Env run deterministic env batches oor l
    = (env', inr (Some st, message), l') ->
  exists batch succ, batch ∈ batches /\ succ ∈ batch /\ state succ = st.
Proof.
  induction batches as [|batch batches IH];
    intros env oor l env' st message l'; simpl; [done|].
  pose proof (run_evaluates_batch env batch
    (on_task_completed deterministic (seq 0 (length batch)))) as Hb.
  destruct (run env batch _) as [env1 s]. simpl in Hb.
  destruct (verdict_loop deterministic s oor l) as [[st' m|e|oor'] l1] eqn:Hv.
  - intros; simplify_eq.
    destruct (verdict_loop_returns_task _ _ _ _ _ _ _ Hv) as (t & Ht & ->).
    exists batch, (successor t). split; [left|]. split; [by apply Hb|done].
  - done.
  - intros H. destruct (IH _ _ _ _ _ _ _ H) as (b & succ & Hb' & Hs & <-).
    exists b, succ. split; [by right|done].
Qed.

Lemma search_loop_reachable initial fuel : forall deterministic env current
    improving_state message l result,
  rtc (successor_step get_successors) initial current ->
  (forall st, improving_state = Some (Some st) ->
     rtc (successor_step get_successors) initial st) ->
  (search_loop fuel deterministic env current improving_state message l).1.2
    = Returned result ->
  rtc (successor_step get_successors) initial result.
Proof.
  induction fuel as [|fuel IH];
    intros deterministic env current improving_state message l result
      Hcur Himp; simpl; [done|].
  destruct (Search._get_improving_successor Env batch_size run _ _ _ _)
    as [[env1 v] l1] eqn:Hcall.
  assert (forall st m, v = inr (Some st, m) ->
            rtc (successor_step get_successors) initial st) as Hnew.
  { intros st m ->. unfold Search._get_improving_successor in Hcall.
    destruct (batches_loop_returns_candidate _ _ _ _ _ _ _ _ _ Hcall)
      as (batch & succ & Hbatch & Hsucc & <-).
    eapply rtc_r; [exact Hcur|]. exists succ. split; [|done].
    eapply batched_fuel_elem; [exact Hbatch|exact Hsucc]. }
  assert (forall imp msg l2,
    (forall st, imp = Some (Some st) ->
       rtc (successor_step get_successors) initial st) ->
    (match msg with
     | None => (env1, Raised (UnboundLocalError "message"), l2)
     | Some m =>
         let l3 := if bool_decide (m = "") then l2 else logging INFO m l2 in
         match imp with
         | None => (env1, Raised (UnboundLocalError "improving_state"), l3)
         | Some (Some st) =>
             if truthy st
             then search_loop fuel deterministic env1 st imp msg l3
             else (env1, Returned current, l3)
         | Some None => (env1, Returned current, l3)
         end
     end).1.2 = Returned result ->
    rtc (successor_step get_successors) initial result) as Hrest.
  { intros imp msg l2 Himp'. destruct msg as [m|]; [|done]. simpl.
    destruct imp as [[st|]|]; simpl; [| |done].
    - destruct (truthy st).
      + apply IH; [by apply Himp'|done].
      + simpl. by intros [= <-].
    - by intros [= <-]. }
  destruct v as [e|[st m]].
  - destruct e; try done; by apply Hrest.
  - apply (Hrest (Some st) (Some m) l1). intros st' [= ->]. by eapply Hnew.
Qed.

(** X2. Hill climbing stays inside the successor graph: when the search returns
    a state, that state is reached from the initial state by steps of the
    successor generator. *)
Theorem search_result_is_reachable
    fuel initial_state env deterministic l result :
  (search fuel initial_state env deterministic l).1.2 = Returned result ->
  rtc (successor_step get_successors) initial_state result.
Proof.
  unfold Search.search.
  destruct (run (start_new_iteration env) _ _) as [env1 s].
  destruct (verify_initial deterministic s l) as [[e|[]] l1]; [done|].
  by apply search_loop_reachable.
Qed.

End Reachable.

End SearchBehaviour.

(** *** Runs with an environment that evaluates in order *)

Section LocalRuns.

Import Search DriverSpec.

Lemma stream_tasks_of_list {State} (tasks : list (@EvaluationTask State)) :
  stream_tasks (stream_of_list tasks) = tasks.
Proof. induction tasks as [|t tasks IH]; simpl; congruence. Qed.

Lemma local_tasks_in_batch {State} (has_property : State -> bool) batch :
  forall i t, t ∈ local_tasks has_property i batch -> successor t ∈ batch.
Proof.
  induction batch as [|succ batch IH]; intros i t Ht; simpl in Ht.
  - by apply elem_of_nil in Ht.
  - apply elem_of_cons in Ht as [->|Ht]; [left|right]. by eapply IH.
Qed.

Lemma local_tasks_rejected {State} (batch : list (@Successor State)) :
  forall i,
  Forall (fun t => task_status t = DONE_AND_BEHAVIOR_NOT_PRESENT)
    (local_tasks (fun _ => false) i batch).
Proof. induction batch as [|succ batch IH]; intros i; simpl; auto. Qed.

(** With an evaluator that rejects everything, the search keeps state 7. *)
Lemma search_returns_current_when_all_rejected_witness :
  (forall env batch callback,
     all_rejected (local_run (fun _ : nat => false) env batch callback).2)
  /\ exists env',
       search_loop (fun _ => true) nat (fun _ => 2) id
         (local_run (fun _ => false)) decrement 1 false 0 7 None None []
       = (env', Returned 7, [(INFO, "No improving successor was found.")]).
Proof.
  assert (forall env batch callback,
            all_rejected (local_run (fun _ : nat => false) env batch
                            callback).2) as Hrun.
  { intros env batch callback. eexists. split; [reflexivity|].
    apply local_tasks_rejected. }
  split; [exact Hrun|].
  exact (proj2 (search_returns_current_when_all_rejected (fun _ => true)
                  (fun _ => 2) id (local_run (fun _ => false)) decrement
                  0 false 0 7 None None [] Hrun)).
Defined.

(** A search from a state without successors returns it at once. *)
Lemma search_without_successors_witness :
  let t := task 0 0 "Initial state" DONE_AND_BEHAVIOR_PRESENT in
  let run := scripted [Yield t Done] in
  (run (id 0) [mkSuccessor 0 "Initial state"] (fun _ => None)
     = (1, Yield t Done)
   /\ task_status t = DONE_AND_BEHAVIOR_PRESENT /\ decrement 0 = [])
  /\ search (fun _ => true) nat (fun _ => 2) id run decrement 1 0 0 true []
     = (1, Returned 0,
        [(INFO, "Initial has property."); (INFO, "Starting search ...");
         (INFO, "No improving successor was found.")]).
Proof.
  intros t run. split; [repeat split|].
  exact (search_without_successors (fun _ => true) (fun _ => 2) id run
           decrement 0 0 0 1 true [] t eq_refl eq_refl eq_refl).
Defined.

(** The verdict of the batch NotPresent, Critical, Present in deterministic
    mode is that of the batch NotPresent, Critical. *)
Lemma deterministic_verdict_is_first_decisive_witness :
  let tasks := [task 0 10 "a" DONE_AND_BEHAVIOR_NOT_PRESENT] in
  let t := task 1 11 "b" CRITICAL in
  let rest := Yield (task 2 12 "c" DONE_AND_BEHAVIOR_PRESENT) Done in
  (Forall (fun u => task_status u = DONE_AND_BEHAVIOR_NOT_PRESENT) tasks
   /\ task_status t <> DONE_AND_BEHAVIOR_NOT_PRESENT)
  /\ verdict_loop true (prepend tasks (Yield t rest)) [] []
     = verdict_loop true (Yield t Done) [] [].
Proof.
  intros tasks t rest.
  assert (Forall (fun u => task_status u = DONE_AND_BEHAVIOR_NOT_PRESENT)
            tasks) as Htasks by (repeat constructor).
  assert (task_status t <> DONE_AND_BEHAVIOR_NOT_PRESENT) as Ht
    by discriminate.
  split; [split; assumption|].
  exact (deterministic_verdict_is_first_decisive tasks t rest [] []
           Htasks Ht).
Defined.

(** The search from 7 with the property "at least 5" returns 5, which is
    reached from 7 by decrements. *)
Lemma search_result_is_reachable_witness :
  let run := local_run (fun st => 5 <=? st) in
  let result :=
    search (fun _ => true) nat (fun _ => 2) id run decrement 10 7 0 false []
  in
  ((forall env batch callback t,
      t ∈ stream_tasks (run env batch callback).2 -> successor t ∈ batch)
   /\ result.1.2 = Returned 5)
  /\ rtc (successor_step decrement) 7 5.
Proof.
  intros run result.
  assert (forall env batch callback t,
            t ∈ stream_tasks (run env batch callback).2 ->
            successor t ∈ batch) as Hrun.
  { intros env batch callback t. unfold run, local_run. simpl.
    rewrite stream_tasks_of_list. apply local_tasks_in_batch. }
  assert (result.1.2 = Returned 5) as Hresult by reflexivity.
  split; [split; assumption|].
  exact (search_result_is_reachable (fun _ => true) (fun _ => 2) id run
           decrement Hrun 10 7 0 false [] 5 Hresult).
Defined.

End LocalRuns.

(** ** More on the reader *)

Section ReaderBehaviour.

Import SasTasks SasFiles ReaderSpec RoundTripSpec Fixtures.

(** X8. Lines before the first begin_metric, such as a version section, are
    skipped: the reader returns what it returns without them. *)
Theorem read_task_skips_preamble pre lines :
  "begin_metric" ∉ pre -> _read_task (pre ++ lines) = _read_task lines.
Proof.
  intros Hpre.
  assert (skip_to_begin_metric (pre ++ lines) = skip_to_begin_metric lines)
    as Hskip.
  { induction pre as [|x pre IH]; simpl; [done|].
    apply not_elem_of_cons in Hpre as [Hx Hpre].
    rewrite bool_decide_eq_false_2 by congruence. by apply IH. }
  unfold _read_task, _read_task_lines, mbind at 1 3, reader_bind at 1 3.
  by rewrite Hskip.
Qed.

Lemma read_task_skips_preamble_witness :
  ("begin_metric" ∉ ["begin_version"; "3"; "end_version"])
  /\ _read_task (["begin_version"; "3"; "end_version"] ++ minimal_file "1")
     = inr (minimal_task true).
Proof.
  assert ("begin_metric" ∉ ["begin_version"; "3"; "end_version"]) as Hpre.
  { intros H. repeat (apply elem_of_cons in H as [H|H]; [discriminate|]).
    by apply elem_of_nil in H. }
  split; [exact Hpre|].
  exact (read_task_skips_preamble _ (minimal_file "1") Hpre).
Defined.

(** *** Lines after the last section *)

Lemma ignores_rest_ret {A} (x : A) : ignores_rest (mret x).
Proof. intros lines y rest extra [= <- <-]. done. Qed.

Lemma ignores_rest_raise {A} e : ignores_rest (@raise A e).
Proof. intros lines y rest extra. done. Qed.

Lemma ignores_rest_bind {A B} (m : reader A) (f : A -> reader B) :
  ignores_rest m -> (forall a, ignores_rest (f a)) -> ignores_rest (m ≫= f).
Proof.
  intros Hm Hf lines y rest extra H.
  apply bind_inr in H as (a & lines' & Ha & H).
  erewrite bind_returns by (by apply Hm). by apply Hf.
Qed.

Lemma ignores_rest_next : ignores_rest next.
Proof.
  intros [|line lines] y rest extra; simpl; [done|]. by intros [= <- <-].
Qed.

Local Ltac ignoring :=
  repeat first
    [ apply ignores_rest_ret
    | apply ignores_rest_next
    | apply ignores_rest_raise
    | apply ignores_rest_bind; [|intros ?]
    | progress case_match ].

Lemma ignores_rest_expect d : ignores_rest (expect d).
Proof. unfold expect. ignoring. Qed.

Lemma ignores_rest_next_int : ignores_rest next_int.
Proof. unfold next_int. ignoring. Qed.

Lemma ignores_rest_int_list line : ignores_rest (int_list line).
Proof. unfold int_list. ignoring. Qed.

Lemma ignores_rest_next_fact : ignores_rest next_fact.
Proof. unfold next_fact. ignoring. apply ignores_rest_int_list. Qed.

Lemma ignores_rest_repeat {A} n (body : reader A) acc :
  ignores_rest body -> ignores_rest (repeat n body acc).
Proof.
  intros Hbody. revert acc.
  induction n as [|n IH]; intros acc; simpl; ignoring; done.
Qed.

Lemma ignores_rest_read_variables num_vars :
  ignores_rest (_read_variables num_vars).
Proof.
  unfold _read_variables. generalize (@nil Z) at 1 as axiom_layers.
  generalize (@nil Z) as ranges.
  generalize (@nil (list string)) as value_name_lists.
  induction (times num_vars) as [|n IH]; intros; simpl; ignoring;
    auto using ignores_rest_expect, ignores_rest_next_int,
               ignores_rest_repeat, ignores_rest_next.
Qed.

Lemma ignores_rest_read_effect : ignores_rest _read_effect.
Proof. unfold _read_effect. ignoring; apply ignores_rest_int_list. Qed.

Lemma ignores_rest_skip : ignores_rest skip_to_begin_metric.
Proof.
  intros lines. induction lines as [|x lines IH]; intros y rest extra;
    simpl; [done|].
  case_bool_decide; [by intros [= <- <-]|apply IH].
Qed.

Lemma ignores_rest_read_task_lines : ignores_rest _read_task_lines.
Proof.
  unfold _read_task_lines, _read_mutexes, _read_mutex, _read_init_state,
    _read_goal, _read_operators, _read_operator, _read_axioms, _read_axiom.
  ignoring;
    auto using ignores_rest_expect, ignores_rest_next_int,
               ignores_rest_read_variables, ignores_rest_next_fact,
               ignores_rest_int_list, ignores_rest_skip.
  - apply ignores_rest_repeat. ignoring;
      auto using ignores_rest_expect, ignores_rest_next_int,
                 ignores_rest_repeat, ignores_rest_next_fact.
  - apply ignores_rest_repeat, ignores_rest_next_int.
  - apply ignores_rest_repeat, ignores_rest_next_fact.
  - apply ignores_rest_repeat. ignoring;
      auto using ignores_rest_expect, ignores_rest_next_int,
                 ignores_rest_repeat, ignores_rest_next_fact,
                 ignores_rest_read_effect.
  - apply ignores_rest_repeat. ignoring;
      auto using ignores_rest_expect, ignores_rest_next_int,
                 ignores_rest_repeat, ignores_rest_next_fact,
                 ignores_rest_int_list.
Qed.

(** X9. The reader stops after the last axiom: whatever lines follow a file it
    accepts, with them it returns the same task. *)
Theorem read_task_ignores_trailing_lines lines extra t :
  _read_task lines = inr t -> _read_task (lines ++ extra) = inr t.
Proof.
  unfold _read_task.
  destruct (_read_task_lines lines) as [e|[t' rest]] eqn:H; [done|].
  intros [= ->].
  by rewrite (ignores_rest_read_task_lines _ _ _ extra H).
Qed.

Lemma read_task_ignores_trailing_lines_witness :
  _read_task (minimal_file "1") = inr (minimal_task true)
  /\ _read_task (minimal_file "1" ++ ["begin_rule"; "garbage"])
     = inr (minimal_task true).
Proof.
  assert (_read_task (minimal_file "1") = inr (minimal_task true)) as H
    by reflexivity.
  split; [exact H|].
  exact (read_task_ignores_trailing_lines _ ["begin_rule"; "garbage"] _ H).
Defined.

(** *** What the reader builds *)

Lemma repeat_ensures {A} (body : reader A) (P : A -> Prop) n :
  ensures body P ->
  forall acc,
    ensures (repeat n body acc)
      (fun res => exists xs, res = acc ++ xs /\ length xs = n /\ Forall P xs).
Proof.
  intros Hbody. induction n as [|n IH]; intros acc lines res rest; simpl.
  - intros [= <- <-]. exists []. by rewrite app_nil_r.
  - intros H. apply bind_inr in H as (x & lines' & Hx & H).
    apply IH in H as (xs & -> & <- & Hxs). exists (x :: xs).
    split; [by rewrite <- app_assoc|]. split; [done|].
    constructor; [by eapply Hbody|done].
Qed.

Lemma repeat_length {A} (body : reader A) n lines res rest :
  repeat n body [] lines = inr (res, rest) -> length res = n.
Proof.
  intros H.
  apply (repeat_ensures body (fun _ => True) n) in H as (xs & -> & <- & _);
    done.
Qed.

Lemma read_variables_loop_shape n :
  forall axiom_layers ranges value_name_lists lines vs rest,
  _read_variables_loop n axiom_layers ranges value_name_lists lines
    = inr (vs, rest) ->
  length axiom_layers = length ranges ->
  Forall2 (fun size names => length names = times size)
    ranges value_name_lists ->
  length (SasTasks.ranges vs) = (length ranges + n)%nat /\
  length (SasTasks.axiom_layers vs) = length (SasTasks.ranges vs) /\
  Forall2 (fun size names => length names = times size)
    (SasTasks.ranges vs) (value_names vs).
Proof.
  induction n as [|n IH]; intros al rs vn lines vs rest; simpl.
  - intros [= <- <-] Hlen Hnames. simpl. auto with lia.
  - intros H Hlen Hnames.
    repeat (apply bind_inr in H as (? & ? & ? & H)).
    apply IH in H as (Hr1 & Hr2 & Hr3).
    + rewrite length_app in Hr1. simpl in Hr1. split; [lia|done].
    + rewrite !length_app. simpl. lia.
    + apply Forall2_app; [done|]. constructor; [|constructor].
      by eapply repeat_length.
Qed.

Lemma read_operators_wrapped : ensures _read_operator
  (fun o => exists inner, name o = "(" +:+ inner +:+ ")").
Proof.
  intros lines o rest H. unfold _read_operator in H.
  repeat (apply bind_inr in H as (? & ? & ? & H)).
  injection H as <- _. simpl. eauto.
Qed.

Lemma read_task_builds lines t :
  _read_task lines = inr t ->
  length (axiom_layers (variables t)) = length (ranges (variables t))
  /\ Forall2 (fun size names => length names = times size)
       (ranges (variables t)) (value_names (variables t))
  /\ length (init t) = length (ranges (variables t))
  /\ names_wrapped (operators t)
  /\ validate t = true.
Proof.
  unfold _read_task.
  destruct (_read_task_lines lines) as [e|[t' rest]] eqn:H; [done|].
  intros [= ->]. unfold _read_task_lines in H.
  repeat (apply bind_inr in H as (? & ? & ? & H)).
  unfold mret, reader_ret, raise in H.
  destruct (validate _) eqn:Hvalid; [|discriminate H].
  injection H as <- _. simpl.
  match goal with
  | Hv : _read_variables _ _ = inr _ |- _ =>
      apply read_variables_loop_shape in Hv as (Hv1 & Hv2 & Hv3);
        [|done|constructor]
  end.
  match goal with
  | Hi : _read_init_state _ _ = inr _ |- _ =>
      unfold _read_init_state in Hi;
      repeat (apply bind_inr in Hi as (? & ? & ? & Hi));
      injection Hi as <- _
  end.
  match goal with
  | Hi : repeat _ next_int _ _ = inr _ |- _ => apply repeat_length in Hi
  end.
  match goal with
  | Ho : _read_operators _ _ = inr _ |- _ =>
      apply (repeat_ensures _ _ _ read_operators_wrapped) in Ho
        as (ops & -> & _ & Hops)
  end.
  simpl in *. repeat split; try done. lia.
Qed.

(** X10. Every task the reader returns has its three variable lists of one
    length, as many value names for each variable as its domain size says
    (none for a negative size), one initial value per variable, operator
    names wrapped in parentheses, and has passed the validation. *)
Theorem read_task_shape lines t :
  _read_task lines = inr t ->
  length (axiom_layers (variables t)) = length (ranges (variables t))
  /\ Forall2 (fun size names => length names = times size)
       (ranges (variables t)) (value_names (variables t))
  /\ length (init t) = length (ranges (variables t))
  /\ names_wrapped (operators t)
  /\ validate t = true.
Proof. apply read_task_builds. Qed.

Lemma read_task_shape_witness :
  _read_task (minimal_file "1") = inr (minimal_task true)
  /\ names_wrapped (operators (minimal_task true))
  /\ length (init (minimal_task true))
     = length (ranges (variables (minimal_task true))).
Proof.
  assert (_read_task (minimal_file "1") = inr (minimal_task true)) as H
    by reflexivity.
  split; [exact H|].
  pose proof (read_task_shape _ _ H) as (_ & _ & Hinit & Hnames & _).
  split; assumption.
Defined.

(** X11. A count larger than the number of values in the state section makes
    the reader take the line end_state for a value: it raises
    [ValueError]. *)
Theorem state_section_too_short n vals rest :
  Forall (fun v => is_Some (Py.int v)) vals ->
  (length vals < times n)%nat ->
  _read_init_state n ("begin_state" :: vals ++ "end_state" :: rest)
  = inl ValueError.
Proof.
  intros Hvals Hlen. unfold _read_init_state.
  erewrite bind_returns by apply expect_match.
  apply bind_fails.
  generalize (@nil Z) as acc. revert Hlen. generalize (times n) as k.
  induction Hvals as [|v vals [z Hz] _ IH]; intros k Hlen acc.
  - destruct k as [|k]; [simpl in Hlen; lia|]. simpl.
    apply bind_fails. unfold next_int. by erewrite bind_returns by reflexivity.
  - destruct k as [|k]; [simpl in Hlen; lia|]. simpl.
    erewrite bind_returns.
    2:{ unfold next_int. erewrite bind_returns by reflexivity.
        by rewrite Hz. }
    apply IH. simpl in Hlen. lia.
Qed.

Lemma state_section_too_short_witness :
  (Forall (fun v => is_Some (Py.int v)) ["0"] /\ (length ["0"] < times 2)%nat)
  /\ _read_init_state 2 ["begin_state"; "0"; "end_state"] = inl ValueError.
Proof.
  assert (Forall (fun v => is_Some (Py.int v)) ["0"]) as Hvals
    by (repeat constructor; by eexists).
  assert (length ["0"] < times 2)%nat as Hlen by (vm_compute; lia).
  split; [split; assumption|].
  exact (state_section_too_short 2 ["0"] [] Hvals Hlen).
Defined.

End ReaderBehaviour.

(** ** More on the renaming *)

Section RenameBehaviour.

Import SasTasks SasFiles RenameSpec Fixtures.

Lemma same_but_name_insert operators i o new_name :
  operators !! i = Some o ->
  Forall2 same_but_name operators (<[i := set_name o new_name]> operators).
Proof.
  intros Hi. rewrite <- (list_insert_id operators i o) at 1 by done.
  apply Forall2_insert; [|done].
  apply Forall_Forall2_diag, Forall_forall. done.
Qed.

Lemma rename_operators_shape is_ : forall operators operators',
  rename_operators is_ operators = inr operators' ->
  Forall2 same_but_name operators operators'.
Proof.
  induction is_ as [|i is_ IH]; intros operators operators'; simpl.
  - intros [= <-]. apply Forall_Forall2_diag, Forall_forall. done.
  - destruct (operators !! i) as [o|] eqn:Hi; [|done].
    destruct (alphabet_at i) as [e|c]; [done|]. intros H. apply IH in H.
    eapply Forall2_trans; [|by eapply same_but_name_insert|exact H].
    intros o1 o2 o3 (? & ? & ?) (? & ? & ?). repeat split; congruence.
Qed.

Lemma rename_values_shape i js : forall value_names value_names',
  rename_values i js value_names = inr value_names' ->
  Forall2 (fun names names' => length names = length names')
    value_names value_names'.
Proof.
  induction js as [|j js IH]; intros vn vn'; simpl.
  - intros [= <-]. apply Forall_Forall2_diag, Forall_forall. done.
  - destruct (alphabet_at j) as [e|c]; [done|].
    destruct (vn !! i) as [names|] eqn:Hi; [|done].
    case_bool_decide; [|done]. intros Hrec. apply IH in Hrec.
    assert (Forall2 (fun names names' => length names = length names') vn
              (<[i := <[j := String (Py.upper c) (Py.str (Z.of_nat i))]>
                        names]> vn)) as Hstep.
    { rewrite <- (list_insert_id vn i names) at 1 by done.
      apply Forall2_insert.
      + apply Forall_Forall2_diag, Forall_forall. done.
      + by rewrite length_insert. }
    eapply Forall2_trans; [|exact Hstep|exact Hrec].
    intros l1 l2 l3 E1 E2. simpl in *. congruence.
Qed.

Lemma rename_variables_shape ranges : forall i value_names value_names',
  rename_variables i ranges value_names = inr value_names' ->
  Forall2 (fun names names' => length names = length names')
    value_names value_names'.
Proof.
  induction ranges as [|size ranges IH]; intros i vn vn'; simpl.
  - intros [= <-]. apply Forall_Forall2_diag, Forall_forall. done.
  - destruct (rename_values _ _ _) as [e|vn1] eqn:H1; [done|].
    intros H. apply IH in H. apply rename_values_shape in H1.
    eapply Forall2_trans; [|exact H1|exact H].
    intros l1 l2 l3 E1 E2. by rewrite E1.
Qed.

(** X12. Whenever the renaming succeeds, only names have changed: domain sizes,
    axiom layers, mutex groups, initial state, goal, axioms and the metric
    flag are the same, every operator keeps its conditions, effects and
    cost, and every variable keeps the number of its value names. *)
Theorem renamed_sas_changes_names_only sas_task new_task :
  renamed_sas sas_task = inr new_task ->
  ranges (variables new_task) = ranges (variables sas_task)
  /\ axiom_layers (variables new_task) = axiom_layers (variables sas_task)
  /\ mutexes new_task = mutexes sas_task
  /\ init new_task = init sas_task
  /\ goal new_task = goal sas_task
  /\ axioms new_task = axioms sas_task
  /\ metric new_task = metric sas_task
  /\ Forall2 same_but_name (operators sas_task) (operators new_task)
  /\ Forall2 (fun names names' => length names = length names')
       (value_names (variables sas_task))
       (value_names (variables new_task)).
Proof.
  unfold renamed_sas.
  destruct (rename_variables _ _ _) as [e|vn] eqn:Hv; [done|].
  destruct (rename_operators _ _) as [e|ops] eqn:Ho; [done|].
  intros [= <-]. simpl. repeat split; try done.
  - by eapply rename_operators_shape.
  - by eapply rename_variables_shape.
Qed.

Lemma renamed_sas_changes_names_only_witness :
  renamed_sas (minimal_task true) = inr (renamed (minimal_task true))
  /\ Forall2 same_but_name (operators (minimal_task true))
       (operators (renamed (minimal_task true))).
Proof.
  assert (renamed_sas (minimal_task true)
          = inr (renamed (minimal_task true))) as H by reflexivity.
  split; [exact H|].
  exact (proj1 (proj2 (proj2 (proj2 (proj2 (proj2 (proj2 (proj2
           (renamed_sas_changes_names_only _ _ H))))))))).
Defined.

(** A renaming that succeeds has met no domain size and no operator count
    above 26. *)
Lemma renamed_sas_bounds sas_task new_task :
  renamed_sas sas_task = inr new_task ->
  Forall (fun size => (size <= 26)%Z) (ranges (variables sas_task))
  /\ length (operators sas_task) <= 26.
Proof.
  unfold renamed_sas.
  destruct (rename_variables _ _ _) as [e|vn] eqn:Hv; [done|].
  destruct (rename_operators _ _) as [e|ops] eqn:Ho; [done|]. intros _.
  split.
  - destruct (decide (Forall (fun size => (size <= 26)%Z)
                        (ranges (variables sas_task)))) as [|Hn]; [done|].
    apply not_Forall_Exists in Hn; [|apply _].
    destruct (rename_variables_too_large (ranges (variables sas_task)) 0
                (value_names (variables sas_task))) as [e He];
      [|congruence].
    eapply Exists_impl; [exact Hn|]. simpl. intros size Hsize. lia.
  - destruct (decide (length (operators sas_task) <= 26)) as [|Hn]; [done|].
    destruct (rename_operators_too_many (length (operators sas_task)) 0
                (operators sas_task)) as [e He]; [lia|congruence].
Qed.

Lemma renamed_sas_consistent sas_task :
  names_match_ranges (variables sas_task) ->
  Forall (fun size => (size <= 26)%Z) (ranges (variables sas_task)) ->
  length (operators sas_task) <= 26 ->
  renamed_sas sas_task = inr (renamed sas_task).
Proof.
  intros Hnames Hsizes Hops. unfold renamed_sas, renamed.
  pose proof (rename_variables_ok _ [] _ Hnames Hsizes) as Hv.
  simpl in Hv. rewrite Hv.
  pose proof (rename_operators_ok (operators sas_task) []) as Ho.
  simpl in Ho. by rewrite Ho.
Qed.

Lemma renamed_renamed sas_task : renamed (renamed sas_task) = renamed sas_task.
Proof.
  unfold renamed. simpl. f_equal.
  - f_equal. apply list_eq. intros i. rewrite !list_lookup_imap.
    destruct (value_names (variables sas_task) !! i) as [names|]; [|done].
    simpl. f_equal. apply list_eq. intros j. rewrite !list_lookup_imap.
    by destruct (names !! j).
  - apply list_eq. intros i. rewrite !list_lookup_imap.
    by destruct (operators sas_task !! i).
Qed.

(** X13. Renaming twice is renaming once: for a task whose variables have as
    many value names as their domain sizes say, a renaming that succeeds
    yields a task that the renaming leaves as it is. *)
Theorem renamed_sas_idempotent sas_task new_task :
  names_match_ranges (variables sas_task) ->
  renamed_sas sas_task = inr new_task ->
  renamed_sas new_task = inr new_task.
Proof.
  intros Hnames H.
  destruct (renamed_sas_bounds _ _ H) as [Hsizes Hops].
  rewrite renamed_sas_consistent in H by done. injection H as <-.
  rewrite renamed_sas_consistent.
  - by rewrite renamed_renamed.
  - unfold names_match_ranges, renamed in *. simpl.
    apply Forall2_same_length_lookup. split.
    { rewrite length_imap. by eapply Forall2_length. }
    intros i size names' Hsize. rewrite list_lookup_imap.
    destruct (value_names (variables sas_task) !! i) as [names|] eqn:Hi;
      [|done].
    intros [= <-]. rewrite length_imap.
    by eapply (Forall2_lookup_lr _ _ _ i size names) in Hnames.
  - done.
  - unfold renamed. simpl. by rewrite length_imap.
Qed.

Lemma renamed_sas_idempotent_witness :
  (names_match_ranges (variables (minimal_task true))
   /\ renamed_sas (minimal_task true) = inr (renamed (minimal_task true)))
  /\ renamed_sas (renamed (minimal_task true))
     = inr (renamed (minimal_task true)).
Proof.
  assert (names_match_ranges (variables (minimal_task true))) as Hnames
    by (repeat constructor).
  assert (renamed_sas (minimal_task true)
          = inr (renamed (minimal_task true))) as H by reflexivity.
  split; [split; assumption|].
  exact (renamed_sas_idempotent _ _ Hnames H).
Defined.

End RenameBehaviour.

(** ** The round trip in general, and the renaming script *)

Section Pipeline.

Import SasTasks SasFiles ReaderSpec RenameSpec RoundTripSpec Fixtures.
Local Open Scope Z_scope.

(** Only the emptiness of the metric line matters to the reader. *)
Lemma read_metric_line_irrelevant m1 m2 rest :
  m1 <> "" -> m2 <> "" ->
  _read_task ("begin_metric" :: m1 :: rest)
  = _read_task ("begin_metric" :: m2 :: rest).
Proof.
  intros H1 H2. unfold _read_task, _read_task_lines.
  erewrite !(bind_returns skip_to_begin_metric) by reflexivity.
  erewrite !(bind_returns next) by reflexivity.
  unfold bool_of_str. by rewrite !bool_decide_eq_false_2 by done.
Qed.

Lemma read_output_sets_metric T :
  variables_consistent (variables T) ->
  length (init T) = length (ranges (variables T)) ->
  names_wrapped (operators T) ->
  validate T = true ->
  _read_task (output T) = inr (with_metric_on T).
Proof.
  intros Hvars Hinit Hnames Hvalid.
  assert (validate (with_metric_on T) = true) as Hvalid'
    by (by destruct T).
  rewrite <- (read_output_with_metric_on (with_metric_on T)); try done.
  unfold output. simpl. by destruct (metric T);
    [|apply read_metric_line_irrelevant].
Qed.

(** A task that passes the validation has positive domain sizes only: the
    initial value of each variable lies inside its domain. *)
Lemma validate_sizes_positive t :
  validate t = true ->
  Forall (fun size => 0 < size) (ranges (variables t)).
Proof.
  unfold validate. intros H.
  repeat (apply andb_prop in H as [H ?]).
  match goal with
  | Hlen : bool_decide (_ = _) = true |- _ =>
      apply bool_decide_eq_true in Hlen; rename Hlen into Hinit
  end.
  match goal with
  | Hf : forallb _ (imap _ _) = true |- _ =>
      apply Is_true_true, forallb_True in Hf; rename Hf into Hlegal
  end.
  apply Forall_lookup. intros i size Hsize.
  destruct (init t !! i) as [val|] eqn:Hval.
  2:{ apply lookup_ge_None in Hval. apply lookup_lt_Some in Hsize. lia. }
  rewrite Forall_lookup in Hlegal.
  specialize (Hlegal i (Z.of_nat i, val)).
  rewrite list_lookup_imap, Hval in Hlegal. specialize (Hlegal eq_refl).
  unfold legal_fact in Hlegal. rewrite Nat2Z.id, Hsize in Hlegal.
  apply Is_true_true in Hlegal.
  repeat (apply andb_prop in Hlegal as [Hlegal ?]). lia.
Qed.

Lemma forallb_imap_set_name (f : SASOperator -> bool) new_name operators :
  (forall o n, f (set_name o n) = f o) ->
  forallb f (imap (fun i o => set_name o (new_name i)) operators)
  = forallb f operators.
Proof.
  intros Hf. revert new_name.
  induction operators as [|o operators IH]; intros new_name; simpl; [done|].
  rewrite Hf. f_equal. apply (IH (new_name ∘ S)).
Qed.

(** The validation does not look at names. *)
Lemma validate_renamed t : validate (renamed t) = validate t.
Proof.
  unfold validate, renamed. simpl.
  by rewrite !forallb_imap_set_name by done.
Qed.

(** X15. What [rename.py] writes is the file of the renamed task, and this file
    is read back as the renamed task, its metric flag set: the script
    accepts its own output. *)
Theorem rename_script_output_reads_back lines out :
  rename_script lines = inr out ->
  exists sas_task,
    _read_task lines = inr sas_task
    /\ out = output (renamed sas_task)
    /\ _read_task out = inr (with_metric_on (renamed sas_task)).
Proof.
  unfold rename_script.
  destruct (_read_task lines) as [e|t] eqn:Hread; [done|].
  destruct (renamed_sas t) as [e|t'] eqn:Hrename; [done|].
  intros [= <-]. exists t.
  destruct (read_task_builds _ _ Hread)
    as (Hlayers & Hnames & Hinit & Hwrapped & Hvalid).
  pose proof (validate_sizes_positive _ Hvalid) as Hpos.
  assert (names_match_ranges (variables t)) as Hmatch.
  { unfold names_match_ranges.
    apply Forall2_same_length_lookup. split; [by eapply Forall2_length|].
    intros i size names Hsize Hi.
    rewrite Forall_lookup in Hpos. specialize (Hpos _ _ Hsize).
    pose proof (Forall2_lookup_lr _ _ _ _ _ _ Hnames Hsize Hi) as Hlen.
    simpl in Hlen. unfold times in Hlen. lia. }
  destruct (renamed_sas_bounds _ _ Hrename) as [Hsizes Hops].
  rewrite renamed_sas_consistent in Hrename by done.
  injection Hrename as <-. repeat split; try done.
  apply read_output_sets_metric.
  - split; [done|]. unfold renamed. simpl.
    apply Forall2_same_length_lookup. split.
    { rewrite length_imap. by eapply Forall2_length. }
    intros i size names' Hsize. rewrite list_lookup_imap.
    destruct (value_names (variables t) !! i) as [names|] eqn:Hi; [|done].
    intros [= <-]. rewrite length_imap.
    by eapply (Forall2_lookup_lr _ _ _ i size names) in Hmatch.
  - done.
  - unfold names_wrapped, renamed. simpl. apply Forall_lookup.
    intros i o. rewrite list_lookup_imap.
    destruct (operators t !! i) as [o'|]; [|done]. intros [= <-].
    by exists (String (letter i) "").
  - by rewrite validate_renamed.
Qed.

Lemma rename_script_output_reads_back_witness :
  rename_script (minimal_file "1") = inr (output (renamed (minimal_task true)))
  /\ _read_task (output (renamed (minimal_task true)))
     = inr (renamed (minimal_task true)).
Proof.
  assert (rename_script (minimal_file "1")
          = inr (output (renamed (minimal_task true)))) as H by reflexivity.
  split; [exact H|].
  destruct (rename_script_output_reads_back _ _ H) as (t & Ht & _ & Hback).
  assert (t = minimal_task true) as ->.
  { assert (_read_task (minimal_file "1") = inr (minimal_task true)) as Hm
      by reflexivity.
    rewrite Hm in Ht. by injection Ht. }
  exact Hback.
Defined.

End Pipeline.

(** ** The round trip through the text of a file *)

Section TextLines.

Import SasTasks SasFiles ReaderSpec RoundTripSpec Fixtures.
Local Arguments String.append : simpl nomatch.

Lemma one_line_append s1 s2 :
  one_line (s1 +:+ s2) <-> one_line s1 /\ one_line s2.
Proof. unfold one_line. rewrite chars_append. apply Forall_app. Qed.

Lemma one_line_str z : one_line (Py.str z).
Proof.
  eapply Forall_impl; [apply str_chars|]. intros c [[d Hd]| ->]; [|done].
  destruct c as [[] [] [] [] [] [] [] []]; by vm_compute in Hd |- *.
Qed.

Lemma one_line_join parts :
  Forall one_line parts -> one_line (Py.join " " parts).
Proof.
  induction 1 as [|p parts Hp Hparts IH]; [constructor|].
  destruct parts as [|q parts]; [done|].
  change (Py.join " " (p :: q :: parts))
    with (p +:+ " " +:+ Py.join " " (q :: parts)).
  rewrite !one_line_append. split; [done|]. split; [|done].
  by repeat constructor.
Qed.

Lemma one_line_fact_line f : one_line (fact_line f).
Proof.
  unfold fact_line. rewrite !one_line_append.
  split; [apply one_line_str|]. split; [by repeat constructor|].
  apply one_line_str.
Qed.

Lemma one_line_effect_line e : one_line (effect_line e).
Proof.
  destruct e as [[[var pre] post] cond]. unfold effect_line.
  apply one_line_join. constructor; [apply one_line_str|].
  apply Forall_app. split.
  - apply Forall_flat_map, Forall_forall. intros f _.
    repeat constructor; apply one_line_str.
  - repeat constructor; apply one_line_str.
Qed.

Lemma one_line_output_variables rs : forall ls ns i,
  Forall (Forall one_line) ns ->
  Forall one_line (output_variables_from i rs ls ns).
Proof.
  induction rs as [|size rs IH]; intros ls ns i Hns; [constructor|].
  destruct ls as [|layer ls]; [constructor|].
  destruct ns as [|names ns]; [constructor|].
  apply Forall_cons in Hns as [Hnames Hns].
  cbn [output_variables_from]. unfold output_variable.
  rewrite !Forall_app. repeat split.
  - repeat constructor; apply one_line_str.
  - done.
  - by repeat constructor.
  - by apply IH.
Qed.

Lemma one_line_output T :
  names_wrapped (operators T) -> names_on_one_line T ->
  Forall one_line (output T).
Proof.
  intros Hwrapped [Hvalues Hnames]. unfold output.
  rewrite !Forall_app. repeat split.
  - repeat constructor. by destruct (metric T); repeat constructor.
  - constructor; [apply one_line_str|]. by apply one_line_output_variables.
  - repeat constructor. apply one_line_str.
  - apply Forall_flat_map, Forall_forall. intros facts _.
    unfold output_mutex. rewrite !Forall_app. repeat split.
    + repeat constructor. apply one_line_str.
    + apply Forall_fmap, Forall_forall. intros f _. apply one_line_fact_line.
    + by repeat constructor.
  - by repeat constructor.
  - apply Forall_fmap, Forall_forall. intros z _. apply one_line_str.
  - by repeat constructor.
  - repeat constructor. apply one_line_str.
  - apply Forall_fmap, Forall_forall. intros f _. apply one_line_fact_line.
  - by repeat constructor.
  - repeat constructor. apply one_line_str.
  - apply Forall_flat_map, Forall_forall. intros o Ho.
    unfold names_wrapped in Hwrapped. rewrite Forall_forall in Hwrapped.
    rewrite Forall_forall in Hnames.
    destruct (Hwrapped o Ho) as [inner Hinner].
    pose proof (Hnames o Ho) as Hname. rewrite Hinner in Hname.
    apply one_line_append in Hname as [_ Hname].
    apply one_line_append in Hname as [Hname _].
    unfold output_operator. rewrite Hinner, unwrap_wrapped.
    rewrite !Forall_app. repeat split.
    + repeat constructor; [done|apply one_line_str].
    + apply Forall_fmap, Forall_forall. intros f _. apply one_line_fact_line.
    + repeat constructor. apply one_line_str.
    + apply Forall_fmap, Forall_forall. intros e _.
      apply one_line_effect_line.
    + repeat constructor. apply one_line_str.
  - repeat constructor. apply one_line_str.
  - apply Forall_flat_map, Forall_forall. intros a _.
    unfold output_axiom. destruct (axiom_effect a) as [var val].
    rewrite !Forall_app. repeat split.
    + repeat constructor. apply one_line_str.
    + apply Forall_fmap, Forall_forall. intros f _. apply one_line_fact_line.
    + repeat constructor.
      apply one_line_join. repeat constructor; apply one_line_str.
Qed.

(** A line without boundary, followed by a line feed, is cut off as it
    is. *)
Lemma splitlines_line line : forall acc text,
  one_line line ->
  Py.splitlines_from acc (line +:+ newline +:+ text)
  = (acc +:+ line) :: Py.splitlines_from "" text.
Proof.
  induction line as [|c line IH]; intros acc text Hline.
  - change ("" +:+ newline +:+ text) with (String "010"%char text).
    simpl. replace (acc +:+ "") with acc
      by (clear; induction acc; simpl; congruence).
    by destruct text.
  - apply Forall_cons in Hline as [Hc Hline].
    change (String c line +:+ newline +:+ text)
      with (String c (line +:+ newline +:+ text)).
    cbn [Py.splitlines_from]. rewrite Hc. rewrite IH by done. f_equal.
    clear. induction acc; simpl; congruence.
Qed.

(** Cutting the printed text at its line boundaries gives back the lines
    that were printed, when none of them holds a boundary. *)
Lemma splitlines_output_text lines :
  Forall one_line lines ->
  Py.splitlines
    (foldr (fun line text => line +:+ newline +:+ text) "" lines)
  = lines.
Proof.
  unfold Py.splitlines.
  induction 1 as [|line lines Hline Hlines IH]; [done|].
  cbn [foldr]. rewrite splitlines_line by done. by rewrite IH.
Qed.

(** X14. Round trip through the file: for every task that passes the
    validation, whose variable lists are consistent, whose initial state
    has one value per variable, whose operator names are wrapped in
    parentheses and whose value names and operator names hold no character
    at which [str.splitlines] cuts, the reader, given the lines of the text
    that [output] prints, returns that task with its metric flag set. *)
Theorem read_output T :
  variables_consistent (variables T) ->
  length (init T) = length (ranges (variables T)) ->
  names_wrapped (operators T) ->
  validate T = true ->
  names_on_one_line T ->
  _read_task (Py.splitlines (SasShim.output_text T))
  = inr (with_metric_on T).
Proof.
  intros Hvars Hinit Hnames Hvalid Hlines. unfold SasShim.output_text.
  rewrite splitlines_output_text by (by apply one_line_output).
  by apply read_output_sets_metric.
Qed.

Lemma read_output_witness :
  (variables_consistent (variables (minimal_task false))
   /\ length (init (minimal_task false))
      = length (ranges (variables (minimal_task false)))
   /\ names_wrapped (operators (minimal_task false))
   /\ validate (minimal_task false) = true
   /\ names_on_one_line (minimal_task false))
  /\ _read_task (Py.splitlines (SasShim.output_text (minimal_task false)))
     = inr (minimal_task true).
Proof.
  assert (variables_consistent (variables (minimal_task false))) as Hvars
    by (split; [reflexivity|repeat constructor]).
  assert (names_wrapped (operators (minimal_task false))) as Hnames
    by (repeat constructor; by exists "op"%string).
  assert (names_on_one_line (minimal_task false)) as Hlines
    by (split; repeat constructor).
  split; [repeat split; try assumption; try apply Hvars; apply Hlines|].
  exact (read_output (minimal_task false) Hvars eq_refl Hnames eq_refl
           Hlines).
Defined.

End TextLines.

(** ** The search ends in a local minimum *)

Section HillClimbing.

Import Search DriverSpec.
Context {State Env : Type}.
Variable truthy : State -> bool.
Variable batch_size : Env -> nat.
Variable start_new_iteration : Env -> Env.
Variable run : Env -> list (@Successor State) ->
               (@EvaluationTask State -> option (list nat)) ->
               Env * @task_stream State.
Variable get_successors : State -> list (@Successor State).
Variable has_property : State -> bool.
Variable size : State -> nat.
Implicit Types (t u : @EvaluationTask State) (s : @task_stream State).
Implicit Types (tasks oor : list (@EvaluationTask State)) (l : log).

Local Abbreviation search := (search truthy Env batch_size
                                start_new_iteration run get_successors).
Local Abbreviation search_loop := (search_loop truthy Env batch_size
                                     start_new_iteration run get_successors).
Local Abbreviation rejected :=
  (Forall (fun succ : @Successor State =>
             has_property (state succ) = false)).

Hypothesis run_evaluates : forall env batch callback,
  evaluates has_property batch (run env batch callback).2.
Hypothesis states_truthy : forall st, truthy st = true.
Hypothesis batches_not_empty : forall env, 0 < batch_size env.
Hypothesis successors_smaller : forall st succ,
  succ ∈ get_successors st -> size (state succ) < size st.

(** The batches cover the successors. *)
Lemma batched_fuel_concat n fuel :
  0 < n -> forall successors : list (@Successor State),
  length successors <= fuel ->
  concat (batched_fuel fuel n successors) = successors.
Proof.
  intros Hn. induction fuel as [|fuel IH]; intros successors Hlen.
  - destruct successors; [done|simpl in Hlen; lia].
  - destruct successors as [|x successors]; [done|].
    simpl batched_fuel. simpl concat. rewrite IH.
    + apply take_drop.
    + rewrite length_drop. simpl in *. lia.
Qed.

(** What the loop over one batch makes of the answers. *)
Lemma verdict_loop_evaluates deterministic batch s oor l :
  evaluates has_property batch s ->
  (verdict_loop deterministic s oor l = (NextBatch oor, l)
   /\ rejected batch)
  \/ exists succ,
       succ ∈ batch /\ has_property (state succ) = true
       /\ verdict_loop deterministic s oor l
          = (Return (Some (state succ)) (change_msg succ), l).
Proof.
  intros (tasks & rest & -> & Htasks & Hrest).
  rewrite loop_skips_rejected
    by (eapply Forall_impl; [exact Htasks|]; by intros t (_ & ? & _)).
  destruct Hrest as [[-> Hcover]|(t & rest' & -> & Hin & Hst & Hp)].
  - left. split; [done|]. apply Forall_forall. intros succ Hsucc.
    apply Hcover, list_elem_of_fmap in Hsucc as (t & -> & Ht).
    rewrite Forall_forall in Htasks. by destruct (Htasks t Ht) as (_ & _ & ?).
  - right. exists (successor t). simpl. by rewrite Hst.
Qed.

Lemma batches_loop_evaluates deterministic batches : forall env oor l,
  exists env',
    (batches_loop Env run deterministic env batches oor l
       = (env', inr (None, no_improving_message oor), l)
     /\ Forall rejected batches)
    \/ exists batch succ,
         batch ∈ batches /\ succ ∈ batch
         /\ has_property (state succ) = true
         /\ batches_loop Env run deterministic env batches oor l
            = (env', inr (Some (state succ), change_msg succ), l).
Proof.
  induction batches as [|batch batches IH]; intros env oor l; simpl.
  - exists env. by left.
  - pose proof (run_evaluates env batch
      (on_task_completed deterministic (seq 0 (length batch)))) as Hb.
    destruct (run env batch _) as [env1 s]. simpl in Hb.
    destruct (verdict_loop_evaluates deterministic batch s oor l Hb)
      as [[-> Hrej]|(succ & Hin & Hp & ->)].
    + destruct (IH env1 oor l)
        as [env' [[-> Hall]|(b & succ & Hb' & Hin & Hp & ->)]].
      * exists env'. left. split; [done|by constructor].
      * exists env'. right. exists b, succ. split; [by right|done].
    + exists env1. right. exists batch, succ. split; [left|done].
Qed.

Lemma search_loop_finds_local_minimum fuel : forall deterministic env current
    improving_state message l,
  has_property current = true ->
  size current < fuel ->
  exists result,
    (search_loop fuel deterministic env current improving_state message l).1.2
      = Returned result
    /\ has_property result = true
    /\ rejected (get_successors result).
Proof.
  induction fuel as [|fuel IH];
    intros deterministic env current improving_state message l Hp Hsize;
    [lia|].
  simpl. unfold _get_improving_successor.
  destruct (batches_loop_evaluates deterministic
              (batched (get_successors current)
                 (batch_size (start_new_iteration env)))
              (start_new_iteration env) [] l)
    as [env' [[-> Hall]|(batch & succ & Hb & Hin & Hps & ->)]].
  - simpl. exists current. split; [done|]. split; [done|].
    rewrite <- (batched_fuel_concat (batch_size (start_new_iteration env))
                  (length (get_successors current))) by auto.
    by apply Forall_concat.
  - simpl. rewrite states_truthy. apply IH; [done|].
    assert (succ ∈ get_successors current) as Hsucc
      by (eapply batched_fuel_elem; [exact Hb|exact Hin]).
    apply successors_smaller in Hsucc. lia.
Qed.

(** X1. First-choice hill climbing ends in a local minimum. With an environment
    that answers by the predicate [has_property], states that are all true
    as Python values, batches of at least one candidate and a successor
    generator that makes states smaller, a search whose initial check
    passes returns a state that has the property and none of whose
    successors has it, within as many iterations as the initial state is
    large plus one. *)
Theorem search_finds_local_minimum fuel initial_state env deterministic l :
  (verify_initial deterministic
     (run (start_new_iteration env)
        [mkSuccessor initial_state "Initial state"] (fun _ => None)).2 l).1
  = inr () ->
  size initial_state < fuel ->
  exists result,
    (search fuel initial_state env deterministic l).1.2 = Returned result
    /\ has_property result = true
    /\ rejected (get_successors result).
Proof.
  intros Hpass Hsize. unfold Search.search.
  pose proof (run_evaluates (start_new_iteration env)
    [mkSuccessor initial_state "Initial state"] (fun _ => None)) as Hb.
  destruct (run (start_new_iteration env) _ _) as [env1 s].
  simpl in Hb, Hpass.
  assert (has_property initial_state = true) as Hp.
  { destruct Hb as (tasks & rest & -> & Htasks & Hrest).
    destruct tasks as [|t tasks].
    - destruct Hrest as [[-> Hcover]|(t & rest' & -> & Hin & Hst & Hp)].
      + specialize (Hcover (mkSuccessor initial_state "Initial state")).
        simpl in Hcover. exfalso. eapply not_elem_of_nil, Hcover. left.
      + apply list_elem_of_singleton in Hin. by rewrite Hin in Hp.
    - apply Forall_cons in Htasks as [(_ & Hst & _) _].
      simpl in Hpass. by rewrite Hst in Hpass. }
  destruct (verify_initial deterministic s l) as [[e|[]] l1]; [done|].
  by apply search_loop_finds_local_minimum.
Qed.

End HillClimbing.

(** *** Runs that end in a local minimum *)

Section LocalMinimumRuns.

Import Search DriverSpec.

Lemma local_tasks_evaluate {State} (has_property : State -> bool) batch :
  forall i,
  evaluates has_property batch
    (stream_of_list (local_tasks has_property i batch)).
Proof.
  induction batch as [|succ batch IH]; intros i.
  - exists [], Done. repeat split; [constructor|]. by left.
  - simpl. destruct (has_property (state succ)) eqn:Hp.
    + exists [], (Yield (mkTask succ i DONE_AND_BEHAVIOR_PRESENT "" None)
                   (stream_of_list (local_tasks has_property (S i) batch))).
      repeat split; [constructor|]. right. eexists _, _.
      repeat split; [left|done].
    + destruct (IH (S i)) as (tasks & rest & Heq & Htasks & Hrest).
      exists (mkTask succ i DONE_AND_BEHAVIOR_NOT_PRESENT "" None :: tasks),
        rest.
      split; [simpl; by rewrite Heq|]. split.
      * constructor; [repeat split; [left|done]|].
        eapply Forall_impl; [exact Htasks|].
        intros t (? & ? & ?). repeat split; [by right|done..].
      * destruct Hrest as [[-> Hcover]|(t & rest' & -> & Hin & Hst & Hpt)].
        -- left. split; [done|]. intros x [->|Hx]%elem_of_cons; [left|].
           right. by apply Hcover.
        -- right. exists t, rest'. repeat split; [by right|done..].
Qed.

(** The search from 7 with the property of being at least 5 returns a state
    that has the property and whose successor lacks it. *)
Lemma search_finds_local_minimum_witness :
  let has_property st := 5 <=? st in
  let run := local_run has_property in
  ((forall env batch callback,
      evaluates has_property batch (run env batch callback).2)
   /\ (forall st succ, succ ∈ decrement st -> state succ < st)
   /\ (verify_initial false
         (run (id 0) [mkSuccessor 7 "Initial state"] (fun _ => None)).2
         []).1 = inr ())
  /\ exists result,
       (search (fun _ => true) nat (fun _ => 2) id run decrement
          8 7 0 false []).1.2 = Returned result
       /\ has_property result = true
       /\ Forall (fun succ => has_property (state succ) = false)
            (decrement result).
Proof.
  intros has_property run.
  assert (forall env batch callback,
            evaluates has_property batch (run env batch callback).2)
    as Hrun by (intros; apply local_tasks_evaluate).
  assert (forall st succ, succ ∈ decrement st -> state succ < st) as Hsize.
  { intros [|st] succ Hsucc; simpl in Hsucc.
    - by apply elem_of_nil in Hsucc.
    - apply list_elem_of_singleton in Hsucc as ->. simpl. lia. }
  assert (forall env : nat, 0 < (fun _ => 2) env) as Hbatch
    by (intros _; lia).
  split; [repeat split; assumption|].
  apply (search_finds_local_minimum (fun _ => true) (fun _ => 2) id run
           decrement has_property (fun st => st) Hrun (fun _ => eq_refl)
           Hbatch Hsize 8 7 0 false [] eq_refl).
  lia.
Defined.

End LocalMinimumRuns.

(** ** The evaluator shim for SAS+ files *)

Section SasShimBehaviour.

Import Shim SasTasks SasShim.
Variable KEY_IN_STATE : string.
Variable tmp_name : FS -> string -> string.
Variable read_state : FS -> string -> exn + gmap string SASTask.
Variable evaluate : string -> FS -> FS * (exn + bool).

Local Abbreviation run_evaluator :=
  (run_evaluator KEY_IN_STATE tmp_name read_state evaluate).
Local Abbreviation _run_evaluator_on_sas_file :=
  (_run_evaluator_on_sas_file evaluate).

(** X17. Run on a pickled state, the shim writes the task to a fresh temporary
    file and hands that file to the evaluator; it exits with the code of
    the answer, or with the exception of the evaluator, and leaves the file
    system as the evaluator left it: nothing removes the temporary file. *)
Theorem sas_shim_on_pickled_state filename fs l state task fs2 answer :
  read_state fs filename = inr state ->
  state !! KEY_IN_STATE = Some task ->
  let name := tmp_name fs ".sas" in
  evaluate name (<[name := output_text task]> (<[name := ""]> fs))
    = (fs2, answer) ->
  answer <> inl FileNotFoundError ->
  answer <> inl PickleError ->
  run_evaluator [filename] fs l
  = (fs2,
     inl match answer with
         | inl e => e
         | inr true => SystemExit EXIT_CODE_BEHAVIOR_PRESENT
         | inr false => SystemExit EXIT_CODE_BEHAVIOR_NOT_PRESENT
         end, l).
Proof.
  intros Hread Hkey name Heval Hnf Hnp.
  unfold SasShim.run_evaluator. rewrite Hread.
  unfold with_, temporary_file, NamedTemporaryFile. simpl.
  rewrite Hkey. fold name. unfold write_text.
  unfold SasShim._run_evaluator_on_sas_file. rewrite Heval.
  destruct answer as [e|[]]; [|done..]. destruct e; done.
Qed.

(** X18. The handler of [run_evaluator] also catches what the evaluator raises:
    when the evaluator, run on the temporary file of a pickled state, ends
    in [FileNotFoundError] or [PickleError], the shim runs it a second
    time, on the file of the pickled state itself. *)
Theorem sas_shim_runs_evaluator_again filename fs l state task fs2 e :
  read_state fs filename = inr state ->
  state !! KEY_IN_STATE = Some task ->
  let name := tmp_name fs ".sas" in
  evaluate name (<[name := output_text task]> (<[name := ""]> fs))
    = (fs2, inl e) ->
  e = FileNotFoundError \/ e = PickleError ->
  run_evaluator [filename] fs l
  = (_run_evaluator_on_sas_file filename fs2, l).
Proof.
  intros Hread Hkey name Heval He.
  unfold SasShim.run_evaluator. rewrite Hread.
  unfold with_, temporary_file, NamedTemporaryFile. simpl.
  rewrite Hkey. fold name. unfold write_text.
  unfold SasShim._run_evaluator_on_sas_file at 1. rewrite Heval.
  by destruct He as [-> | ->].
Qed.

(** X19. A pickled state without the key of the task: the shim ends in
    [KeyError] before it calls the evaluator, and the temporary file it
    has created stays behind, empty. *)
Theorem sas_shim_state_without_task filename fs l state :
  read_state fs filename = inr state ->
  state !! KEY_IN_STATE = None ->
  run_evaluator [filename] fs l
  = (<[tmp_name fs ".sas" := ""]> fs, inl KeyError, l).
Proof.
  intros Hread Hkey. unfold SasShim.run_evaluator. rewrite Hread.
  unfold with_, temporary_file, NamedTemporaryFile. simpl.
  by rewrite Hkey.
Qed.

(** X20. The shim never returns to its caller: it leaves by [sys.exit] or by an
    exception. With an evaluator and a state loader that do not themselves
    exit with the critical code, the exit code is the critical one exactly
    when the number of arguments is not one, and then no file is touched,
    the evaluator is not called and one critical record is logged. *)
Theorem sas_shim_critical_exit args fs l :
  (forall name fs', (evaluate name fs').2
                    <> inl (SystemExit EXIT_CODE_CRITICAL)) ->
  (forall name, read_state fs name <> inl (SystemExit EXIT_CODE_CRITICAL)) ->
  (exists e, (run_evaluator args fs l).1.2 = inl e)
  /\ ((run_evaluator args fs l).1.2 = inl (SystemExit EXIT_CODE_CRITICAL)
      <-> length args <> 1)
  /\ (length args <> 1 ->
      exists record,
        run_evaluator args fs l
        = (fs, inl (SystemExit EXIT_CODE_CRITICAL),
           l ++ [(CRITICAL_LOG, record)])).
Proof.
  intros Heval Hread.
  assert (forall name fs',
            exists e, (_run_evaluator_on_sas_file name fs').2 = inl e
                      /\ e <> SystemExit EXIT_CODE_CRITICAL) as Hon.
  { intros name fs'. unfold SasShim._run_evaluator_on_sas_file.
    specialize (Heval name fs').
    destruct (evaluate name fs') as [fs'' [e|[]]]; simpl in *;
      eexists; (split; [reflexivity|]); [congruence|done..]. }
  destruct args as [|filename [|]]; simpl.
  - split; [eauto|]. split; [done|]. intros _. eexists. reflexivity.
  - assert (exists e,
              (run_evaluator [filename] fs l).1.2 = inl e
              /\ e <> SystemExit EXIT_CODE_CRITICAL) as (e & He & Hne).
    { unfold SasShim.run_evaluator.
      specialize (Hread filename).
      destruct (read_state fs filename) as [e|state].
      - destruct e; simpl; try (eexists; split; [reflexivity|congruence]);
          apply Hon.
      - unfold with_, temporary_file, NamedTemporaryFile. simpl.
        destruct (state !! KEY_IN_STATE) as [task|];
          [|by eexists].
        destruct (Hon (tmp_name fs ".sas")
                    (write_text (tmp_name fs ".sas") (output_text task)
                       (<[tmp_name fs ".sas" := ""]> fs)))
          as (e & He & Hne).
        destruct (SasShim._run_evaluator_on_sas_file _ _ _)
          as [fs2 [e'|[]]]; simpl in He; [|done].
        injection He as ->.
        destruct e; simpl; try (eexists; split; [reflexivity|congruence]);
          apply Hon. }
    simpl in He. rewrite He. split; [eauto|]. split; [|done].
    split; [congruence|done].
  - split; [eauto|]. split; [done|]. intros _. eexists. reflexivity.
Qed.

End SasShimBehaviour.

(** ** The domain discovery and the evaluator shim for PDDL files *)

Section DomainDiscovery.

Import Shim PddlFiles.

Lemma first_existing_split fs dirname names :
  match first_existing fs dirname names with
  | Some domain_filename =>
      exists before name after,
        names = before ++ name :: after
        /\ domain_filename = os_path_join dirname name
        /\ os_path_exists fs domain_filename = true
        /\ Forall (fun b => os_path_exists fs (os_path_join dirname b)
                            = false) before
  | None =>
      Forall (fun b => os_path_exists fs (os_path_join dirname b) = false)
        names
  end.
Proof.
  induction names as [|name names IH]; simpl; [constructor|].
  destruct (os_path_exists fs (os_path_join dirname name)) eqn:Hex.
  - by exists [], name, names.
  - destruct (first_existing fs dirname names) as [found|].
    + destruct IH as (before & b & after & -> & -> & Hb & Hbefore).
      exists (name :: before), b, after. repeat split; [done|].
      by constructor.
    + by constructor.
Qed.

(** X21. Whatever the name of the task file, [_find_domain_filename] returns a
    file that exists, named by the first of its candidates that does, and
    logs nothing; it returns nothing exactly when no candidate exists, and
    then logs one critical record. *)
Theorem find_domain_filename_first_existing fs task_filename l :
  let dirname := (os_path_split task_filename).1 in
  let names := domain_basenames (os_path_split task_filename).2 in
  let missing :=
    Forall (fun b => os_path_exists fs (os_path_join dirname b) = false) in
  match _find_domain_filename fs task_filename l with
  | (Some domain_filename, l') =>
      l' = l
      /\ os_path_exists fs domain_filename = true
      /\ exists before name after,
           names = before ++ name :: after
           /\ domain_filename = os_path_join dirname name
           /\ missing before
  | (None, l') =>
      missing names
      /\ l' = l ++ [(CRITICAL_LOG,
                     "Error: Could not find domain file using " +:+
                     "automatic naming rules.")]
  end.
Proof.
  unfold _find_domain_filename.
  destruct (os_path_split task_filename) as [dirname basename]. simpl.
  pose proof (first_existing_split fs dirname (domain_basenames basename))
    as H.
  destruct (first_existing fs dirname (domain_basenames basename))
    as [found|]; [|done].
  destruct H as (before & name & after & Hnames & -> & Hex & Hbefore).
  split; [done|]. split; [done|]. by exists before, name, after.
Qed.

End DomainDiscovery.

Section PddlShimBehaviour.

Import Shim PddlFiles.
Context {PddlTask : Type}.
Variable KEY_IN_STATE : string.
Variable domain_text problem_text : PddlTask -> string.
Variable tmp_name : FS -> string -> string.
Variable read_state : FS -> string -> exn + gmap string PddlTask.
Variable evaluate : option string -> string -> FS -> FS * (exn + bool).

Local Abbreviation run_evaluator :=
  (run_evaluator KEY_IN_STATE domain_text problem_text tmp_name read_state
     evaluate).
Local Abbreviation _run_evaluator_on_pddl_files :=
  (_run_evaluator_on_pddl_files evaluate).

(** X22. Run on a pickled state, the shim creates two temporary files, writes
    the domain and the problem into them and hands both to the evaluator;
    it exits with the code of the answer, or with the exception of the
    evaluator, and leaves the file system as the evaluator left it. *)
Theorem pddl_shim_on_pickled_state filename fs l state task fs2 answer :
  read_state fs filename = inr state ->
  state !! KEY_IN_STATE = Some task ->
  let domain := tmp_name fs ".pddl" in
  let problem := tmp_name (<[domain := ""]> fs) ".pddl" in
  evaluate (Some domain) problem
    (<[problem := problem_text task]>
       (<[domain := domain_text task]>
          (<[problem := ""]> (<[domain := ""]> fs))))
    = (fs2, answer) ->
  answer <> inl FileNotFoundError ->
  answer <> inl PickleError ->
  run_evaluator [filename] fs l
  = (fs2,
     inl match answer with
         | inl e => e
         | inr true => SystemExit EXIT_CODE_IMPROVING
         | inr false => SystemExit EXIT_CODE_NOT_IMPROVING
         end, l).
Proof.
  intros Hread Hkey domain problem Heval Hnf Hnp.
  unfold PddlFiles.run_evaluator. rewrite Hread.
  unfold with_, temporary_files, NamedTemporaryFile, write_files. simpl.
  rewrite Hkey. fold domain. fold problem. unfold write_text. simpl.
  unfold PddlFiles._run_evaluator_on_pddl_files. rewrite Heval.
  destruct answer as [e|[]]; [|done..]. destruct e; done.
Qed.

(** X23. Run on a task file for which no domain file is found, the shim logs the
    failure of the discovery and then calls the evaluator all the same,
    without a domain file name: how it ends is up to the evaluator. *)
Theorem pddl_shim_goes_on_without_domain filename fs l e :
  read_state fs filename = inl e ->
  e = FileNotFoundError \/ e = PickleError ->
  (_find_domain_filename fs filename l).1 = None ->
  run_evaluator [filename] fs l
  = (_run_evaluator_on_pddl_files None filename fs,
     l ++ [(CRITICAL_LOG,
            "Error: Could not find domain file using " +:+
            "automatic naming rules.")]).
Proof.
  intros Hread He Hfind. unfold PddlFiles.run_evaluator. rewrite Hread.
  unfold _find_domain_filename in *.
  destruct (os_path_split filename) as [dirname basename].
  destruct (first_existing fs dirname (domain_basenames basename));
    [done|].
  by destruct He as [-> | ->].
Qed.

(** X24. The shim never returns to its caller: it leaves by [sys.exit] or by an
    exception. With an evaluator and a state loader that do not themselves
    exit with the critical code, the exit code is the critical one exactly
    when the number of arguments is neither one nor two, and then no file
    is touched, the evaluator is not called and one critical record is
    logged. *)
Theorem pddl_shim_critical_exit filenames fs l :
  (forall domain name fs', (evaluate domain name fs').2
                           <> inl (SystemExit EXIT_CODE_CRITICAL)) ->
  (forall name, read_state fs name <> inl (SystemExit EXIT_CODE_CRITICAL)) ->
  (exists e, (run_evaluator filenames fs l).1.2 = inl e)
  /\ ((run_evaluator filenames fs l).1.2
        = inl (SystemExit EXIT_CODE_CRITICAL)
      <-> length filenames <> 1 /\ length filenames <> 2)
  /\ (length filenames <> 1 -> length filenames <> 2 ->
      exists record,
        run_evaluator filenames fs l
        = (fs, inl (SystemExit EXIT_CODE_CRITICAL),
           l ++ [(CRITICAL_LOG, record)])).
Proof.
  intros Heval Hread.
  assert (forall domain name fs',
            exists e, (_run_evaluator_on_pddl_files domain name fs').2
                      = inl e
                      /\ e <> SystemExit EXIT_CODE_CRITICAL) as Hon.
  { intros domain name fs'. unfold PddlFiles._run_evaluator_on_pddl_files.
    specialize (Heval domain name fs').
    destruct (evaluate domain name fs') as [fs'' [e|[]]]; simpl in *;
      eexists; (split; [reflexivity|]); [congruence|done..]. }
  assert (forall name fs' l0,
            exists e,
              (let '(domain_filename, l1) :=
                 _find_domain_filename fs' name l0 in
               (_run_evaluator_on_pddl_files domain_filename name fs',
                l1)).1.2 = inl e
              /\ e <> SystemExit EXIT_CODE_CRITICAL) as Hfallback.
  { intros name fs' l0.
    destruct (_find_domain_filename fs' name l0) as [domain l1]. simpl.
    apply Hon. }
  destruct filenames as [|filename [|task_filename [|]]]; simpl.
  - split; [eauto|]. split; [|intros; eexists; reflexivity].
    split; [done|]. intros _. reflexivity.
  - assert (exists e,
              (run_evaluator [filename] fs l).1.2 = inl e
              /\ e <> SystemExit EXIT_CODE_CRITICAL) as (e & He & Hne).
    { unfold PddlFiles.run_evaluator.
      specialize (Hread filename).
      destruct (read_state fs filename) as [e|state].
      - destruct e; simpl; try (eexists; split; [reflexivity|congruence]);
          apply Hfallback.
      - unfold with_, temporary_files, NamedTemporaryFile, write_files.
        simpl.
        destruct (state !! KEY_IN_STATE) as [task|]; [|by eexists].
        simpl.
        match goal with
        | |- context [PddlFiles._run_evaluator_on_pddl_files _ ?d ?p ?f] =>
            destruct (Hon d p f) as (e & He & Hne);
            destruct (PddlFiles._run_evaluator_on_pddl_files evaluate d p f)
              as [fs2 [e'|[]]]; simpl in He; [|done]
        end.
        injection He as ->.
        destruct e; simpl; try (eexists; split; [reflexivity|congruence]);
          apply Hfallback. }
    simpl in He. rewrite He. split; [eauto|]. split; [|done].
    split; [congruence|]. intros [? _]. done.
  - destruct (Hon (Some filename) task_filename fs) as (e & He & Hne).
    rewrite He. split; [eauto|]. split; [|done].
    split; [congruence|]. intros [_ ?]. done.
  - split; [eauto|]. split; [|intros; eexists; reflexivity].
    split; [done|]. intros _. reflexivity.
Qed.

End PddlShimBehaviour.

Section ShimRuns.

Import Shim SasTasks ShimSpec Fixtures DiscoverySpec.

(** The SAS+ shim on the pickled minimal task, with an evaluator that
    answers yes: exit code 30, and the temporary file holds the task. *)
Lemma sas_shim_on_pickled_state_witness :
  let state : gmap string SASTask := {[ "sas_task" := minimal_task true ]} in
  let result :=
    SasShim.run_evaluator "sas_task" tmp_name (read_state state)
      (evaluate_sas (inr true)) ["state.pickle"] pickled [] in
  result.1.2 = inl (SystemExit 30)
  /\ result.1.1 !! "/tmp/tmp0.sas"
     = Some (SasShim.output_text (minimal_task true)).
Proof.
  intros state result.
  assert (result
          = (<["/tmp/tmp0.sas" := SasShim.output_text (minimal_task true)]>
               (<["/tmp/tmp0.sas" := ""]> pickled),
             inl (SystemExit 30), [])) as ->.
  { exact (sas_shim_on_pickled_state "sas_task" tmp_name (read_state state)
             (evaluate_sas (inr true)) "state.pickle" pickled [] state
             (minimal_task true) _ (inr true) eq_refl eq_refl eq_refl
             ltac:(discriminate) ltac:(discriminate)). }
  split; reflexivity.
Defined.

(** An evaluator that does not find its planner on the temporary file is
    run again, on the pickled state. *)
Lemma sas_shim_runs_evaluator_again_witness :
  let state : gmap string SASTask := {[ "sas_task" := minimal_task true ]} in
  let evaluate (name : string) (fs : FS) : FS * (exn + bool) :=
    if bool_decide (name = "state.pickle") then (fs, inr false)
    else (fs, inl FileNotFoundError) in
  (SasShim.run_evaluator "sas_task" tmp_name (read_state state) evaluate
     ["state.pickle"] pickled []).1.2
  = inl (SystemExit 31).
Proof.
  intros state evaluate.
  rewrite (sas_shim_runs_evaluator_again "sas_task" tmp_name
             (read_state state) evaluate "state.pickle" pickled [] state
             (minimal_task true) _ FileNotFoundError eq_refl eq_refl
             eq_refl (or_introl eq_refl)).
  reflexivity.
Defined.

(** A pickled state that is an empty mapping. *)
Lemma sas_shim_state_without_task_witness :
  SasShim.run_evaluator "sas_task" tmp_name (read_state ∅)
    (evaluate_sas (inr true)) ["state.pickle"] pickled []
  = (<["/tmp/tmp0.sas" := ""]> pickled, inl KeyError, []).
Proof.
  exact (sas_shim_state_without_task "sas_task" tmp_name (read_state ∅)
           (evaluate_sas (inr true)) "state.pickle" pickled [] ∅
           eq_refl eq_refl).
Defined.

(** The SAS+ shim called without argument. *)
Lemma sas_shim_critical_exit_witness :
  let state : gmap string SASTask := {[ "sas_task" := minimal_task true ]} in
  (SasShim.run_evaluator "sas_task" tmp_name (read_state state)
     (evaluate_sas (inr true)) [] pickled []).1.2
  = inl (SystemExit 32).
Proof.
  intros state.
  apply (sas_shim_critical_exit "sas_task" tmp_name (read_state state)
           (evaluate_sas (inr true)) [] pickled []); [done..|].
  simpl. lia.
Defined.

(** The PDDL shim on a pickled state, with an evaluator that answers no. *)
Lemma pddl_shim_on_pickled_state_witness :
  let result :=
    PddlFiles.run_evaluator (PddlTask := unit) "pddl_task"
      (fun _ => "(define (domain d))") (fun _ => "(define (problem p))")
      tmp_name (read_state {[ "pddl_task" := () ]})
      (evaluate_pddl (inr false)) ["state.pickle"] pickled [] in
  result.1.2 = inl (SystemExit 31)
  /\ result.1.1 !! "/tmp/tmp0.pddl" = Some "(define (domain d))"
  /\ result.1.1 !! "/tmp/tmp1.pddl" = Some "(define (problem p))".
Proof.
  intros result.
  pose proof (pddl_shim_on_pickled_state (PddlTask := unit) "pddl_task"
                (fun _ => "(define (domain d))")
                (fun _ => "(define (problem p))")
                tmp_name (read_state {[ "pddl_task" := () ]})
                (evaluate_pddl (inr false)) "state.pickle" pickled []
                {[ "pddl_task" := () ]} () _ (inr false)
                eq_refl eq_refl eq_refl
                ltac:(discriminate) ltac:(discriminate)) as H.
  unfold result. rewrite H. repeat split.
Defined.

(** The PDDL shim on the task file d/p01.pddl without any domain file. *)
Lemma pddl_shim_goes_on_without_domain_witness :
  let fs := files ["d/p01.pddl"] in
  PddlFiles.run_evaluator (PddlTask := unit) "pddl_task" (fun _ => "")
    (fun _ => "") tmp_name (fun _ _ => inl PickleError)
    (fun domain _ fs => (fs, inr (bool_decide (domain = None))))
    ["d/p01.pddl"] fs []
  = (fs, inl (SystemExit 30),
     [(CRITICAL_LOG,
       "Error: Could not find domain file using automatic naming rules.")]).
Proof.
  intros fs.
  exact (pddl_shim_goes_on_without_domain (PddlTask := unit) "pddl_task"
           (fun _ => "") (fun _ => "") tmp_name (fun _ _ => inl PickleError)
           (fun domain _ fs => (fs, inr (bool_decide (domain = None))))
           "d/p01.pddl" fs [] PickleError eq_refl (or_intror eq_refl)
           eq_refl).
Defined.

(** The PDDL shim called with three arguments. *)
Lemma pddl_shim_critical_exit_witness :
  (PddlFiles.run_evaluator (PddlTask := unit) "pddl_task" (fun _ => "")
     (fun _ => "") tmp_name (read_state {[ "pddl_task" := () ]})
     (evaluate_pddl (inr true)) ["a"; "b"; "c"] pickled []).1.2
  = inl (SystemExit 32).
Proof.
  apply (pddl_shim_critical_exit (PddlTask := unit) "pddl_task"
           (fun _ => "") (fun _ => "") tmp_name
           (read_state {[ "pddl_task" := () ]}) (evaluate_pddl (inr true))
           ["a"; "b"; "c"] pickled []); [done..|].
  simpl. lia.
Defined.

End ShimRuns.

(** ** The metric line *)

Section Metric.

Import SasTasks SasFiles ReaderSpec RenameSpec RoundTripSpec Fixtures.
Local Open Scope Z_scope.

(** X16. The reader takes the metric line for a truth value by [bool], which
    asks only whether the line is empty: a file that is read is read as the
    same task, its metric flag set, whatever stands on its metric line, be
    it 0 or no number at all. *)
Theorem metric_line_is_read_as_set pre m1 m2 rest t :
  "begin_metric" ∉ pre -> m1 <> "" -> m2 <> "" ->
  _read_task (pre ++ "begin_metric" :: m1 :: rest) = inr t ->
  metric t = true
  /\ _read_task (pre ++ "begin_metric" :: m2 :: rest) = inr t.
Proof.
  intros Hpre H1 H2 Hread.
  assert (forall m, _read_task (pre ++ "begin_metric" :: m :: rest)
                    = _read_task ("begin_metric" :: m :: rest)) as Hskip.
  { intros m. unfold _read_task, _read_task_lines.
    erewrite (bind_returns skip_to_begin_metric)
      by (by apply skip_to_begin_metric_app).
    by erewrite (bind_returns skip_to_begin_metric) by reflexivity. }
  split.
  - rewrite (read_metric_line pre m1 rest t Hpre Hread).
    by rewrite bool_decide_eq_false_2.
  - rewrite Hskip, <- Hread, Hskip.
    by apply read_metric_line_irrelevant.
Qed.

Lemma metric_line_is_read_as_set_witness :
  metric (minimal_task true) = true
  /\ _read_task (minimal_file "no metric") = inr (minimal_task true).
Proof.
  assert ("begin_metric" ∉ ([] : list string)) as Hpre
    by apply not_elem_of_nil.
  exact (metric_line_is_read_as_set [] "0" "no metric"
           (drop 2 (minimal_file "")) (minimal_task true) Hpre
           ltac:(discriminate) ltac:(discriminate) eq_refl).
Defined.

End Metric.

(** ** The writers of the typed declarations *)

Section WriterProperties.

Import PddlWriters WriterSpec.
Implicit Types (d : dict) (pairs : list (string * string)).

Local Abbreviation add :=
  (fun d (p : string * string) => dict_append d p.1 p.2).

Lemma dict_append_keys d key value :
  (dict_append d key value).*1
  = if bool_decide (key ∈ d.*1) then d.*1 else d.*1 ++ [key].
Proof.
  induction d as [|[k values] d IH]; [done|].
  cbn [dict_append]. rewrite fmap_cons. cbn [fst].
  destruct (decide (key = k)) as [->|Hk].
  - rewrite !bool_decide_eq_true_2; [done|left|done].
  - rewrite (bool_decide_eq_false_2 _ Hk), fmap_cons, IH. cbn [fst].
    destruct (decide (key ∈ d.*1)) as [Hin|Hin].
    + rewrite !bool_decide_eq_true_2; [done|by right|done].
    + rewrite !bool_decide_eq_false_2; [done| |done].
      intros [?|?]%elem_of_cons; done.
Qed.

Lemma dict_append_get d key value k :
  dict_get (dict_append d key value) k
  = if bool_decide (k = key) then dict_get d k ++ [value] else dict_get d k.
Proof.
  induction d as [|[k' values] d IH]; simpl.
  - by destruct (decide (k = key)) as [->|Hk];
      [rewrite !bool_decide_eq_true_2|rewrite !bool_decide_eq_false_2].
  - destruct (decide (key = k')) as [->|Hkey].
    + rewrite (bool_decide_eq_true_2 (k' = k')) by done. simpl.
      by destruct (bool_decide (k = k')).
    + rewrite (bool_decide_eq_false_2 _ Hkey). simpl. rewrite IH.
      destruct (decide (k = k')) as [->|Hk].
      * rewrite (bool_decide_eq_true_2 (k' = k')) by done.
        rewrite bool_decide_eq_false_2; [done|congruence].
      * by rewrite (bool_decide_eq_false_2 _ Hk).
Qed.

Lemma foldl_add_keys pairs : forall d,
  (foldl add d pairs).*1
  = d.*1 ++ filter (fun k => k ∉ d.*1) (first_occurrences pairs.*1).
Proof.
  induction pairs as [|[k v] pairs IH]; intros d.
  - simpl. by rewrite app_nil_r.
  - cbn [foldl fst snd]. rewrite IH, dict_append_keys.
    rewrite fmap_cons. cbn [first_occurrences fst]. rewrite filter_cons.
    destruct (decide (k ∈ d.*1)) as [Hin|Hin].
    + rewrite bool_decide_eq_true_2 by done.
      rewrite decide_False by (by intros ?). f_equal.
      rewrite list_filter_filter. apply list_filter_iff.
      intros x. split; [|by intros [? ?]]. intros Hx. split; [done|].
      by intros ->.
    + rewrite bool_decide_eq_false_2 by done.
      rewrite decide_True by done. rewrite <- app_assoc. simpl.
      do 2 f_equal. rewrite list_filter_filter. apply list_filter_iff.
      intros x. rewrite elem_of_app, list_elem_of_singleton.
      split; [intros Hx; split; intros ?; apply Hx; auto|].
      intros [Hx Hxk] [?|?]; done.
Qed.

Lemma foldl_add_get pairs k : forall d,
  dict_get (foldl add d pairs) k
  = dict_get d k ++ (filter (fun p => p.1 = k) pairs).*2.
Proof.
  induction pairs as [|[k' v] pairs IH]; intros d.
  - simpl. by rewrite app_nil_r.
  - cbn [foldl fst snd]. rewrite IH, dict_append_get, filter_cons.
    cbn [fst]. destruct (decide (k = k')) as [->|Hk].
    + rewrite bool_decide_eq_true_2 by done.
      rewrite decide_True by done. by rewrite <- app_assoc.
    + rewrite bool_decide_eq_false_2 by done.
      rewrite decide_False; [done|congruence].
Qed.

Lemma dict_append_NoDup d key value :
  NoDup d.*1 -> NoDup (dict_append d key value).*1.
Proof.
  intros Hd. rewrite dict_append_keys. case_bool_decide as Hin; [done|].
  apply NoDup_app. split; [done|]. split.
  - intros x Hx ->%list_elem_of_singleton. done.
  - apply NoDup_singleton.
Qed.

Lemma foldl_add_NoDup pairs : forall d,
  NoDup d.*1 -> NoDup (foldl add d pairs).*1.
Proof.
  induction pairs as [|p pairs IH]; intros d Hd; simpl; [done|].
  by apply IH, dict_append_NoDup.
Qed.

Lemma dict_by_keys d :
  NoDup d.*1 -> d = (fun key => (key, dict_get d key)) <$> d.*1.
Proof.
  induction d as [|[k values] d IH]; simpl; [done|].
  intros [Hk Hd]%NoDup_cons. rewrite bool_decide_eq_true_2 by done.
  f_equal. rewrite IH at 1 by done. apply list_fmap_ext.
  intros i key Hkey. rewrite bool_decide_eq_false_2; [done|].
  intros ->. by apply list_elem_of_lookup_2 in Hkey.
Qed.

Lemma filter_not_in_nil (l : list string) :
  filter (fun k => k ∉ ([] : list string)) l = l.
Proof.
  induction l as [|x l IH]; [done|].
  rewrite filter_cons, decide_True by apply not_elem_of_nil. by rewrite IH.
Qed.

(** The loop that fills a dictionary of lists groups the pairs by key. *)
Lemma foldl_add_grouped pairs : foldl add [] pairs = grouped pairs.
Proof.
  rewrite (dict_by_keys (foldl add [] pairs))
    by (apply foldl_add_NoDup; constructor).
  rewrite foldl_add_keys. simpl. unfold grouped.
  rewrite filter_not_in_nil.
  apply list_fmap_ext. intros i key _. by rewrite foldl_add_get.
Qed.

(** X25. The constants section has one line for each type name, in the order in
    which the type names first occur among the objects, and the line of a
    type lists the objects of that type, all of them, in their order. *)
Theorem objects_written_by_type objects :
  objects_dict objects = grouped (declaration <$> objects).
Proof.
  rewrite <- foldl_add_grouped. unfold objects_dict.
  generalize ([] : dict).
  induction objects as [|obj objects IH]; intros d; simpl; [done|].
  apply IH.
Qed.

(** X26. The types section lists the types that have a base type, grouped by
    base type; a type without base type is not declared in it. *)
Theorem types_written_by_base_type types :
  types_dict types = grouped (omap base_declaration types).
Proof.
  rewrite <- foldl_add_grouped. unfold types_dict.
  generalize ([] : dict).
  induction types as [|tp types IH]; intros d; [done|].
  cbn [foldl omap list_omap]. unfold base_declaration at 1.
  destruct (basetype_name tp) as [basetype|]; simpl; apply IH.
Qed.



End WriterProperties.
